(** * Quality dashboard analytics: a shallow embedding of [src/App.tsx]

    The development follows the analytics core of the dashboard component:
    the outlier engine ([calculateOutliers], [isOutlier]), the Pareto and
    heatmap engines, the recurrence triads, the recurrence explorer, the
    quick-action recommender, the filter/sort view and the two record
    mutations ([handleFlag], [handleNoteUpdate]); then the aggregation
    engine ([analytics]), the heatmap colours ([heatColor]), the column
    headers ([handleSort]), the flagged list and the outlier table, and
    the generator of the initial record set ([generateSyntheticData]).

    Modelling conventions.

    - A JavaScript [number] is a value of [number]: an exact rational, or one
      of the three IEEE special values the code can produce by dividing by
      zero ([PosInf], [NegInf], [NaN]).  Arithmetic on finite values is
      exact; the binary64 rounding error of the engine is not modelled.
      Counters that the code only ever increments by one are [nat].
    - [Math.sqrt], [Number.prototype.toString], [String.prototype.localeCompare],
      [Math.random] and the ISO form of a date are parameters of the
      functions that call them.
    - A JavaScript object used as a dictionary is an insertion-ordered
      association list ([dict]); [Object_entries] enumerates it the way the
      language does (array-index keys first, ascending, then the other keys
      in creation order).  The heatmap cube, which is only ever read by key,
      is a nested [gmap].
    - Of the properties a plain object inherits from [Object.prototype] the
      model follows [__proto__] where a number is counted under it: the
      assignment is dropped, and the read yields [Object.prototype].  The
      inherited methods ([constructor], [toString], ...) and writes through
      an inherited object are not followed; the theorems that depend on a
      dictionary keyed by the data assume that the keys are none of these
      names ([plainKeys]).
    - [Array.prototype.sort] is a stable insertion sort driven by the sign
      of the comparator.
    - Strings are [string]s of 8-bit characters, compared by their codes,
      and [toLowerCase] lowers the letters A to Z.  On ASCII text this is
      what the language does; the theorems about case and about the order
      of strings assume ASCII text ([asciiText]). *)

From Stdlib Require Import ZArith QArith Qround Qabs List String Ascii DecimalString.
From Stdlib Require Import Bool Lia Lqa Permutation Sorted.
From Stdlib Require OrderedTypeEx.
From stdpp Require Import gmap strings.
Import ListNotations.

Local Open Scope string_scope.
Local Open Scope list_scope.

(** ** JavaScript numbers *)

Inductive number : Type :=
| Fin (q : Q)
| PosInf
| NegInf
| NaN.

Module Num.

Local Open Scope Q_scope.

Definition zero : number := Fin 0.

Definition of_nat (n : nat) : number := Fin (inject_Z (Z.of_nat n)).

Definition neg (x : number) : number :=
  match x with
  | Fin q => Fin (- q)
  | PosInf => NegInf
  | NegInf => PosInf
  | NaN => NaN
  end.

(** [x + y] *)
Definition add (x y : number) : number :=
  match x, y with
  | NaN, _ | _, NaN => NaN
  | Fin a, Fin b => Fin (a + b)
  | PosInf, NegInf | NegInf, PosInf => NaN
  | PosInf, _ | _, PosInf => PosInf
  | NegInf, _ | _, NegInf => NegInf
  end.

(** [x - y] *)
Definition sub (x y : number) : number := add x (neg y).

(** The infinity carrying the sign of [q]; [0 * Infinity] is [NaN]. *)
Definition signed_inf (q : Q) (positive : bool) : number :=
  match q ?= 0 with
  | Eq => NaN
  | Gt => if positive then PosInf else NegInf
  | Lt => if positive then NegInf else PosInf
  end.

(** [x * y] *)
Definition mul (x y : number) : number :=
  match x, y with
  | NaN, _ | _, NaN => NaN
  | Fin a, Fin b => Fin (a * b)
  | Fin a, PosInf | PosInf, Fin a => signed_inf a true
  | Fin a, NegInf | NegInf, Fin a => signed_inf a false
  | PosInf, PosInf | NegInf, NegInf => PosInf
  | PosInf, NegInf | NegInf, PosInf => NegInf
  end.

(** [x / y]; a zero divisor is the positive zero. *)
Definition div (x y : number) : number :=
  match x, y with
  | NaN, _ | _, NaN => NaN
  | Fin a, Fin b => if Qeq_bool b 0 then signed_inf a true else Fin (a / b)
  | Fin _, PosInf | Fin _, NegInf => Fin 0
  | PosInf, Fin b => if Qle_bool 0 b then PosInf else NegInf
  | NegInf, Fin b => if Qle_bool 0 b then NegInf else PosInf
  | PosInf, _ | NegInf, _ => NaN
  end.

(** [x < y]; every comparison with [NaN] is false. *)
Definition ltb (x y : number) : bool :=
  match x, y with
  | NaN, _ | _, NaN => false
  | Fin a, Fin b => negb (Qle_bool b a)
  | NegInf, NegInf | PosInf, _ | _, NegInf => false
  | NegInf, _ | _, PosInf => true
  end.

(** [x > y] *)
Definition gtb (x y : number) : bool := ltb y x.

(** [x === y] *)
Definition eqb (x y : number) : bool :=
  match x, y with
  | Fin a, Fin b => Qeq_bool a b
  | PosInf, PosInf | NegInf, NegInf => true
  | _, _ => false
  end.

(** [x >= y] *)
Definition geb (x y : number) : bool := ltb y x || eqb x y.

(** [Math.abs(x)] *)
Definition abs (x : number) : number :=
  match x with
  | Fin q => Fin (Qabs q)
  | NaN => NaN
  | _ => PosInf
  end.

(** [Math.pow(x, 2)] *)
Definition pow2 (x : number) : number := mul x x.

(** ToBoolean of a number: zero and [NaN] are falsy. *)
Definition truthy (x : number) : bool :=
  match x with
  | Fin q => negb (Qeq_bool q 0)
  | NaN => false
  | _ => true
  end.

(** Nearest multiple of 1/100 to a non-negative rational, the larger one
    on a tie: the digits [toFixed(2)] prints. *)
Definition hundredths (q : Q) : Z := Qfloor (q * 100 + (1 # 2)).

(** [parseFloat(x.toFixed(2))], also written [+x.toFixed(2)].  From 1e21 on
    [toFixed] prints the number itself. *)
Definition toFixed2 (x : number) : number :=
  match x with
  | Fin q =>
      if Qle_bool (inject_Z (10 ^ 21)%Z) (Qabs q) then Fin q
      else if Qle_bool 0 q then Fin (inject_Z (hundredths q) / 100)
      else Fin (- (inject_Z (hundredths (- q)) / 100))
  | _ => x
  end.

End Num.

Arguments Num.add : simpl never.
Arguments Num.sub : simpl never.
Arguments Num.mul : simpl never.
Arguments Num.div : simpl never.
Arguments Num.ltb : simpl never.
Arguments Num.gtb : simpl never.
Arguments Num.eqb : simpl never.
Arguments Num.geb : simpl never.
Arguments Num.of_nat : simpl never.
Arguments Num.toFixed2 : simpl never.

(** ** Built-in operations of the language *)

Module JS.

Section Arrays.
Context {A : Type}.

(** [x] goes after [y] when the comparator is positive on [(x, y)]. *)
Fixpoint sort_insert (cmp : A -> A -> number) (x : A) (l : list A) : list A :=
  match l with
  | [] => [x]
  | y :: l' =>
      if Num.gtb (cmp x y) Num.zero then y :: sort_insert cmp x l'
      else x :: l
  end.

(** [arr.sort(cmp)] *)
Definition Array_sort (cmp : A -> A -> number) (l : list A) : list A :=
  fold_right (sort_insert cmp) [] l.

(** [arr.slice(0, n)] *)
Definition slice0 (n : nat) (l : list A) : list A := firstn n l.

(** [arr.some(p)] *)
Definition Array_some (p : A -> bool) (l : list A) : bool := existsb p l.

End Arrays.

(** [arr.includes(s)] on an array of strings *)
Definition Array_includes (l : list string) (s : string) : bool :=
  existsb (String.eqb s) l.

(** [Array.from(new Set(arr))]: the first occurrence of every string, in
    order. *)
Fixpoint Set_from_aux (seen : list string) (l : list string) : list string :=
  match l with
  | [] => []
  | x :: l' =>
      if Array_includes seen x then Set_from_aux seen l'
      else x :: Set_from_aux (x :: seen) l'
  end.

Definition Set_from (l : list string) : list string := Set_from_aux [] l.

(** *** Objects used as dictionaries *)

Definition dict (V : Type) : Type := list (string * V).

Section Dict.
Context {V : Type}.

(** [o[k]], [None] for [undefined] *)
Fixpoint get (o : dict V) (k : string) : option V :=
  match o with
  | [] => None
  | (k', v) :: o' => if String.eqb k k' then Some v else get o' k
  end.

(** [o[k] = v]: an existing property keeps its place, a new one is
    created last. *)
Fixpoint set (o : dict V) (k : string) (v : V) : dict V :=
  match o with
  | [] => [(k, v)]
  | (k', v') :: o' =>
      if String.eqb k k' then (k', v) :: o' else (k', v') :: set o' k v
  end.

(** [o[k] = v] for a value [v] that is not an object.  The key [__proto__]
    is the accessor every plain object inherits: its setter ignores such a
    value, and no property is created. *)
Definition assign (o : dict V) (k : string) (v : V) : dict V :=
  if String.eqb k "__proto__" then o else set o k v.

End Dict.

(** The property names of [Object.prototype]: a plain object answers to
    each of them without having been given any. *)
Definition Object_prototype_names : list string :=
  ["constructor"; "__defineGetter__"; "__defineSetter__"; "hasOwnProperty";
   "__lookupGetter__"; "__lookupSetter__"; "isPrototypeOf"; "propertyIsEnumerable";
   "toString"; "valueOf"; "__proto__"; "toLocaleString"].

Definition inherited (k : string) : bool := Array_includes Object_prototype_names k.

Definition is_digit (c : ascii) : bool :=
  let n := nat_of_ascii c in (48 <=? n)%nat && (n <=? 57)%nat.

Fixpoint digits_value (acc : N) (s : string) : option N :=
  match s with
  | EmptyString => Some acc
  | String c s' =>
      if is_digit c
      then digits_value (acc * 10 + N.of_nat (nat_of_ascii c - 48)) s'
      else None
  end.

(** The array index a property key denotes: a canonical decimal numeral
    (no sign, no leading zero) below 2^32 - 1. *)
Definition array_index (k : string) : option N :=
  match k with
  | EmptyString => None
  | String c rest =>
      if Ascii.eqb c "0" && negb (String.eqb rest EmptyString) then None
      else
        match digits_value 0 k with
        | Some n => if (n <? 4294967295)%N then Some n else None
        | None => None
        end
  end.

Section Entries.
Context {V : Type}.

Fixpoint index_insert (e : N * (string * V)) (l : list (N * (string * V)))
  : list (N * (string * V)) :=
  match l with
  | [] => [e]
  | e' :: l' =>
      if (fst e' <? fst e)%N then e' :: index_insert e l' else e :: l
  end.

(** The properties whose key is an array index, tagged with it. *)
Fixpoint indexed (o : dict V) : list (N * (string * V)) :=
  match o with
  | [] => []
  | (k, v) :: o' =>
      match array_index k with
      | Some n => (n, (k, v)) :: indexed o'
      | None => indexed o'
      end
  end.

Fixpoint named (o : dict V) : dict V :=
  match o with
  | [] => []
  | (k, v) :: o' =>
      match array_index k with
      | Some _ => named o'
      | None => (k, v) :: named o'
      end
  end.

(** [Object.entries(o)] *)
Definition Object_entries (o : dict V) : list (string * V) :=
  map snd (fold_right index_insert [] (indexed o)) ++ named o.

(** [Object.values(o)] *)
Definition Object_values (o : dict V) : list V := map snd (Object_entries o).

End Entries.

(** *** Strings *)

Definition lower_ascii (c : ascii) : ascii :=
  let n := nat_of_ascii c in
  if (65 <=? n)%nat && (n <=? 90)%nat then ascii_of_nat (n + 32) else c.

(** [s.toLowerCase()] *)
Fixpoint toLowerCase (s : string) : string :=
  match s with
  | EmptyString => EmptyString
  | String c s' => String (lower_ascii c) (toLowerCase s')
  end.

(** [s.includes(t)] *)
Fixpoint String_includes (s t : string) : bool :=
  String.prefix t s ||
  match s with
  | EmptyString => false
  | String _ s' => String_includes s' t
  end.

(** [s.split(sep)] for a non-empty separator: [skip] characters of a
    separator just matched are still to be dropped, [cur] is the piece
    being read, reversed. *)
Fixpoint split_aux (sep : string) (s : string) (skip : nat) (cur : string)
  : list string :=
  match s with
  | EmptyString => [String.rev cur]
  | String c s' =>
      match skip with
      | S n => split_aux sep s' n cur
      | O =>
          if String.prefix sep s
          then String.rev cur :: split_aux sep s' (String.length sep - 1) EmptyString
          else split_aux sep s' 0 (String c cur)
      end
  end.

Definition String_split (s sep : string) : list string := split_aux sep s 0 EmptyString.

(** [a < b] on strings: lexicographic on the character codes. *)
Definition String_ltb (a b : string) : bool :=
  match String.compare a b with
  | Lt => true
  | _ => false
  end.

End JS.

(** ** Data model *)

Inductive YesNo : Type := Yes | No.

Inductive Category : Type := Cosmetic | Functional | Critical.

Module Defect.

Record t : Type := mk {
  id : number;
  date : string;
  time : string;
  defectName : string;
  station : string;
  partOfCar : string;
  reporter : string;
  partNumber : string;
  severityRating : number;
  carModel : string;
  motorType : string;
  designPackage : string;
  productionShift : string;
  resolutionTime : number;
  rootCauseIdentified : YesNo;
  defectCategory : Category;
  flagged : bool;
  note : string;
  status : string
}.

End Defect.

Abbreviation Defect := Defect.t.

Definition YesNo_string (y : YesNo) : string :=
  match y with Yes => "Yes" | No => "No" end.

Definition Category_string (c : Category) : string :=
  match c with
  | Cosmetic => "Cosmetic"
  | Functional => "Functional"
  | Critical => "Critical"
  end.

(** [counts[k] = (counts[k] || 0) + 1], over the records in order.  For the
    key [__proto__] the value read is [Object.prototype], the sum is a
    string and the assignment is dropped: such a record is not counted.
    For the names of the methods of [Object.prototype] the code stores a
    string as well; the model counts them like any other key, and the
    theorems leave them out ([plainKeys]). *)
Definition countBy (key : Defect -> string) (data : list Defect) : JS.dict nat :=
  fold_left (fun acc d => JS.assign acc (key d) (default 0 (JS.get acc (key d)) + 1)) data [].

(** The comparator [(a, b) => b.count - a.count]. *)
Definition byCountDesc {A : Type} (count : A -> nat) (a b : A) : number :=
  Num.sub (Num.of_nat (count b)) (Num.of_nat (count a)).

(** ** Statistical outlier engine *)

Module Outlier.

Record Bounds : Type := {
  mean : number;
  stdDev : number;
  lowerBound : number;
  upperBound : number
}.

Record Outliers : Type := {
  resolutionTime : Bounds;
  severityRating : Bounds;
  staticCritical : number
}.

Section WithSqrt.
Variable Math_sqrt : number -> number.

(** The body of [metrics.forEach] for one metric. *)
Definition metricBounds (values : list number) (stdDevThreshold : number) : Bounds :=
  let mean :=
    Num.div (fold_left (fun a b => Num.add a b) values Num.zero)
            (Num.of_nat (length values)) in
  let variance :=
    Num.div (fold_left (fun a b => Num.add a (Num.pow2 (Num.sub b mean))) values Num.zero)
            (Num.of_nat (length values)) in
  let stdDev := Math_sqrt variance in
  {| mean := mean;
     stdDev := stdDev;
     lowerBound := Num.sub mean (Num.mul stdDevThreshold stdDev);
     upperBound := Num.add mean (Num.mul stdDevThreshold stdDev) |}.

Definition calculateOutliers (data : list Defect) (stdDevThreshold : number) : Outliers :=
  {| resolutionTime := metricBounds (map Defect.resolutionTime data) stdDevThreshold;
     severityRating := metricBounds (map Defect.severityRating data) stdDevThreshold;
     staticCritical := Fin 8 |}.

Definition isOutlier (data : list Defect) (stdDevThreshold : number) (record : Defect) : bool :=
  let calc := calculateOutliers data stdDevThreshold in
  let resTime := resolutionTime calc in
  let sevTime := severityRating calc in
  Num.gtb (Defect.resolutionTime record) (upperBound resTime)
  || Num.ltb (Defect.resolutionTime record) (lowerBound resTime)
  || Num.gtb (Defect.severityRating record) (upperBound sevTime)
  || Num.geb (Defect.severityRating record) (staticCritical calc).

End WithSqrt.

End Outlier.

(** ** Pareto engine *)

Module Pareto.

(** A row of either table; [name] is the [part] of a parts row. *)
Record Row : Type := {
  name : string;
  count : nat;
  pct : number;
  cumPct : number
}.

Definition percent (n total : nat) : number :=
  Num.toFixed2 (Num.mul (Num.div (Num.of_nat n) (Num.of_nat total)) (Fin 100)).

(** [.map(([name, count]) => ({ name, count })).sort(...).map((row, i, arr) => ...)] *)
Definition rows (counts : JS.dict nat) (total : nat) : list Row :=
  let arr :=
    JS.Array_sort (byCountDesc snd)
      (map (fun e : string * nat => (fst e, snd e)) (JS.Object_entries counts)) in
  map (fun ir : nat * (string * nat) =>
         let (i, row) := ir in
         let cum := fold_left (fun s r => s + snd r) (JS.slice0 (i + 1) arr) 0 in
         {| name := fst row;
            count := snd row;
            pct := percent (snd row) total;
            cumPct := percent cum total |})
      (combine (seq 0 (length arr)) arr).

Record Result : Type := {
  defectsPareto : list Row;
  partsPareto : list Row
}.

Definition pareto (data : list Defect) : Result :=
  let (countByDefect, countByPart) :=
    fold_left (fun (acc : JS.dict nat * JS.dict nat) d =>
                 (JS.assign (fst acc) (Defect.defectName d)
                            (default 0 (JS.get (fst acc) (Defect.defectName d)) + 1),
                  JS.assign (snd acc) (Defect.partOfCar d)
                            (default 0 (JS.get (snd acc) (Defect.partOfCar d)) + 1)))
              data ([], []) in
  let total := match length data with O => 1 | n => n end in
  {| defectsPareto := rows countByDefect total;
     partsPareto := rows countByPart total |}.

End Pareto.

(** ** Heatmap engine *)

Module Heatmap.

(** What a cell of the cube yields when it is read: a count, or
    [Object.prototype] itself, which is what the key [__proto__] of the
    innermost object answers with. *)
Inductive Cell : Type :=
| Counted (n : nat)
| Prototype.

Record Row : Type := {
  defectName : string;
  station : string;
  shift : string;
  count : Cell
}.

Record Result : Type := {
  topDefects : list string;
  stations : list string;
  shifts : list string;
  rows : list Row;
  maxCount : nat
}.

(** [cube[defect]?.[st]?.[sh] ?? 0]: the innermost object, when there is
    one, answers the key [__proto__] with [Object.prototype], which is not
    nullish. *)
Definition cell (cube : gmap string (gmap string (gmap string nat)))
           (defect st sh : string) : Cell :=
  match cube !! defect with
  | Some byStation =>
      match byStation !! st with
      | Some byShift =>
          if String.eqb sh "__proto__" then Prototype
          else Counted (default 0 (byShift !! sh))
      | None => Counted 0
      end
  | None => Counted 0
  end.

(** One iteration of the loop that fills the cube.  Under the shift
    [__proto__] the sum is a string and the assignment is dropped; the two
    objects above it are created all the same.  The other inherited names,
    and [__proto__] as a station, are not followed (see [plainKeys]). *)
Definition fill (topN : list string) (cube : gmap string (gmap string (gmap string nat)))
           (d : Defect) : gmap string (gmap string (gmap string nat)) :=
  if negb (JS.Array_includes topN (Defect.defectName d)) then cube
  else
    let byStation := default ∅ (cube !! Defect.defectName d) in
    let byShift := default ∅ (byStation !! Defect.station d) in
    let n := default 0 (byShift !! Defect.productionShift d) in
    <[Defect.defectName d :=
        <[Defect.station d :=
            if String.eqb (Defect.productionShift d) "__proto__" then byShift
            else <[Defect.productionShift d := n + 1]> byShift]> byStation]>
      cube.

Definition topN (data : list Defect) : list string :=
  map fst (JS.slice0 6 (JS.Array_sort (byCountDesc snd)
                          (JS.Object_entries (countBy Defect.defectName data)))).

Definition heatmap (data : list Defect) : Result :=
  let topN := topN data in
  let stations := JS.Set_from (map Defect.station data) in
  let shifts := JS.Set_from (map Defect.productionShift data) in
  let cube := fold_left (fill topN) data ∅ in
  let rows :=
    flat_map (fun defect =>
      flat_map (fun st =>
        map (fun sh =>
               {| defectName := defect; station := st; shift := sh;
                  count := cell cube defect st sh |})
            shifts)
        stations)
      topN in
  let maxCount :=
    fold_left (fun m r =>
                 match count r with
                 | Counted c => if (m <? c)%nat then c else m
                 | Prototype => m
                 end)
              rows 0 in
  {| topDefects := topN; stations := stations; shifts := shifts; rows := rows;
     maxCount := Nat.max maxCount 1 |}.

End Heatmap.

(** The expression [count * (0.6 + 0.4 * (avgSev / 10)) + 0.2 * avgResH],
    which [triads] and [quickActions] both spell out. *)
Definition weighted (count : nat) (avgSev avgResH : number) : number :=
  Num.add (Num.mul (Num.of_nat count)
                   (Num.add (Fin 0.6) (Num.mul (Fin 0.4) (Num.div avgSev (Fin 10)))))
          (Num.mul (Fin 0.2) avgResH).

(** ** Recurrence engine: defect x station x part *)

Module Triads.

Record Group : Type := {
  defectName : string;
  station : string;
  partOfCar : string;
  count : nat;
  sumSeverity : number;
  sumResH : number;
  rootCauseNo : nat
}.

(** A group with the fields the two [map] passes add to it. *)
Record Row : Type := {
  group : Group;
  avgSeverity : number;
  avgResH : number;
  score : number
}.

Definition keyOf (d : Defect) : string :=
  Defect.defectName d ++ "|||" ++ Defect.station d ++ "|||" ++ Defect.partOfCar d.

Definition accumulate (map : JS.dict Group) (d : Defect) : JS.dict Group :=
  let k := keyOf d in
  let g :=
    default {| defectName := Defect.defectName d;
               station := Defect.station d;
               partOfCar := Defect.partOfCar d;
               count := 0;
               sumSeverity := Num.zero;
               sumResH := Num.zero;
               rootCauseNo := 0 |}
            (JS.get map k) in
  JS.set map k
    {| defectName := defectName g;
       station := station g;
       partOfCar := partOfCar g;
       count := count g + 1;
       sumSeverity := Num.add (sumSeverity g) (Defect.severityRating d);
       sumResH := Num.add (sumResH g) (Defect.resolutionTime d);
       rootCauseNo :=
         rootCauseNo g + match Defect.rootCauseIdentified d with No => 1 | Yes => 0 end |}.

(** The two [map] passes over [Object.values(map)]: the averages are
    rounded first, the score is computed from the rounded averages. *)
Definition withScore (r : Group) : Row :=
  let avgSeverity := Num.toFixed2 (Num.div (sumSeverity r) (Num.of_nat (count r))) in
  let avgResH := Num.toFixed2 (Num.div (sumResH r) (Num.of_nat (count r))) in
  {| group := r;
     avgSeverity := avgSeverity;
     avgResH := avgResH;
     score := Num.toFixed2 (weighted (count r) avgSeverity avgResH) |}.

Record Result : Type := {
  byCount : list Row;
  byScore : list Row
}.

Definition triads (data : list Defect) : Result :=
  let map := fold_left accumulate data [] in
  let withScore := List.map withScore (JS.Object_values map) in
  {| byCount := JS.Array_sort (byCountDesc (fun r => count (group r))) withScore;
     byScore := JS.Array_sort (fun a b => Num.sub (score b) (score a)) withScore |}.

End Triads.

(** ** Recurrence explorer *)

Module Explorer.

Record Sums : Type := {
  count : nat;
  sumResH : number;
  sumSev : number
}.

Definition noSums : Sums := {| count := 0; sumResH := Num.zero; sumSev := Num.zero |}.

(** [(m[k] ||= {count:0, ...}); m[k].count++; m[k].sumResH += ...; m[k].sumSev += ...] *)
Definition bump (m : JS.dict Sums) (k : string) (r : Defect) : JS.dict Sums :=
  let v := default noSums (JS.get m k) in
  JS.set m k {| count := count v + 1;
                sumResH := Num.add (sumResH v) (Defect.resolutionTime r);
                sumSev := Num.add (sumSev v) (Defect.severityRating r) |}.

(** An entry of [topStations] or [topParts]; [name] is its [station] or
    [part]. *)
Record Top : Type := {
  name : string;
  top_count : nat;
  avgResH : number;
  avgSev : number
}.

Definition top5 (m : JS.dict Sums) : list Top :=
  JS.slice0 5
    (JS.Array_sort (byCountDesc top_count)
       (map (fun e : string * Sums =>
               let v := snd e in
               {| name := fst e;
                  top_count := count v;
                  avgResH := Num.toFixed2 (Num.div (sumResH v) (Num.of_nat (count v)));
                  avgSev := Num.toFixed2 (Num.div (sumSev v) (Num.of_nat (count v))) |})
            (JS.Object_entries m))).

Record ShiftStat : Type := {
  shift : string;
  shift_count : nat;
  shift_avgSev : number;
  shift_avgResH : number
}.

Definition shiftStat (byShift : JS.dict Sums) (sh : string) : ShiftStat :=
  let v := default noSums (JS.get byShift sh) in
  let avgSev :=
    if Num.truthy (Num.of_nat (count v))
    then Num.div (sumSev v) (Num.of_nat (count v)) else Num.zero in
  let avgResH :=
    if Num.truthy (Num.of_nat (count v))
    then Num.div (sumResH v) (Num.of_nat (count v)) else Num.zero in
  {| shift := sh;
     shift_count := count v;
     shift_avgSev := Num.toFixed2 avgSev;
     shift_avgResH := Num.toFixed2 avgResH |}.

Record Delta : Type := {
  pair_label : string;
  deltaCount : number;
  from : ShiftStat;
  to : ShiftStat
}.

(** The arrow of the pair label, U+2192 in UTF-8. *)
Definition arrow : string :=
  String (ascii_of_nat 226) (String (ascii_of_nat 134) (String (ascii_of_nat 146) EmptyString)).

Definition pair (a b : ShiftStat) : Delta :=
  {| pair_label := shift a ++ arrow ++ shift b;
     deltaCount := Num.sub (Num.of_nat (shift_count b)) (Num.of_nat (shift_count a));
     from := a;
     to := b |}.

Record Result : Type := {
  target : string;
  topStations : list Top;
  topParts : list Top;
  shiftStats : list ShiftStat;
  deltas : list Delta;
  samples : list Defect
}.

(** The computation for a resolved [target]; the source spells it out
    once in each branch. *)
Definition explore (data : list Defect) (target : string) : Result :=
  let rows := List.filter (fun d => String.eqb (Defect.defectName d) target) data in
  let '(byStation, byPart, byShift) :=
    fold_left (fun (acc : JS.dict Sums * JS.dict Sums * JS.dict Sums) r =>
                 let '(byStation, byPart, byShift) := acc in
                 (bump byStation (Defect.station r) r,
                  bump byPart (Defect.partOfCar r) r,
                  bump byShift (Defect.productionShift r) r))
              rows ([], [], []) in
  let s0 := shiftStat byShift "Morning" in
  let s1 := shiftStat byShift "Afternoon" in
  let s2 := shiftStat byShift "Night" in
  {| target := target;
     topStations := top5 byStation;
     topParts := top5 byPart;
     shiftStats := [s0; s1; s2];
     deltas :=
       JS.Array_sort (fun a b => Num.sub (Num.abs (deltaCount b)) (Num.abs (deltaCount a)))
         [pair s0 s1; pair s1 s2; pair s0 s2; pair s2 s0; pair s1 s0; pair s2 s1];
     samples := JS.slice0 20 rows |}.

(** The most common defect name, [None] for [null]. *)
Definition top (data : list Defect) : option string :=
  match JS.Array_sort (byCountDesc snd) (JS.Object_entries (countBy Defect.defectName data)) with
  | e :: _ => Some (fst e)
  | [] => None
  end.

(** ToBoolean of [string | null]: [null] and the empty string are falsy. *)
Definition truthy (s : option string) : bool :=
  match s with
  | Some s => negb (String.eqb s "")
  | None => false
  end.

Definition recurrenceExplorer (data : list Defect) (selectedDefect : option string)
  : option Result :=
  if negb (truthy selectedDefect) then
    let top := top data in
    if negb (truthy top) then None
    else Some (explore data (default "" top))
  else Some (explore data (default "" selectedDefect)).

End Explorer.

(** ** Quick-action recommender *)

Module QuickActions.

Record Cand : Type := {
  label : string;
  filter : string;
  count : nat;
  avgSev : number;
  avgResH : number;
  score : number
}.

Record Sums : Type := {
  sums_count : nat;
  sumSev : number;
  sumResH : number
}.

Definition noSums : Sums := {| sums_count := 0; sumSev := Num.zero; sumResH := Num.zero |}.

Definition bump (m : JS.dict Sums) (key : string) (r : Defect) : JS.dict Sums :=
  let v := default noSums (JS.get m key) in
  JS.set m key {| sums_count := sums_count v + 1;
                  sumSev := Num.add (sumSev v) (Defect.severityRating r);
                  sumResH := Num.add (sumResH v) (Defect.resolutionTime r) |}.

(** The bullet of the label, U+2022 in UTF-8. *)
Definition bullet : string :=
  String (ascii_of_nat 226) (String (ascii_of_nat 128) (String (ascii_of_nat 162) EmptyString)).

(** The body of [for (const [k, v] of Object.entries(m))]. *)
Definition cand (target : string) (kv : string * Sums) : Cand :=
  let (k, v) := kv in
  let parts := JS.String_split k "|||" in
  let station := nth 0 parts "undefined" in
  let second := nth 1 parts "undefined" in
  let avgSev := Num.div (sumSev v) (Num.of_nat (sums_count v)) in
  let avgResH := Num.div (sumResH v) (Num.of_nat (sums_count v)) in
  let score := weighted (sums_count v) avgSev avgResH in
  {| label := station ++ " " ++ bullet ++ " " ++ second;
     filter := target ++ " " ++ station ++ " " ++ second;
     count := sums_count v;
     avgSev := Num.toFixed2 avgSev;
     avgResH := Num.toFixed2 avgResH;
     score := Num.toFixed2 score |}.

Definition ssMap (rows : list Defect) : JS.dict Sums :=
  fold_left (fun m r => bump m (Defect.station r ++ "|||" ++ Defect.productionShift r) r) rows [].

Definition spMap (rows : list Defect) : JS.dict Sums :=
  fold_left (fun m r => bump m (Defect.station r ++ "|||" ++ Defect.partOfCar r) r) rows [].

(** The candidates before the final sort. *)
Definition cands (data : list Defect) (target : string) : list Cand :=
  let rows := List.filter (fun d => String.eqb (Defect.defectName d) target) data in
  map (cand target) (JS.Object_entries (ssMap rows))
  ++ map (cand target) (JS.Object_entries (spMap rows)).

Definition quickActions (data : list Defect) (recurrenceExplorer : option Explorer.Result)
  : list Cand :=
  match recurrenceExplorer with
  | None => []
  | Some e =>
      JS.slice0 3
        (JS.Array_sort (fun a b => Num.sub (score b) (score a))
           (cands data (Explorer.target e)))
  end.

End QuickActions.

(** ** Filter and sort view *)

Module FilterSort.

(** The value of a record property. *)
Inductive value : Type :=
| VNumber (n : number)
| VString (s : string)
| VBoolean (b : bool).

(** [keyof Defect], in the order the generator writes the properties. *)
Inductive Key : Type :=
| id | date | time | defectName | station | partOfCar | reporter | partNumber
| severityRating | carModel | motorType | designPackage | productionShift
| resolutionTime | rootCauseIdentified | defectCategory | flagged | note | status.

Definition keys : list Key :=
  [id; date; time; defectName; station; partOfCar; reporter; partNumber;
   severityRating; carModel; motorType; designPackage; productionShift;
   resolutionTime; rootCauseIdentified; defectCategory; flagged; note; status].

(** [d[k]] *)
Definition prop (d : Defect) (k : Key) : value :=
  match k with
  | id => VNumber (Defect.id d)
  | date => VString (Defect.date d)
  | time => VString (Defect.time d)
  | defectName => VString (Defect.defectName d)
  | station => VString (Defect.station d)
  | partOfCar => VString (Defect.partOfCar d)
  | reporter => VString (Defect.reporter d)
  | partNumber => VString (Defect.partNumber d)
  | severityRating => VNumber (Defect.severityRating d)
  | carModel => VString (Defect.carModel d)
  | motorType => VString (Defect.motorType d)
  | designPackage => VString (Defect.designPackage d)
  | productionShift => VString (Defect.productionShift d)
  | resolutionTime => VNumber (Defect.resolutionTime d)
  | rootCauseIdentified => VString (YesNo_string (Defect.rootCauseIdentified d))
  | defectCategory => VString (Category_string (Defect.defectCategory d))
  | flagged => VBoolean (Defect.flagged d)
  | note => VString (Defect.note d)
  | status => VString (Defect.status d)
  end.

(** [Object.values(d)] *)
Definition values (d : Defect) : list value := map (prop d) keys.

(** [a < b] on two values of one property. *)
Definition value_ltb (a b : value) : bool :=
  match a, b with
  | VNumber x, VNumber y => Num.ltb x y
  | VString x, VString y => JS.String_ltb x y
  | VBoolean x, VBoolean y => negb x && y
  | _, _ => false
  end.

Inductive Direction : Type := asc | desc.

Record SortConfig : Type := {
  key : option Key;
  direction : Direction
}.

(** The comparator handed to [result.sort]. *)
Definition comparator (k : Key) (dir : Direction) (a b : Defect) : number :=
  let aVal := prop a k in
  let bVal := prop b k in
  if value_ltb aVal bVal then match dir with asc => Fin (-1) | desc => Fin 1 end
  else if value_ltb bVal aVal then match dir with asc => Fin 1 | desc => Fin (-1) end
  else Fin 0.

Section WithBuiltins.
Variable Math_sqrt : number -> number.
Variable Number_toString : number -> string.

(** [val.toString()] *)
Definition toString (val : value) : string :=
  match val with
  | VNumber n => Number_toString n
  | VString s => s
  | VBoolean b => if b then "true" else "false"
  end.

(** The predicate of the first [data.filter]. *)
Definition matches (searchTerm : string) (d : Defect) : bool :=
  JS.Array_some
    (fun val => JS.String_includes (JS.toLowerCase (toString val)) (JS.toLowerCase searchTerm))
    (values d).

Definition filtered (data : list Defect) (searchTerm : string) (showOutliersOnly : bool)
           (sortConfig : SortConfig) (stdDevThreshold : number) : list Defect :=
  let result := List.filter (matches searchTerm) data in
  let result :=
    if showOutliersOnly
    then List.filter (Outlier.isOutlier Math_sqrt data stdDevThreshold) result
    else result in
  match key sortConfig with
  | Some k => JS.Array_sort (comparator k (direction sortConfig)) result
  | None => result
  end.

End WithBuiltins.

End FilterSort.

(** ** Record store: the two mutations *)

Module Store.

(** How a handler completes: both return [undefined]; a [throw] is the
    only other way a handler of type [void] can tell its caller
    anything. *)
Inductive Completion : Type :=
| Returned_undefined
| Thrown (error : string).

(** [{ ...d, flagged: !d.flagged, status: d.flagged ? '' : 'Under Review' }] *)
Definition toggled (d : Defect) : Defect :=
  {| Defect.id := Defect.id d;
     Defect.date := Defect.date d;
     Defect.time := Defect.time d;
     Defect.defectName := Defect.defectName d;
     Defect.station := Defect.station d;
     Defect.partOfCar := Defect.partOfCar d;
     Defect.reporter := Defect.reporter d;
     Defect.partNumber := Defect.partNumber d;
     Defect.severityRating := Defect.severityRating d;
     Defect.carModel := Defect.carModel d;
     Defect.motorType := Defect.motorType d;
     Defect.designPackage := Defect.designPackage d;
     Defect.productionShift := Defect.productionShift d;
     Defect.resolutionTime := Defect.resolutionTime d;
     Defect.rootCauseIdentified := Defect.rootCauseIdentified d;
     Defect.defectCategory := Defect.defectCategory d;
     Defect.flagged := negb (Defect.flagged d);
     Defect.note := Defect.note d;
     Defect.status := if Defect.flagged d then "" else "Under Review" |}.

(** [{ ...d, note }] *)
Definition withNote (d : Defect) (note : string) : Defect :=
  {| Defect.id := Defect.id d;
     Defect.date := Defect.date d;
     Defect.time := Defect.time d;
     Defect.defectName := Defect.defectName d;
     Defect.station := Defect.station d;
     Defect.partOfCar := Defect.partOfCar d;
     Defect.reporter := Defect.reporter d;
     Defect.partNumber := Defect.partNumber d;
     Defect.severityRating := Defect.severityRating d;
     Defect.carModel := Defect.carModel d;
     Defect.motorType := Defect.motorType d;
     Defect.designPackage := Defect.designPackage d;
     Defect.productionShift := Defect.productionShift d;
     Defect.resolutionTime := Defect.resolutionTime d;
     Defect.rootCauseIdentified := Defect.rootCauseIdentified d;
     Defect.defectCategory := Defect.defectCategory d;
     Defect.flagged := Defect.flagged d;
     Defect.note := note;
     Defect.status := Defect.status d |}.

(** A handler takes the current record set and yields its completion and
    the record set it hands to [setData]. *)
Definition handleFlag (id : number) (data : list Defect) : Completion * list Defect :=
  (Returned_undefined,
   map (fun d => if Num.eqb (Defect.id d) id then toggled d else d) data).

Definition handleNoteUpdate (id : number) (note : string) (data : list Defect)
  : Completion * list Defect :=
  (Returned_undefined,
   map (fun d => if Num.eqb (Defect.id d) id then withNote d note else d) data).

End Store.

(** ** Aggregation engine *)

Module Analytics.

(** A row of [defectsByModel]. *)
Record Named : Type := {
  name : string;
  value : nat
}.

(** What the reporter loop keeps per reporter. *)
Record PerReporter : Type := {
  total : nat;
  avgTime : number;
  times : list number
}.

(** A row of [reporterPerformance]: its [name], [avgTime] and [total]. *)
Record ReporterRow : Type := {
  reporter_name : string;
  reporter_avgTime : number;
  reporter_total : nat
}.

(** What the shift loop keeps per shift. *)
Record PerShift : Type := {
  count : nat;
  avgSeverity : number;
  severities : list number
}.

(** A row of [shiftAnalysis]: its [shift], [count] and [avgSeverity]. *)
Record ShiftRow : Type := {
  shift : string;
  shift_count : nat;
  shift_avgSeverity : number
}.

(** A row of [defectsByDate]: its [date] and [count]. *)
Record DateRow : Type := {
  date : string;
  date_count : nat
}.

(** A row of [stationDefects]: its [station] and [count]. *)
Record StationRow : Type := {
  station : string;
  station_count : nat
}.

Record Result : Type := {
  defectsByModel : list Named;
  top5Defects : list (string * nat);
  reporterPerformance : list ReporterRow;
  defectsByDate : list DateRow;
  shiftAnalysis : list ShiftRow;
  stationDefects : list StationRow;
  totalDefects : nat;
  criticalDefects : nat
}.

(** [values.reduce((a, b) => a + b, 0) / values.length] *)
Definition average (values : list number) : number :=
  Num.div (fold_left (fun a b => Num.add a b) values Num.zero) (Num.of_nat (length values)).

(** One iteration of the reporter loop. *)
Definition reporterStep (acc : JS.dict PerReporter) (d : Defect) : JS.dict PerReporter :=
  let a := default {| total := 0; avgTime := Num.zero; times := [] |}
                   (JS.get acc (Defect.reporter d)) in
  JS.set acc (Defect.reporter d)
         {| total := total a + 1;
            avgTime := avgTime a;
            times := times a ++ [Defect.resolutionTime d] |}.

(** The [forEach] that fills in [avgTime]. *)
Definition withAvgTime (acc : JS.dict PerReporter) : JS.dict PerReporter :=
  map (fun e : string * PerReporter =>
         (fst e, {| total := total (snd e);
                    avgTime := average (times (snd e));
                    times := times (snd e) |}))
      acc.

(** One iteration of the shift loop. *)
Definition shiftStep (acc : JS.dict PerShift) (d : Defect) : JS.dict PerShift :=
  let a := default {| count := 0; avgSeverity := Num.zero; severities := [] |}
                   (JS.get acc (Defect.productionShift d)) in
  JS.set acc (Defect.productionShift d)
         {| count := count a + 1;
            avgSeverity := avgSeverity a;
            severities := severities a ++ [Defect.severityRating d] |}.

(** The [forEach] that fills in [avgSeverity]. *)
Definition withAvgSeverity (acc : JS.dict PerShift) : JS.dict PerShift :=
  map (fun e : string * PerShift =>
         (fst e, {| count := count (snd e);
                    avgSeverity := average (severities (snd e));
                    severities := severities (snd e) |}))
      acc.

Section WithCollation.
(** [a.localeCompare(b)] *)
Variable String_localeCompare : string -> string -> number.

Definition analytics (data : list Defect) : Result :=
  let defectsByModel := countBy Defect.carModel data in
  let defectsByType := countBy Defect.defectName data in
  let top5Defects :=
    JS.slice0 5 (JS.Array_sort (byCountDesc snd) (JS.Object_entries defectsByType)) in
  let reporterPerformance := withAvgTime (fold_left reporterStep data []) in
  let defectsByDate := countBy Defect.date data in
  let shiftAnalysis := withAvgSeverity (fold_left shiftStep data []) in
  let stationDefects := countBy Defect.station data in
  {| defectsByModel :=
       map (fun e : string * nat => {| name := fst e; value := snd e |})
           (JS.Object_entries defectsByModel);
     top5Defects := top5Defects;
     reporterPerformance :=
       map (fun e : string * PerReporter =>
              {| reporter_name := fst e;
                 reporter_avgTime := Num.toFixed2 (avgTime (snd e));
                 reporter_total := total (snd e) |})
           (JS.Object_entries reporterPerformance);
     defectsByDate :=
       map (fun e : string * nat => {| date := fst e; date_count := snd e |})
           (JS.Array_sort (fun a b => String_localeCompare (fst a) (fst b))
                          (JS.Object_entries defectsByDate));
     shiftAnalysis :=
       map (fun e : string * PerShift =>
              {| shift := fst e;
                 shift_count := count (snd e);
                 shift_avgSeverity := Num.toFixed2 (avgSeverity (snd e)) |})
           (JS.Object_entries shiftAnalysis);
     stationDefects :=
       map (fun e : string * nat => {| station := fst e; station_count := snd e |})
           (JS.Object_entries stationDefects);
     totalDefects := length data;
     criticalDefects :=
       length (List.filter (fun d => Num.geb (Defect.severityRating d) (Fin 8)) data) |}.

End WithCollation.

End Analytics.

(** ** Heatmap colour scale *)

(** [Math.max(x, y)] *)
Definition Math_max (x y : number) : number :=
  match x, y with
  | NaN, _ | _, NaN => NaN
  | _, _ => if Num.ltb x y then y else x
  end.

Definition heatColor (value max : number) : string :=
  let ratio := Num.div value (Math_max max (Fin 1)) in
  if Num.eqb ratio (Fin 0) then "bg-slate-700"
  else if Num.ltb ratio (Fin 0.25) then "bg-emerald-700"
  else if Num.ltb ratio (Fin 0.5) then "bg-emerald-500"
  else if Num.ltb ratio (Fin 0.75) then "bg-amber-500"
  else "bg-red-500".

(** ** Overview cards and outlier table *)

Module View.

(** [data.filter(d => d.flagged)] *)
Definition flaggedData (data : list Defect) : list Defect :=
  List.filter Defect.flagged data.

(** The property name a key stands for. *)
Definition keyName (k : FilterSort.Key) : string :=
  match k with
  | FilterSort.id => "id"
  | FilterSort.date => "date"
  | FilterSort.time => "time"
  | FilterSort.defectName => "defectName"
  | FilterSort.station => "station"
  | FilterSort.partOfCar => "partOfCar"
  | FilterSort.reporter => "reporter"
  | FilterSort.partNumber => "partNumber"
  | FilterSort.severityRating => "severityRating"
  | FilterSort.carModel => "carModel"
  | FilterSort.motorType => "motorType"
  | FilterSort.designPackage => "designPackage"
  | FilterSort.productionShift => "productionShift"
  | FilterSort.resolutionTime => "resolutionTime"
  | FilterSort.rootCauseIdentified => "rootCauseIdentified"
  | FilterSort.defectCategory => "defectCategory"
  | FilterSort.flagged => "flagged"
  | FilterSort.note => "note"
  | FilterSort.status => "status"
  end.

(** [sortConfig.key === key] *)
Definition sameKey (k : option FilterSort.Key) (key : FilterSort.Key) : bool :=
  match k with
  | Some k' => String.eqb (keyName k') (keyName key)
  | None => false
  end.

Definition handleSort (key : FilterSort.Key) (sortConfig : FilterSort.SortConfig)
  : FilterSort.SortConfig :=
  {| FilterSort.key := Some key;
     FilterSort.direction :=
       if sameKey (FilterSort.key sortConfig) key
          && match FilterSort.direction sortConfig with
             | FilterSort.asc => true
             | FilterSort.desc => false
             end
       then FilterSort.desc else FilterSort.asc |}.

Section WithSqrt.
Variable Math_sqrt : number -> number.

(** The reasons the outlier table lists for a row. *)
Definition reasons (data : list Defect) (stdDevThreshold : number) (row : Defect)
  : list string :=
  let calculateOutliers := Outlier.calculateOutliers Math_sqrt data stdDevThreshold in
  (if Num.gtb (Defect.resolutionTime row)
              (Outlier.upperBound (Outlier.resolutionTime calculateOutliers))
   then ["High Res Time"] else [])
  ++ (if Num.ltb (Defect.resolutionTime row)
                 (Outlier.lowerBound (Outlier.resolutionTime calculateOutliers))
      then ["Low Res Time"] else [])
  ++ (if Num.geb (Defect.severityRating row) (Fin 8) then ["Critical Severity"] else [])
  ++ (if Num.gtb (Defect.severityRating row)
                 (Outlier.upperBound (Outlier.severityRating calculateOutliers))
      then ["High Severity"] else []).

(** The rows of the outlier table: [data.filter(isOutlier).slice(0, 20)]. *)
Definition outlierRows (data : list Defect) (stdDevThreshold : number) : list Defect :=
  JS.slice0 20 (List.filter (Outlier.isOutlier Math_sqrt data stdDevThreshold) data).

(** The count of the Outliers card: [data.filter(isOutlier).length]. *)
Definition outlierCount (data : list Defect) (stdDevThreshold : number) : nat :=
  length (List.filter (Outlier.isOutlier Math_sqrt data stdDevThreshold) data).

End WithSqrt.

End View.

(** ** Synthetic data generator *)

Module Generator.

Definition models : list string := ["Base"; "iX0M"; "Long"; "Alpina"; "Pick-Up"].
Definition motorTypes : list string := ["Long Range"; "High Performance"].
Definition designPackages : list string := ["Offroad"; "Race"; "Luxury"].
Definition shifts : list string := ["Morning"; "Afternoon"; "Night"].
Definition stations : list string :=
  ["Body Shop"; "Paint Shop"; "Assembly"; "Quality Gate"; "Final Inspection"].
Definition parts : list string :=
  ["Battery Pack"; "Door Panel"; "Windshield"; "Suspension"; "Electric Motor";
   "Dashboard"; "Seat Assembly"; "Brake System"].
Definition defectNames : list string :=
  ["Misalignment"; "Paint Defect"; "Electrical Issue"; "Loose Component";
   "Calibration Error"; "Surface Scratch"; "Seal Defect"; "Software Glitch"].
Definition reporters : list string :=
  ["John Smith"; "Maria Garcia"; "Ahmed Hassan"; "Lisa Chen"; "Hans Mueller"; "Sofia Kovacs"].

(** [String(n)] for an integer [n] *)
Definition String_of_int (n : Z) : string := NilZero.string_of_int (Z.to_int n).

(** [s.padStart(2, '0')] *)
Definition padStart2 (s : string) : string :=
  match String.length s with
  | 0 => "00"
  | 1 => "0" ++ s
  | _ => s
  end.

(** [Math.floor(r * n)] for a draw [r] *)
Definition scaled (r : Q) (n : Z) : Z := Qfloor (r * inject_Z n)%Q.

(** [arr[Math.floor(r * arr.length)]]; the index is in range for every draw
    of [Math.random], which is at least 0 and below 1. *)
Definition pick (arr : list string) (r : Q) : string :=
  nth (Z.to_nat (scaled r (Z.of_nat (length arr)))) arr "".

Section WithRandom.
(** [Math.random()]: the value of the n-th call. *)
Variable Math_random : nat -> Q.
(** [new Date(2025, 0, day).toISOString().split('T')[0]] *)
Variable isoDate : Z -> string.

(** The record pushed by iteration [i]; each iteration draws fifteen
    numbers, in the order the source evaluates them. *)
Definition generated (i : nat) : Defect :=
  let r (j : nat) : Q := Math_random (15 * i + j) in
  let date := isoDate (1 + scaled (r 0%nat) 90)%Z in
  let severity := (scaled (r 1%nat) 10 + 1)%Z in
  let resolutionTime :=
    Math_max (Fin 0.5) (Fin (r 2%nat * 12 + (if (7 <? severity)%Z then 5 else 0))%Q) in
  {| Defect.id := Fin (inject_Z (Z.of_nat i + 1)%Z);
     Defect.date := date;
     Defect.time :=
       padStart2 (String_of_int (scaled (r 3) 24)) ++ ":"
       ++ padStart2 (String_of_int (scaled (r 4) 60));
     Defect.defectName := pick defectNames (r 5);
     Defect.station := pick stations (r 6);
     Defect.partOfCar := pick parts (r 7);
     Defect.reporter := pick reporters (r 8);
     Defect.partNumber := "BMW-" ++ String_of_int (1000 + scaled (r 9%nat) 9000)%Z;
     Defect.severityRating := Fin (inject_Z severity);
     Defect.carModel := pick models (r 10);
     Defect.motorType := pick motorTypes (r 11);
     Defect.designPackage := pick designPackages (r 12);
     Defect.productionShift := pick shifts (r 13);
     Defect.resolutionTime := Num.toFixed2 resolutionTime;
     Defect.rootCauseIdentified := if Num.gtb (Fin (r 14)) (Fin 0.3) then Yes else No;
     Defect.defectCategory :=
       if (7 <? severity)%Z then Critical
       else if (4 <? severity)%Z then Functional else Cosmetic;
     Defect.flagged := false;
     Defect.note := "";
     Defect.status := "" |}.

Definition generateSyntheticData : list Defect := map generated (seq 0 500).

End WithRandom.

End Generator.

(** ** The properties as the specification words them *)

Module Spec.

(** [id] is the identifier of no record of [data], under [===]. *)
Definition absent (id : number) (data : list Defect) : Prop :=
  Forall (fun d => Num.eqb (Defect.id d) id = false) data.

(** A completion that tells the caller the id was not found. *)
Definition signalsNotFound (c : Store.Completion) : bool :=
  match c with
  | Store.Thrown _ => true
  | Store.Returned_undefined => false
  end.

(** Two records that differ at most in their note. *)
Definition sameButNote (a b : Defect) : Prop :=
  Defect.id a = Defect.id b /\ Defect.date a = Defect.date b
  /\ Defect.time a = Defect.time b /\ Defect.defectName a = Defect.defectName b
  /\ Defect.station a = Defect.station b /\ Defect.partOfCar a = Defect.partOfCar b
  /\ Defect.reporter a = Defect.reporter b /\ Defect.partNumber a = Defect.partNumber b
  /\ Defect.severityRating a = Defect.severityRating b
  /\ Defect.carModel a = Defect.carModel b /\ Defect.motorType a = Defect.motorType b
  /\ Defect.designPackage a = Defect.designPackage b
  /\ Defect.productionShift a = Defect.productionShift b
  /\ Defect.resolutionTime a = Defect.resolutionTime b
  /\ Defect.rootCauseIdentified a = Defect.rootCauseIdentified b
  /\ Defect.defectCategory a = Defect.defectCategory b
  /\ Defect.flagged a = Defect.flagged b /\ Defect.status a = Defect.status b.

(** The impact score of section 4.5 as the specification computes it: from
    the full-precision means, rounded once at the end. *)
Definition impactScore (count : nat) (sumSeverity sumResolutionTime : number) : number :=
  Num.toFixed2
    (weighted count
       (Num.div sumSeverity (Num.of_nat count))
       (Num.div sumResolutionTime (Num.of_nat count))).

(** [t] occurs in [s]. *)
Definition substring (t s : string) : Prop :=
  exists pre post : string, s = (pre ++ t ++ post)%string.

(** Two characters that are the same letter: the same character, or one
    of the letters A to Z (codes 65 to 90) and its lower-case form, 32
    further on. *)
Definition sameLetter (a b : ascii) : Prop :=
  a = b
  \/ (65 <= nat_of_ascii a <= 90 /\ nat_of_ascii b = nat_of_ascii a + 32)
  \/ (65 <= nat_of_ascii b <= 90 /\ nat_of_ascii a = nat_of_ascii b + 32).

(** Two strings that differ at most in the case of their letters. *)
Fixpoint sameIgnoringCase (s t : string) : Prop :=
  match s, t with
  | EmptyString, EmptyString => True
  | String a s', String b t' => sameLetter a b /\ sameIgnoringCase s' t'
  | _, _ => False
  end.

(** [t] occurs in [s] when case is ignored: some part of [s] differs from
    [t] at most in the case of its letters. *)
Definition substringNoCase (t s : string) : Prop :=
  exists pre mid post : string,
    s = (pre ++ mid ++ post)%string /\ sameIgnoringCase mid t.

End Spec.

(** ** Sample data *)

Module Sample.

Definition record (i : Z) (name st part rep shift : string) (sev : Z) (res : Q) : Defect :=
  {| Defect.id := Fin (inject_Z i);
     Defect.date := "2025-01-01";
     Defect.time := "08:00";
     Defect.defectName := name;
     Defect.station := st;
     Defect.partOfCar := part;
     Defect.reporter := rep;
     Defect.partNumber := "BMW-1000";
     Defect.severityRating := Fin (inject_Z sev);
     Defect.carModel := "Base";
     Defect.motorType := "Long Range";
     Defect.designPackage := "Race";
     Defect.productionShift := shift;
     Defect.resolutionTime := Fin res;
     Defect.rootCauseIdentified := Yes;
     Defect.defectCategory := if (7 <? sev)%Z then Critical
                              else if (4 <? sev)%Z then Functional else Cosmetic;
     Defect.flagged := false;
     Defect.note := "";
     Defect.status := "" |}.

(** Seven records of one defect at one station, part and shift:
    severities 1,1,1,1,1,2,2 and 0.52 hours each. *)
Definition seven : list Defect :=
  map (fun p : Z * Z =>
         record (fst p) "Seal Defect" "Assembly" "Door Panel" "Lisa Chen" "Night" (snd p) 0.52)
      [(1, 1); (2, 1); (3, 1); (4, 1); (5, 1); (6, 2); (7, 2)]%Z.

(** The three records of the scenario of section 8, and a fourth. *)
Definition first : Defect :=
  record 1 "Misalignment" "Body Shop" "Door Panel" "John Smith" "Morning" 9 1.

Definition second : Defect :=
  record 2 "Paint Defect" "Paint Shop" "Door Panel" "Maria Garcia" "Night" 2 2.

Definition third : Defect :=
  record 3 "Paint Defect" "Body Shop" "Windshield" "John Smith" "Night" 9 20.

Definition fourth : Defect :=
  record 4 "Seal Defect" "Body Shop" "Windshield" "Lisa Chen" "Afternoon" 5 3.5.

Definition four : list Defect := [first; second; third; fourth].

(** A record whose defect name is the empty string. *)
Definition unnamed : list Defect :=
  [record 1 "" "Body Shop" "Door Panel" "John Smith" "Morning" 3 1].

(** Record sets with a property name of [Object.prototype] in them: as
    the only defect name, as the defect name of two records of three, and
    as the shift of the only record. *)
Definition inheritedName : list Defect :=
  [record 1 "__proto__" "Body Shop" "Door Panel" "John Smith" "Morning" 3 1].

Definition inheritedNames : list Defect :=
  [record 1 "__proto__" "Body Shop" "Door Panel" "John Smith" "Morning" 3 1;
   record 2 "__proto__" "Paint Shop" "Windshield" "Lisa Chen" "Night" 4 2;
   record 3 "Misalignment" "Body Shop" "Dashboard" "John Smith" "Night" 5 3].

Definition inheritedShift : list Defect :=
  [record 1 "Misalignment" "Body Shop" "Door Panel" "John Smith" "__proto__" 3 1].

(** A square root for the examples: exact to six decimals, rounded
    down. *)
Definition sqrt6 (x : number) : number :=
  match x with
  | Fin q =>
      if Qle_bool 0 q
      then Fin (inject_Z (Z.sqrt (Qfloor (q * 1000000000000))) / 1000000)
      else NaN
  | PosInf => PosInf
  | _ => NaN
  end.

Definition digits (z : Z) : string := NilZero.string_of_int (Z.to_int z).

(** A printer for the examples: right on numbers of at most two
    decimals. *)
Definition print (x : number) : string :=
  match x with
  | NaN => "NaN"
  | PosInf => "Infinity"
  | NegInf => "-Infinity"
  | Fin q =>
      let h := Num.hundredths (Qabs q) in
      let fp := (h mod 100)%Z in
      (if Qle_bool 0 q then "" else "-")
      ++ digits (h / 100)
      ++ (if (fp =? 0)%Z then ""
          else "." ++ (if (fp mod 10 =? 0)%Z then digits (fp / 10)
                       else (if (fp <? 10)%Z then "0" else "") ++ digits fp))
  end.

(** Draws for the examples: the n-th is the fraction [(7 n mod 100) / 100]. *)
Definition draws (n : nat) : Q := (inject_Z (Z.of_nat ((7 * n) mod 100)) / 100)%Q.

(** Dates for the examples: the day of the year, as a numeral. *)
Definition dayOfYear (day : Z) : string := digits day.

End Sample.

(** ** Auxiliary notions of the proofs *)

(** One iteration of a counting loop. *)
Definition countStep (key : Defect -> string) (acc : JS.dict nat) (d : Defect) : JS.dict nat :=
  JS.set acc (key d) (default 0 (JS.get acc (key d)) + 1).

(** The records that a counter keeps: those whose key is not [__proto__]. *)
Definition counted (key : Defect -> string) (data : list Defect) : list Defect :=
  List.filter (fun d => negb (String.eqb (key d) "__proto__")) data.

(** No record of [data] has a property name of [Object.prototype] as its
    [key]: a plain object used as a dictionary by [key] then behaves as a
    dictionary. *)
Definition plainKeys (key : Defect -> string) (data : list Defect) : Prop :=
  forallb (fun d => negb (JS.inherited (key d))) data = true.

(** The number in a cell of the cube. *)
Definition cellCount (cube : gmap string (gmap string (gmap string nat)))
           (defect st sh : string) : nat :=
  default 0 (default ∅ (default ∅ (cube !! defect) !! st) !! sh).

(** The sum of the counts of heatmap rows, when they all hold a number. *)
Fixpoint cellSum (rows : list Heatmap.Row) : option nat :=
  match rows with
  | [] => Some 0
  | r :: rows' =>
      match Heatmap.count r, cellSum rows' with
      | Heatmap.Counted n, Some m => Some (n + m)
      | _, _ => None
      end
  end.

(** The entries of a counter, most frequent first: the array behind the
    Pareto rows, the top defects and the explorer's default. *)
Definition ranked (counts : JS.dict nat) : list (string * nat) :=
  JS.Array_sort (byCountDesc snd) (JS.Object_entries counts).

(** The number of elements that satisfy a test. *)
Definition countIf {A : Type} (p : A -> bool) (l : list A) : nat :=
  length (List.filter p l).

(** The status of a record follows its flag: "Under Review" when flagged,
    empty otherwise. *)
Definition statusFollowsFlag (d : Defect) : Prop :=
  Defect.status d = if Defect.flagged d then "Under Review" else "".

(** Two records that agree on every field the analytics read: all but
    [flagged], [note] and [status]. *)
Definition sameMeasures (a b : Defect) : Prop :=
  Defect.id a = Defect.id b /\ Defect.date a = Defect.date b
  /\ Defect.time a = Defect.time b /\ Defect.defectName a = Defect.defectName b
  /\ Defect.station a = Defect.station b /\ Defect.partOfCar a = Defect.partOfCar b
  /\ Defect.reporter a = Defect.reporter b /\ Defect.partNumber a = Defect.partNumber b
  /\ Defect.severityRating a = Defect.severityRating b
  /\ Defect.carModel a = Defect.carModel b /\ Defect.motorType a = Defect.motorType b
  /\ Defect.designPackage a = Defect.designPackage b
  /\ Defect.productionShift a = Defect.productionShift b
  /\ Defect.resolutionTime a = Defect.resolutionTime b
  /\ Defect.rootCauseIdentified a = Defect.rootCauseIdentified b
  /\ Defect.defectCategory a = Defect.defectCategory b.

(** The records of [data] whose key is [k], in order. *)
Definition matching (key : Defect -> string) (k : string) (data : list Defect) : list Defect :=
  List.filter (fun d => String.eqb (key d) k) data.

(** One iteration of a grouping loop: the group of the record's key, created
    from [init] when the key is new, is updated by [upd]. *)
Definition groupStep {V : Type} (key : Defect -> string) (init : Defect -> V)
           (upd : V -> Defect -> V) (acc : JS.dict V) (d : Defect) : JS.dict V :=
  JS.set acc (key d) (upd (default (init d) (JS.get acc (key d))) d).

(** What a list of [(key, count)] pairs must be to count [data] by [key]:
    one pair per key that occurs, with the number of its records, adding up
    to the number of records. *)
Definition countsBy (key : Defect -> string) (data : list Defect) (pairs : list (string * nat))
  : Prop :=
  List.NoDup (map fst pairs)
  /\ (forall (k : string) (n : nat),
         In (k, n) pairs <-> n = countIf (fun d => String.eqb (key d) k) data /\ 1 <= n)
  /\ list_sum (map snd pairs) = length data.

(** The group a triad starts from, and its update by one more record. *)
Definition triadInit (d : Defect) : Triads.Group :=
  {| Triads.defectName := Defect.defectName d;
     Triads.station := Defect.station d;
     Triads.partOfCar := Defect.partOfCar d;
     Triads.count := 0;
     Triads.sumSeverity := Num.zero;
     Triads.sumResH := Num.zero;
     Triads.rootCauseNo := 0 |}.

Definition triadUpd (g : Triads.Group) (d : Defect) : Triads.Group :=
  {| Triads.defectName := Triads.defectName g;
     Triads.station := Triads.station g;
     Triads.partOfCar := Triads.partOfCar g;
     Triads.count := Triads.count g + 1;
     Triads.sumSeverity := Num.add (Triads.sumSeverity g) (Defect.severityRating d);
     Triads.sumResH := Num.add (Triads.sumResH g) (Defect.resolutionTime d);
     Triads.rootCauseNo :=
       Triads.rootCauseNo g + match Defect.rootCauseIdentified d with No => 1 | Yes => 0 end |}.

(** [values.reduce((a, b) => a + b, 0)] *)
Definition total (values : list number) : number :=
  fold_left (fun a b => Num.add a b) values Num.zero.

(** The update of an explorer group by one more record. *)
Definition explorerUpd (v : Explorer.Sums) (r : Defect) : Explorer.Sums :=
  {| Explorer.count := Explorer.count v + 1;
     Explorer.sumResH := Num.add (Explorer.sumResH v) (Defect.resolutionTime r);
     Explorer.sumSev := Num.add (Explorer.sumSev v) (Defect.severityRating r) |}.

(** The groups the explorer builds from the target's records by [key]. *)
Definition explorerGroups (key : Defect -> string) (rows : list Defect) : JS.dict Explorer.Sums :=
  fold_left (groupStep key (fun _ => Explorer.noSums) explorerUpd) rows [].

(** The update of a quick-action group by one more record. *)
Definition quickUpd (v : QuickActions.Sums) (r : Defect) : QuickActions.Sums :=
  {| QuickActions.sums_count := QuickActions.sums_count v + 1;
     QuickActions.sumSev := Num.add (QuickActions.sumSev v) (Defect.severityRating r);
     QuickActions.sumResH := Num.add (QuickActions.sumResH v) (Defect.resolutionTime r) |}.

(** The keys of the two groupings of the quick actions. *)
Definition stationShiftKey (r : Defect) : string :=
  Defect.station r ++ "|||" ++ Defect.productionShift r.

Definition stationPartKey (r : Defect) : string :=
  Defect.station r ++ "|||" ++ Defect.partOfCar r.

(** A string of ASCII characters, on which the 8-bit characters of the
    model are the code units of the language, character by character. *)
Fixpoint asciiText (s : string) : bool :=
  match s with
  | EmptyString => true
  | String c s' => (nat_of_ascii c <? 128)%nat && asciiText s'
  end.

(** Every field of every record of [data] has a string form in ASCII. *)
Definition asciiView (Number_toString : number -> string) (data : list Defect) : Prop :=
  forallb (fun d => forallb (fun v => asciiText (FilterSort.toString Number_toString v))
                            (FilterSort.values d))
          data = true.

(** The value of property [k] of [d] can be compared with [<] as the model
    does it: it is not the number [NaN], and if a string, one of ASCII
    characters. *)
Definition comparable (k : FilterSort.Key) (d : Defect) : Prop :=
  match FilterSort.prop d k with
  | FilterSort.VNumber n => n <> NaN
  | FilterSort.VString s => asciiText s = true
  | FilterSort.VBoolean _ => True
  end.

(** The order the sorted view is to respect: going down the view, the
    value of the key never decreases ([asc]) or never increases ([desc]). *)
Definition inOrder (k : FilterSort.Key) (dir : FilterSort.Direction) (a b : Defect) : Prop :=
  match dir with
  | FilterSort.asc => FilterSort.value_ltb (FilterSort.prop b k) (FilterSort.prop a k)
  | FilterSort.desc => FilterSort.value_ltb (FilterSort.prop a k) (FilterSort.prop b k)
  end = false.

(** The three shifts the explorer reports on. *)
Definition explorerShifts : list string := ["Morning"; "Afternoon"; "Night"].

(** * Properties *)

(** ** The code on the sample data *)

(** The scenario of section 8: of the three records, the two of severity 9
    are outliers at threshold 2. *)
Example scenario_outliers :
  map (Outlier.isOutlier Sample.sqrt6 (firstn 3 Sample.four) (Fin 2)) (firstn 3 Sample.four)
  = [true; false; true].
Proof. reflexivity. Qed.

(** The worked score of section 8: count 10, average severity 6, average
    resolution time 4. *)
Example scenario_score : Num.eqb (Num.toFixed2 (weighted 10 (Fin 6) (Fin 4))) (Fin 9.2) = true.
Proof. reflexivity. Qed.

(** Searching for "john" selects the two records John Smith reported. *)
Example search_by_reporter :
  map Defect.id
      (FilterSort.filtered Sample.sqrt6 Sample.print Sample.four "john" false
         {| FilterSort.key := None; FilterSort.direction := FilterSort.asc |} (Fin 2))
  = [Fin 1; Fin 3].
Proof. reflexivity. Qed.

(** Entries come out of a dictionary with the array-index keys first. *)
Example entries_order :
  JS.Object_entries (JS.set (JS.set (JS.set [] "b" 1) "10" 2) "2" 3)
  = [("2", 3); ("10", 2); ("b", 1)].
Proof. reflexivity. Qed.

(** ** Record store *)

Lemma map_unchanged {A : Type} (f : A -> A) (l : list A) :
  Forall (fun x => f x = x) l -> map f l = l.
Proof.
  induction 1 as [| x l Hx _ IH]; simpl; [reflexivity | now rewrite Hx, IH].
Qed.

Lemma sample_id_absent : Spec.absent (Fin 9) Sample.four.
Proof. repeat constructor. Qed.

(** C4, as amended: for an identifier that no record bears, [handleFlag] and
    [handleNoteUpdate] hand the record set back unchanged and return
    [undefined]; nothing is thrown. *)
Theorem unknown_id_is_a_silent_noop (data : list Defect) (id : number) (note : string) :
  Spec.absent id data ->
  Store.handleFlag id data = (Store.Returned_undefined, data)
  /\ Store.handleNoteUpdate id note data = (Store.Returned_undefined, data).
Proof.
  intros Habs. unfold Store.handleFlag, Store.handleNoteUpdate.
  split; f_equal; apply map_unchanged;
    (eapply Forall_impl; [exact Habs |]); intros d Hd; simpl in Hd; now rewrite Hd.
Qed.

Lemma unknown_id_is_a_silent_noop_witness :
  Store.handleFlag (Fin 9) Sample.four = (Store.Returned_undefined, Sample.four)
  /\ Store.handleNoteUpdate (Fin 9) "checked" Sample.four
     = (Store.Returned_undefined, Sample.four).
Proof.
  apply (unknown_id_is_a_silent_noop Sample.four (Fin 9) "checked").
  repeat constructor.
Defined.

(** C4 as stated fails: with an unknown identifier the record set is
    unchanged, but the handler's completion carries no not-found signal. *)
Lemma unknown_id_is_not_reported :
  ~ (Spec.absent (Fin 9) Sample.four ->
     snd (Store.handleFlag (Fin 9) Sample.four) = Sample.four
     /\ Spec.signalsNotFound (fst (Store.handleFlag (Fin 9) Sample.four)) = true
     /\ snd (Store.handleNoteUpdate (Fin 9) "checked" Sample.four) = Sample.four
     /\ Spec.signalsNotFound (fst (Store.handleNoteUpdate (Fin 9) "checked" Sample.four)) = true).
Proof.
  intros H. destruct (H sample_id_absent) as (_ & Hsig & _). discriminate Hsig.
Qed.

(** C8: at every position holding a record with the given identifier,
    [handleFlag] turns an unflagged record into a flagged one with status
    "Under Review" and a flagged record into an unflagged one with the empty
    status; [handleNoteUpdate] keeps the number of records and changes, in
    every record, nothing but the note. *)
Theorem flag_and_note_mutations (data : list Defect) (id : number) (note : string) :
  (forall (i : nat) (d : Defect),
      nth_error data i = Some d -> Num.eqb (Defect.id d) id = true ->
      exists d', nth_error (snd (Store.handleFlag id data)) i = Some d'
                 /\ (Defect.flagged d = false ->
                     Defect.flagged d' = true /\ Defect.status d' = "Under Review")
                 /\ (Defect.flagged d = true ->
                     Defect.flagged d' = false /\ Defect.status d' = ""))
  /\ (forall (i : nat) (d : Defect),
         nth_error data i = Some d ->
         exists d', nth_error (snd (Store.handleNoteUpdate id note data)) i = Some d'
                    /\ Spec.sameButNote d d'
                    /\ (Num.eqb (Defect.id d) id = true -> Defect.note d' = note)
                    /\ (Num.eqb (Defect.id d) id = false -> Defect.note d' = Defect.note d))
  /\ length (snd (Store.handleNoteUpdate id note data)) = length data.
Proof.
  split; [| split].
  - intros i d Hi Hid. simpl. rewrite nth_error_map, Hi. simpl. rewrite Hid.
    exists (Store.toggled d). split; [reflexivity |].
    split; intros Hf; simpl; rewrite Hf; split; reflexivity.
  - intros i d Hi. simpl. rewrite nth_error_map, Hi. simpl.
    destruct (Num.eqb (Defect.id d) id) eqn:Hid.
    + exists (Store.withNote d note). split; [reflexivity |].
      split; [unfold Spec.sameButNote; simpl; tauto |].
      split; [reflexivity | discriminate].
    + exists d. split; [reflexivity |].
      split; [unfold Spec.sameButNote; tauto |].
      split; [discriminate | reflexivity].
  - simpl. apply length_map.
Qed.

(** ** Empty record set *)

(** C1, evaluated on the code: on the empty record set the Pareto tables,
    the heatmap rows, the triads and the quick actions are empty and the
    explorer has no result, but [calculateOutliers] divides zero by zero: for
    both metrics the mean and both bounds are [NaN], and the deviation is
    [Math.sqrt(NaN)]. *)
Theorem empty_set_bounds_are_NaN (Math_sqrt : number -> number) (k : number) :
  let calc := Outlier.calculateOutliers Math_sqrt [] k in
  Pareto.pareto [] = {| Pareto.defectsPareto := []; Pareto.partsPareto := [] |}
  /\ Heatmap.rows (Heatmap.heatmap []) = []
  /\ Triads.triads [] = {| Triads.byCount := []; Triads.byScore := [] |}
  /\ Explorer.recurrenceExplorer [] None = None
  /\ QuickActions.quickActions [] (Explorer.recurrenceExplorer [] None) = []
  /\ Outlier.mean (Outlier.resolutionTime calc) = NaN
  /\ Outlier.stdDev (Outlier.resolutionTime calc) = Math_sqrt NaN
  /\ Outlier.lowerBound (Outlier.resolutionTime calc) = NaN
  /\ Outlier.upperBound (Outlier.resolutionTime calc) = NaN
  /\ Outlier.mean (Outlier.severityRating calc) = NaN
  /\ Outlier.stdDev (Outlier.severityRating calc) = Math_sqrt NaN
  /\ Outlier.lowerBound (Outlier.severityRating calc) = NaN
  /\ Outlier.upperBound (Outlier.severityRating calc) = NaN.
Proof.
  simpl. repeat split; reflexivity.
Qed.

(** ** Impact score *)

(** C2, evaluated on the code: the seven sample records form one triad; the
    code rounds its average severity to 1.29 before scoring and reports
    4.67, where the score of the full-precision means is 4.66. *)
Theorem triad_score_rounds_the_averages_first :
  exists r : Triads.Row,
    Triads.byScore (Triads.triads Sample.seven) = [r]
    /\ Triads.count (Triads.group r) = 7
    /\ Num.eqb (Triads.avgSeverity r) (Fin 1.29) = true
    /\ Num.eqb (Triads.score r) (Fin 4.67) = true
    /\ Num.eqb (Spec.impactScore (Triads.count (Triads.group r))
                  (Triads.sumSeverity (Triads.group r))
                  (Triads.sumResH (Triads.group r)))
               (Fin 4.66) = true.
Proof.
  eexists. split; [vm_compute; reflexivity |]. vm_compute. repeat split.
Qed.

(** C3, evaluated on the code: for the seven sample records the station x
    shift candidate and the triad are built from the same group (count 7,
    severities summing to 9, 3.64 hours), yet the candidate scores 4.66 and
    the triad 4.67. *)
Theorem quick_action_score_differs_from_triad_score :
  exists (c1 c2 : QuickActions.Cand) (r : Triads.Row) (v : QuickActions.Sums),
    QuickActions.quickActions Sample.seven (Explorer.recurrenceExplorer Sample.seven None)
    = [c1; c2]
    /\ Triads.byScore (Triads.triads Sample.seven) = [r]
    /\ JS.Object_values (QuickActions.ssMap Sample.seven) = [v]
    /\ QuickActions.sums_count v = Triads.count (Triads.group r)
    /\ Num.eqb (QuickActions.sumSev v) (Triads.sumSeverity (Triads.group r)) = true
    /\ Num.eqb (QuickActions.sumResH v) (Triads.sumResH (Triads.group r)) = true
    /\ Num.eqb (QuickActions.score c1) (Fin 4.66) = true
    /\ Num.eqb (Triads.score r) (Fin 4.67) = true
    /\ Num.eqb (QuickActions.score c1) (Triads.score r) = false.
Proof.
  do 4 eexists. split; [vm_compute; reflexivity |].
  split; [vm_compute; reflexivity |].
  split; [vm_compute; reflexivity |].
  vm_compute. repeat split.
Qed.

(** ** Facts about the built-in operations *)

Section SortFacts.
Context {A : Type}.
Implicit Types (cmp : A -> A -> number) (l : list A).

Lemma sort_insert_perm cmp x l : Permutation (JS.sort_insert cmp x l) (x :: l).
Proof.
  induction l as [| y l IH]; simpl; [reflexivity |].
  destruct (Num.gtb (cmp x y) Num.zero); [| reflexivity].
  rewrite IH. apply perm_swap.
Qed.

Lemma Array_sort_perm cmp l : Permutation (JS.Array_sort cmp l) l.
Proof.
  unfold JS.Array_sort. induction l as [| x l IH]; simpl; [reflexivity |].
  rewrite sort_insert_perm. now apply perm_skip.
Qed.

Lemma Array_sort_length cmp l : length (JS.Array_sort cmp l) = length l.
Proof. apply Permutation_length, Array_sort_perm. Qed.

Lemma Array_sort_In cmp l x : In x (JS.Array_sort cmp l) <-> In x l.
Proof.
  split; apply Permutation_in; [| symmetry]; apply Array_sort_perm.
Qed.

Lemma Array_sort_nonempty cmp l : l <> [] -> JS.Array_sort cmp l <> [].
Proof.
  intros Hl Hs. apply Hl, length_zero_iff_nil.
  now rewrite <- (Array_sort_length cmp), Hs.
Qed.

End SortFacts.

Lemma sort_insert_map {A B : Type} (f : A -> B) (cmpA : A -> A -> number)
      (cmpB : B -> B -> number) (x : A) (l : list A) :
  (forall a b, cmpB (f a) (f b) = cmpA a b) ->
  JS.sort_insert cmpB (f x) (map f l) = map f (JS.sort_insert cmpA x l).
Proof.
  intros Hc. induction l as [| y l IH]; simpl; [reflexivity |].
  rewrite Hc. destruct (Num.gtb (cmpA x y) Num.zero); simpl; [now rewrite IH | reflexivity].
Qed.

Lemma Array_sort_map {A B : Type} (f : A -> B) (cmpA : A -> A -> number)
      (cmpB : B -> B -> number) (l : list A) :
  (forall a b, cmpB (f a) (f b) = cmpA a b) ->
  JS.Array_sort cmpB (map f l) = map f (JS.Array_sort cmpA l).
Proof.
  intros Hc. unfold JS.Array_sort. induction l as [| x l IH]; simpl; [reflexivity |].
  rewrite IH. now apply sort_insert_map.
Qed.

Section DictFacts.
Context {V : Type}.
Implicit Types (o : JS.dict V) (k : string) (v : V).

Lemma get_set_eq o k v : JS.get (JS.set o k v) k = Some v.
Proof.
  induction o as [| [k' v'] o IH]; simpl.
  - now rewrite String.eqb_refl.
  - destruct (String.eqb k k') eqn:E; simpl; rewrite E; [reflexivity | exact IH].
Qed.

Lemma get_set_ne o k k' v : k <> k' -> JS.get (JS.set o k v) k' = JS.get o k'.
Proof.
  intros Hne. induction o as [| [k0 v0] o IH]; simpl.
  - destruct (String.eqb k' k) eqn:E; [| reflexivity].
    apply String.eqb_eq in E. congruence.
  - destruct (String.eqb k k0) eqn:E; simpl.
    + apply String.eqb_eq in E. subst k0.
      destruct (String.eqb k' k) eqn:E'; [| reflexivity].
      apply String.eqb_eq in E'. congruence.
    + now rewrite IH.
Qed.

Lemma get_None_keys o k : JS.get o k = None <-> ~ In k (map fst o).
Proof.
  induction o as [| [k' v'] o IH]; simpl; [tauto |].
  destruct (String.eqb k k') eqn:E.
  - apply String.eqb_eq in E. subst. split; [discriminate | tauto].
  - apply String.eqb_neq in E. rewrite IH. split; [| tauto].
    intros Hn [Hk | Hk]; [congruence | tauto].
Qed.

Lemma keys_set o k v :
  map fst (JS.set o k v)
  = match JS.get o k with Some _ => map fst o | None => map fst o ++ [k] end.
Proof.
  induction o as [| [k' v'] o IH]; simpl; [reflexivity |].
  destruct (String.eqb k k') eqn:E; simpl; [reflexivity |].
  rewrite IH. now destruct (JS.get o k).
Qed.

Lemma keys_set_NoDup o k v : List.NoDup (map fst o) -> List.NoDup (map fst (JS.set o k v)).
Proof.
  intros Hnd. rewrite keys_set. destruct (JS.get o k) eqn:E; [exact Hnd |].
  apply get_None_keys in E.
  apply (Permutation_NoDup (l := k :: map fst o)).
  - apply Permutation_cons_append.
  - now constructor.
Qed.

Lemma keys_set_In o k v k' : In k' (map fst (JS.set o k v)) <-> k' = k \/ In k' (map fst o).
Proof.
  rewrite keys_set. destruct (JS.get o k) eqn:E.
  - split; [tauto |]. intros [-> | H]; [| exact H].
    destruct (in_dec string_dec k (map fst o)) as [Hin | Hin]; [exact Hin |].
    apply get_None_keys in Hin. congruence.
  - rewrite in_app_iff. simpl. intuition congruence.
Qed.

Lemma set_nonempty o k v : JS.set o k v <> [].
Proof.
  destruct o as [| [k' v'] o]; simpl; [discriminate |].
  destruct (String.eqb k k'); discriminate.
Qed.

Lemma index_insert_perm (e : N * (string * V)) (l : list (N * (string * V))) :
  Permutation (JS.index_insert e l) (e :: l).
Proof.
  induction l as [| e' l IH]; simpl; [reflexivity |].
  destruct (fst e' <? fst e)%N; [| reflexivity].
  rewrite IH. apply perm_swap.
Qed.

Lemma indexed_named_perm o : Permutation (map snd (JS.indexed o) ++ JS.named o) o.
Proof.
  induction o as [| [k v] o IH]; simpl; [reflexivity |].
  destruct (JS.array_index k); simpl.
  - now apply perm_skip.
  - rewrite <- Permutation_middle. now apply perm_skip.
Qed.

Lemma Object_entries_perm o : Permutation (JS.Object_entries o) o.
Proof.
  unfold JS.Object_entries.
  apply (Permutation_trans (l' := map snd (JS.indexed o) ++ JS.named o));
    [| apply indexed_named_perm].
  apply Permutation_app_tail, Permutation_map.
  induction (JS.indexed o) as [| e l IH]; simpl; [reflexivity |].
  rewrite index_insert_perm. now apply perm_skip.
Qed.

Lemma Object_entries_length o : length (JS.Object_entries o) = length o.
Proof. apply Permutation_length, Object_entries_perm. Qed.

Lemma Object_entries_nonempty o : o <> [] -> JS.Object_entries o <> [].
Proof.
  intros Ho He. apply Ho, length_zero_iff_nil.
  now rewrite <- Object_entries_length, He.
Qed.

End DictFacts.

Lemma filter_all {A : Type} (p : A -> bool) (l : list A) :
  (forall x, In x l -> p x = true) -> List.filter p l = l.
Proof.
  induction l as [| x l IH]; intros H; simpl; [reflexivity |].
  rewrite (H x) by now left. f_equal. apply IH. intros y Hy. apply H. now right.
Qed.

Lemma filter_none {A : Type} (p : A -> bool) (l : list A) :
  (forall x, In x l -> p x = false) -> List.filter p l = [].
Proof.
  induction l as [| x l IH]; intros H; simpl; [reflexivity |].
  rewrite (H x) by now left. apply IH. intros y Hy. apply H. now right.
Qed.

(** ** Counting by a key *)

Section CountFacts.
Variable key : Defect -> string.

Lemma assign_fold data acc :
  fold_left (fun acc d => JS.assign acc (key d) (default 0 (JS.get acc (key d)) + 1)) data acc
  = fold_left (countStep key) (counted key data) acc.
Proof.
  revert acc. induction data as [| d data IH]; intros acc; [reflexivity |].
  cbn [fold_left counted List.filter]. rewrite IH. unfold JS.assign.
  fold (counted key data). now destruct (String.eqb (key d) "__proto__").
Qed.

Lemma countBy_fold data : countBy key data = fold_left (countStep key) (counted key data) [].
Proof. apply assign_fold. Qed.

Lemma plainKeys_spec data :
  plainKeys key data <-> forall d, In d data -> JS.inherited (key d) = false.
Proof.
  unfold plainKeys. rewrite forallb_forall. split; intros H d Hd.
  - apply negb_true_iff. now apply H.
  - apply negb_true_iff. now apply H.
Qed.

Lemma inherited_proto (k : string) : JS.inherited k = false -> String.eqb k "__proto__" = false.
Proof.
  intros H. destruct (String.eqb_spec k "__proto__") as [-> |]; [discriminate H | reflexivity].
Qed.

Lemma plainKeys_counted data : plainKeys key data -> counted key data = data.
Proof.
  intros H. unfold counted. apply filter_all. intros d Hd.
  apply negb_true_iff, inherited_proto. now apply plainKeys_spec in Hd.
Qed.

Lemma countBy_plain data :
  plainKeys key data -> countBy key data = fold_left (countStep key) data [].
Proof. intros H. now rewrite countBy_fold, plainKeys_counted. Qed.

Lemma fold_countStep_nonempty data acc :
  acc <> [] -> fold_left (countStep key) data acc <> [].
Proof.
  revert acc. induction data as [| d data IH]; intros acc Hacc; simpl; [exact Hacc |].
  apply IH, set_nonempty.
Qed.

Lemma countBy_nonempty data : plainKeys key data -> data <> [] -> countBy key data <> [].
Proof.
  intros Hp. rewrite (countBy_plain data Hp).
  destruct data as [| d data]; [congruence | intros _].
  simpl. apply fold_countStep_nonempty, set_nonempty.
Qed.

End CountFacts.

(** The counters the Pareto loop fills are those of [countBy]. *)
Lemma pareto_counters (data : list Defect) (acc : JS.dict nat * JS.dict nat) :
  fold_left (fun (acc : JS.dict nat * JS.dict nat) d =>
               (JS.assign (fst acc) (Defect.defectName d)
                          (default 0 (JS.get (fst acc) (Defect.defectName d)) + 1),
                JS.assign (snd acc) (Defect.partOfCar d)
                          (default 0 (JS.get (snd acc) (Defect.partOfCar d)) + 1)))
            data acc
  = (fold_left (fun acc d =>
                  JS.assign acc (Defect.defectName d)
                            (default 0 (JS.get acc (Defect.defectName d)) + 1))
               data (fst acc),
     fold_left (fun acc d =>
                  JS.assign acc (Defect.partOfCar d)
                            (default 0 (JS.get acc (Defect.partOfCar d)) + 1))
               data (snd acc)).
Proof.
  revert acc. induction data as [| d data IH]; intros [a b]; simpl; [reflexivity |].
  now rewrite IH.
Qed.

Lemma pareto_unfold (data : list Defect) :
  Pareto.pareto data
  = {| Pareto.defectsPareto :=
         Pareto.rows (countBy Defect.defectName data)
                     (match length data with O => 1 | n => n end);
       Pareto.partsPareto :=
         Pareto.rows (countBy Defect.partOfCar data)
                     (match length data with O => 1 | n => n end) |}.
Proof.
  unfold Pareto.pareto. now rewrite pareto_counters.
Qed.

Lemma pareto_rows_ranked (counts : JS.dict nat) (total : nat) :
  Pareto.rows counts total
  = map (fun ir : nat * (string * nat) =>
           {| Pareto.name := fst (snd ir);
              Pareto.count := snd (snd ir);
              Pareto.pct := Pareto.percent (snd (snd ir)) total;
              Pareto.cumPct :=
                Pareto.percent
                  (fold_left (fun s r => s + snd r)
                             (firstn (fst ir + 1) (ranked counts)) 0)
                  total |})
        (combine (seq 0 (length (ranked counts))) (ranked counts)).
Proof.
  unfold Pareto.rows, ranked, JS.slice0.
  replace (map (fun e : string * nat => (fst e, snd e)) (JS.Object_entries counts))
    with (JS.Object_entries counts).
  - apply map_ext. now intros [i row].
  - rewrite <- (map_id (JS.Object_entries counts)) at 1. apply map_ext. now intros [k v].
Qed.

(** ** The most frequent defect *)

Lemma ranked_nonempty (key : Defect -> string) (data : list Defect) :
  plainKeys key data -> data <> [] -> ranked (countBy key data) <> [].
Proof.
  intros Hp Hd. apply Array_sort_nonempty, Object_entries_nonempty.
  now apply countBy_nonempty.
Qed.

Lemma explore_target (data : list Defect) (t : string) :
  Explorer.target (Explorer.explore data t) = t.
Proof.
  unfold Explorer.explore.
  now destruct (fold_left _ _ _) as [[byStation byPart] byShift].
Qed.

Lemma explorer_default_target (data : list Defect) :
  option_map Explorer.target (Explorer.recurrenceExplorer data None)
  = match ranked (countBy Defect.defectName data) with
    | e :: _ => if String.eqb (fst e) "" then None else Some (fst e)
    | [] => None
    end.
Proof.
  unfold Explorer.recurrenceExplorer, Explorer.top. fold (ranked (countBy Defect.defectName data)).
  destruct (ranked (countBy Defect.defectName data)) as [| e L]; simpl; [reflexivity |].
  destruct (String.eqb (fst e) ""); simpl; [reflexivity |].
  now rewrite explore_target.
Qed.

Lemma heatmap_topDefects (data : list Defect) :
  Heatmap.topDefects (Heatmap.heatmap data)
  = map fst (firstn 6 (ranked (countBy Defect.defectName data))).
Proof. reflexivity. Qed.

Lemma pareto_first_name (counts : JS.dict nat) (total : nat) :
  head (map Pareto.name (Pareto.rows counts total)) = option_map fst (head (ranked counts)).
Proof.
  rewrite pareto_rows_ranked. now destruct (ranked counts) as [| e L].
Qed.




(** ** Filter view *)

Lemma append_nil (s : string) : (EmptyString ++ s)%string = s.
Proof. reflexivity. Qed.

Lemma append_cons (c : ascii) (a b : string) :
  (String c a ++ b)%string = String c (a ++ b).
Proof. reflexivity. Qed.

Lemma prefix_spec (t s : string) :
  String.prefix t s = true <-> exists post : string, s = (t ++ post)%string.
Proof.
  revert s. induction t as [| c t IH]; intros s.
  - split; [intros _; now exists s | now destruct s].
  - destruct s as [| c' s]; [split; [discriminate | intros [post H]; discriminate H] |].
    cbn [String.prefix]. destruct (ascii_dec c c') as [-> | Hne].
    + rewrite IH. split; intros [post H]; exists post.
      * now rewrite append_cons, H.
      * rewrite append_cons in H. now injection H.
    + split; [discriminate |]. intros [post H]. rewrite append_cons in H.
      injection H as H1 _. congruence.
Qed.

Lemma String_includes_spec (s t : string) :
  JS.String_includes s t = true <-> Spec.substring t s.
Proof.
  unfold Spec.substring. split.
  - induction s as [| c s IH]; cbn [JS.String_includes]; rewrite orb_true_iff, prefix_spec.
    + intros [[post H] | H]; [now exists EmptyString, post | discriminate].
    + intros [[post H] | H]; [now exists EmptyString, post |].
      destruct (IH H) as (pre & post & ->). now exists (String c pre), post.
  - intros (pre & post & ->). induction pre as [| c pre IH].
    + assert (Hp : String.prefix t (t ++ post) = true) by (apply prefix_spec; now exists post).
      rewrite append_nil. revert Hp. destruct (t ++ post)%string; intros Hp;
        cbn [JS.String_includes]; now rewrite Hp.
    + rewrite append_cons. cbn [JS.String_includes]. rewrite orb_true_iff. now right.
Qed.

Lemma toLowerCase_app (a b : string) :
  JS.toLowerCase (a ++ b) = (JS.toLowerCase a ++ JS.toLowerCase b)%string.
Proof.
  induction a as [| c a IH]; [reflexivity |].
  rewrite append_cons. cbn [JS.toLowerCase]. now rewrite append_cons, IH.
Qed.

(** The code of a lowered character. *)
Lemma lower_code (c : ascii) :
  nat_of_ascii (JS.lower_ascii c)
  = if (65 <=? nat_of_ascii c)%nat && (nat_of_ascii c <=? 90)%nat
    then nat_of_ascii c + 32 else nat_of_ascii c.
Proof.
  unfold JS.lower_ascii.
  destruct ((65 <=? nat_of_ascii c)%nat && (nat_of_ascii c <=? 90)%nat) eqn:E;
    [| reflexivity].
  apply andb_true_iff in E as [_ E]. apply Nat.leb_le in E.
  apply nat_ascii_embedding. lia.
Qed.

Lemma code_inj (a b : ascii) : nat_of_ascii a = nat_of_ascii b -> a = b.
Proof.
  intros H. rewrite <- (ascii_nat_embedding a), <- (ascii_nat_embedding b). now rewrite H.
Qed.

(** Two characters are lowered to the same character exactly when they
    are the same letter. *)
Lemma lower_ascii_same (a b : ascii) :
  JS.lower_ascii a = JS.lower_ascii b <-> Spec.sameLetter a b.
Proof.
  unfold Spec.sameLetter. split.
  - intros H. apply (f_equal nat_of_ascii) in H. rewrite !lower_code in H.
    destruct (Nat.leb_spec 65 (nat_of_ascii a)), (Nat.leb_spec (nat_of_ascii a) 90),
      (Nat.leb_spec 65 (nat_of_ascii b)), (Nat.leb_spec (nat_of_ascii b) 90);
      cbn [andb] in H;
      first [ left; apply code_inj; lia
            | right; left; lia
            | right; right; lia ].
  - intros [-> | [[Ha Hb] | [Hb Ha]]]; [reflexivity | |];
      apply code_inj; rewrite !lower_code;
      destruct (Nat.leb_spec 65 (nat_of_ascii a)), (Nat.leb_spec (nat_of_ascii a) 90),
        (Nat.leb_spec 65 (nat_of_ascii b)), (Nat.leb_spec (nat_of_ascii b) 90);
      cbn [andb]; lia.
Qed.

Lemma toLowerCase_same (s t : string) :
  JS.toLowerCase s = JS.toLowerCase t <-> Spec.sameIgnoringCase s t.
Proof.
  revert t. induction s as [| a s IH]; intros [| b t]; cbn [JS.toLowerCase Spec.sameIgnoringCase].
  - tauto.
  - split; [discriminate | tauto].
  - split; [discriminate | tauto].
  - rewrite <- IH, <- lower_ascii_same. split.
    + intros H. injection H as H1 H2. now split.
    + intros [-> ->]. reflexivity.
Qed.

(** A lowered string splits where the string does. *)
Lemma toLowerCase_split (s a b : string) :
  JS.toLowerCase s = (a ++ b)%string ->
  exists s1 s2 : string,
    s = (s1 ++ s2)%string /\ JS.toLowerCase s1 = a /\ JS.toLowerCase s2 = b.
Proof.
  revert s. induction a as [| c a IH]; intros s H.
  - exists EmptyString, s. now rewrite append_nil in *.
  - rewrite append_cons in H. destruct s as [| c' s]; [discriminate H |].
    cbn [JS.toLowerCase] in H. injection H as Hc H.
    destruct (IH s H) as (s1 & s2 & -> & H1 & H2).
    exists (String c' s1), s2. rewrite append_cons. cbn [JS.toLowerCase].
    now rewrite Hc, H1.
Qed.

(** What the comparison of the lowered strings decides. *)
Lemma lowered_includes (s t : string) :
  JS.String_includes (JS.toLowerCase s) (JS.toLowerCase t) = true
  <-> Spec.substringNoCase t s.
Proof.
  rewrite String_includes_spec. unfold Spec.substring, Spec.substringNoCase. split.
  - intros (pre & post & H).
    apply toLowerCase_split in H as (s1 & s' & -> & H1 & H).
    apply toLowerCase_split in H as (mid & s3 & -> & Hmid & H3).
    exists s1, mid, s3. split; [reflexivity |]. now apply toLowerCase_same.
  - intros (pre & mid & post & -> & Hmid). apply toLowerCase_same in Hmid.
    exists (JS.toLowerCase pre), (JS.toLowerCase post).
    now rewrite !toLowerCase_app, Hmid.
Qed.

Lemma sameIgnoringCase_refl (s : string) : Spec.sameIgnoringCase s s.
Proof. now apply toLowerCase_same. Qed.

Lemma substring_ignoring_case (t s : string) :
  Spec.substring t s -> Spec.substringNoCase t s.
Proof.
  intros (pre & post & ->). exists pre, t, post. split; [reflexivity |].
  apply sameIgnoringCase_refl.
Qed.

Lemma filter_twice {A : Type} (p q : A -> bool) (l : list A) :
  List.filter p (List.filter q l) = List.filter (fun x => q x && p x) l.
Proof.
  induction l as [| x l IH]; simpl; [reflexivity |].
  destruct (q x); simpl; [| exact IH]. destruct (p x); now rewrite IH.
Qed.

Section FilterFacts.
Variable Math_sqrt : number -> number.
Variable Number_toString : number -> string.

Lemma matches_spec (term : string) (d : Defect) :
  FilterSort.matches Number_toString term d = true
  <-> exists val, In val (FilterSort.values d)
                  /\ Spec.substringNoCase term (FilterSort.toString Number_toString val).
Proof.
  unfold FilterSort.matches, JS.Array_some. rewrite existsb_exists.
  split; intros (val & Hin & H); exists val; (split; [exact Hin |]);
    now apply lowered_includes.
Qed.

Lemma filtered_perm (data : list Defect) (term : string) (outliersOnly : bool)
      (cfg : FilterSort.SortConfig) (k : number) :
  Permutation
    (FilterSort.filtered Math_sqrt Number_toString data term outliersOnly cfg k)
    (List.filter (fun d => FilterSort.matches Number_toString term d
                           && (negb outliersOnly || Outlier.isOutlier Math_sqrt data k d))
                 data).
Proof.
  unfold FilterSort.filtered.
  assert (Hres :
    (if outliersOnly
     then List.filter (Outlier.isOutlier Math_sqrt data k)
                      (List.filter (FilterSort.matches Number_toString term) data)
     else List.filter (FilterSort.matches Number_toString term) data)
    = List.filter (fun d => FilterSort.matches Number_toString term d
                            && (negb outliersOnly || Outlier.isOutlier Math_sqrt data k d))
                  data).
  { destruct outliersOnly; simpl.
    - apply filter_twice.
    - apply List.filter_ext. intros d. now rewrite andb_true_r. }
  rewrite Hres. destruct (FilterSort.key cfg); [apply Array_sort_perm | reflexivity].
Qed.

End FilterFacts.



(** ** Outlier predicate and its threshold *)

Lemma ltb_Fin (a b : Q) : Num.ltb (Fin a) (Fin b) = true <-> (a < b)%Q.
Proof.
  unfold Num.ltb. rewrite negb_true_iff. split.
  - intros H. apply Qnot_le_lt. intros Hle. apply Qle_bool_iff in Hle. congruence.
  - intros H. destruct (Qle_bool b a) eqn:E; [| reflexivity].
    apply Qle_bool_iff in E. exfalso. exact (Qlt_not_le _ _ H E).
Qed.

(** What [Math.sqrt] can return once negative results are excluded. *)
Lemma not_negative_cases (sd : number) :
  Num.ltb sd Num.zero = false ->
  sd = NaN \/ sd = PosInf \/ exists s : Q, sd = Fin s /\ (0 <= s)%Q.
Proof.
  destruct sd as [s | | |]; intros H; [| tauto | discriminate H | tauto].
  right; right. exists s. split; [reflexivity |].
  unfold Num.ltb, Num.zero in H. apply negb_false_iff in H. now apply Qle_bool_iff.
Qed.

Lemma mul_threshold_inf (k : Q) : (0 < k)%Q -> Num.mul (Fin k) PosInf = PosInf.
Proof.
  intros Hk. unfold Num.mul, Num.signed_inf.
  now replace (k ?= 0)%Q with Gt by (symmetry; now apply Qgt_alt).
Qed.

Section Threshold.
Variables (m sd x : number) (k1 k2 : Q).
Hypothesis sd_not_negative : Num.ltb sd Num.zero = false.
Hypothesis k1_positive : (0 < k1)%Q.
Hypothesis k1_le_k2 : (k1 <= k2)%Q.

Lemma scaled_le (s : Q) : (0 <= s)%Q -> (k1 * s <= k2 * s)%Q.
Proof. intros Hs. now apply Qmult_le_compat_r. Qed.

Lemma above_upper_mono :
  Num.gtb x (Num.add m (Num.mul (Fin k2) sd)) = true ->
  Num.gtb x (Num.add m (Num.mul (Fin k1) sd)) = true.
Proof.
  assert (Hk2 : (0 < k2)%Q) by (eapply Qlt_le_trans; eassumption).
  destruct (not_negative_cases sd sd_not_negative) as [-> | [-> | (s & -> & Hs)]].
  - now destruct m.
  - now rewrite !mul_threshold_inf.
  - pose proof (scaled_le s Hs) as Hle. unfold Num.gtb.
    destruct m as [a | | |], x as [b | | |]; try (intros H; exact H).
    change (Num.ltb (Fin (a + k2 * s)) (Fin b) = true ->
            Num.ltb (Fin (a + k1 * s)) (Fin b) = true).
    rewrite !ltb_Fin. intros H. lra.
Qed.

Lemma below_lower_mono :
  Num.ltb x (Num.sub m (Num.mul (Fin k2) sd)) = true ->
  Num.ltb x (Num.sub m (Num.mul (Fin k1) sd)) = true.
Proof.
  assert (Hk2 : (0 < k2)%Q) by (eapply Qlt_le_trans; eassumption).
  destruct (not_negative_cases sd sd_not_negative) as [-> | [-> | (s & -> & Hs)]].
  - now destruct m.
  - now rewrite !mul_threshold_inf.
  - pose proof (scaled_le s Hs) as Hle.
    destruct m as [a | | |], x as [b | | |]; try (intros H; exact H).
    change (Num.ltb (Fin b) (Fin (a + - (k2 * s))) = true ->
            Num.ltb (Fin b) (Fin (a + - (k1 * s))) = true).
    rewrite !ltb_Fin. intros H. lra.
Qed.

End Threshold.

Lemma sqrt6_not_negative (x : number) : Num.ltb (Sample.sqrt6 x) Num.zero = false.
Proof.
  destruct x as [q | | |]; try reflexivity.
  unfold Sample.sqrt6. destruct (Qle_bool 0 q); [| reflexivity].
  unfold Num.ltb, Num.zero. apply negb_false_iff, Qle_bool_iff.
  pose proof (Z.sqrt_nonneg (Qfloor (q * 1000000000000))) as Hs.
  revert Hs. generalize (Z.sqrt (Qfloor (q * 1000000000000))). intros z Hz.
  unfold Qle, Qdiv, Qmult, Qinv, inject_Z. simpl. lia.
Qed.

(** C5: whatever [Math.sqrt] returns short of a negative number, for
    thresholds [1 <= k1 <= k2 <= 3] a record that is not an outlier at [k1]
    is not one at [k2]; and a record of severity 8 or more is an outlier at
    every threshold. *)
Theorem isOutlier_monotone_in_threshold
        (Math_sqrt : number -> number) (data : list Defect) (record : Defect) (k1 k2 : Q) :
  (forall x : number, Num.ltb (Math_sqrt x) Num.zero = false) ->
  (1 <= k1)%Q -> (k1 <= k2)%Q -> (k2 <= 3)%Q ->
  (Outlier.isOutlier Math_sqrt data (Fin k1) record = false ->
   Outlier.isOutlier Math_sqrt data (Fin k2) record = false)
  /\ (Num.geb (Defect.severityRating record) (Fin 8) = true ->
      forall k : number, Outlier.isOutlier Math_sqrt data k record = true).
Proof.
  intros Hsqrt H1 H12 H3.
  assert (Hk1 : (0 < k1)%Q) by lra.
  unfold Outlier.isOutlier, Outlier.calculateOutliers, Outlier.metricBounds; simpl.
  split.
  - intros Hnot. apply orb_false_iff in Hnot as [Hnot Hstatic].
    apply orb_false_iff in Hnot as [Hnot Hsev].
    apply orb_false_iff in Hnot as [Hup Hlow].
    rewrite Hstatic, orb_false_r.
    repeat (apply orb_false_iff; split).
    + destruct (Num.gtb _ _) eqn:E in |- *; [| reflexivity].
      apply (above_upper_mono _ _ _ k1 k2 (Hsqrt _) Hk1 H12) in E. congruence.
    + destruct (Num.ltb _ _) eqn:E in |- *; [| reflexivity].
      apply (below_lower_mono _ _ _ k1 k2 (Hsqrt _) Hk1 H12) in E. congruence.
    + destruct (Num.gtb _ _) eqn:E in |- *; [| reflexivity].
      apply (above_upper_mono _ _ _ k1 k2 (Hsqrt _) Hk1 H12) in E. congruence.
  - intros Hstatic k. rewrite Hstatic. apply orb_true_r.
Qed.

Lemma isOutlier_monotone_in_threshold_witness :
  (Outlier.isOutlier Sample.sqrt6 Sample.four (Fin 1) Sample.fourth = false ->
   Outlier.isOutlier Sample.sqrt6 Sample.four (Fin 2.5) Sample.fourth = false)
  /\ (Num.geb (Defect.severityRating Sample.fourth) (Fin 8) = true ->
      forall k : number, Outlier.isOutlier Sample.sqrt6 Sample.four k Sample.fourth = true).
Proof.
  apply (isOutlier_monotone_in_threshold Sample.sqrt6 Sample.four Sample.fourth 1 2.5).
  - exact sqrt6_not_negative.
  - discriminate.
  - discriminate.
  - discriminate.
Defined.

(** ** Pareto percentages *)

Lemma geb_Fin (a b : Q) : (b <= a)%Q -> Num.geb (Fin a) (Fin b) = true.
Proof.
  intros Hle. unfold Num.geb, Num.ltb, Num.eqb.
  destruct (Qle_bool a b) eqn:E; [| reflexivity].
  apply Qle_bool_iff in E. simpl. apply Qeq_bool_iff. now apply Qle_antisym.
Qed.

Section Percent.
Variable total : nat.
Hypothesis total_positive : 1 <= total.

Let T : Q := inject_Z (Z.of_nat total).

Lemma T_positive : (0 < T)%Q.
Proof.
  unfold T. replace 0%Q with (inject_Z 0) by reflexivity.
  rewrite <- Zlt_Qlt. lia.
Qed.

Lemma ratio_mono (n m : nat) :
  n <= m -> (inject_Z (Z.of_nat n) / T * 100 <= inject_Z (Z.of_nat m) / T * 100)%Q.
Proof.
  intros Hnm. apply Qmult_le_compat_r; [| discriminate].
  apply Qmult_le_compat_r.
  - rewrite <- Zle_Qle. lia.
  - apply Qinv_le_0_compat, Qlt_le_weak, T_positive.
Qed.

Lemma ratio_full : (T / T * 100 == 100)%Q.
Proof.
  pose proof T_positive as HT. field. intros H0. rewrite H0 in HT.
  exact (Qlt_irrefl _ HT).
Qed.

Lemma ratio_range (n : nat) :
  n <= total -> (0 <= inject_Z (Z.of_nat n) / T * 100 <= 100)%Q.
Proof.
  intros Hn. split.
  - apply (Qle_trans _ (inject_Z (Z.of_nat 0) / T * 100)); [| apply ratio_mono; lia].
    unfold Qdiv. simpl. rewrite !Qmult_0_l. apply Qle_refl.
  - apply (Qle_trans _ (T / T * 100)); [now apply ratio_mono |].
    rewrite ratio_full. apply Qle_refl.
Qed.

Lemma percent_value (n : nat) :
  n <= total ->
  Pareto.percent n total
  = Fin (inject_Z (Num.hundredths (inject_Z (Z.of_nat n) / T * 100)) / 100).
Proof.
  intros Hn. destruct (ratio_range n Hn) as [H0 H100]. pose proof T_positive as HT.
  unfold Pareto.percent, Num.of_nat, Num.div. fold T.
  destruct (Qeq_bool T 0) eqn:E.
  { apply Qeq_bool_eq in E. rewrite E in HT. now apply Qlt_irrefl in HT. }
  unfold Num.mul, Num.toFixed2.
  destruct (Qle_bool (inject_Z (10 ^ 21)) (Qabs (inject_Z (Z.of_nat n) / T * 100))) eqn:Ebig.
  { apply Qle_bool_iff in Ebig. rewrite (Qabs_pos _ H0) in Ebig.
    exfalso. apply (Qle_not_lt _ _ (Qle_trans _ _ _ Ebig H100)). reflexivity. }
  destruct (Qle_bool 0 (inject_Z (Z.of_nat n) / T * 100)) eqn:Epos; [reflexivity |].
  apply Qle_bool_iff in H0. congruence.
Qed.

Lemma percent_mono (n m : nat) :
  n <= m -> m <= total ->
  Num.geb (Pareto.percent m total) (Pareto.percent n total) = true.
Proof.
  intros Hnm Hm. rewrite !percent_value by lia. apply geb_Fin.
  apply Qmult_le_compat_r; [| discriminate].
  rewrite <- Zle_Qle. apply Qfloor_resp_le.
  pose proof (ratio_mono n m Hnm). lra.
Qed.

Lemma percent_full : Num.eqb (Pareto.percent total total) (Fin 100) = true.
Proof.
  rewrite percent_value by lia. unfold Num.eqb, Num.hundredths.
  rewrite (Qfloor_comp _ (100 * 100 + (1 # 2))).
  - reflexivity.
  - apply Qplus_comp; [| reflexivity]. apply Qmult_comp; [| reflexivity].
    exact ratio_full.
Qed.

End Percent.

(** ** Pareto rows *)

Lemma fold_counts (l : list (string * nat)) (a : nat) :
  fold_left (fun s r => s + snd r) l a = a + list_sum (map snd l).
Proof.
  revert a. induction l as [| r l IH]; intros a; simpl; [lia |]. rewrite IH. lia.
Qed.

Lemma prefix_counts_le (l : list (string * nat)) (n m : nat) :
  n <= m -> list_sum (map snd (firstn n l)) <= list_sum (map snd (firstn m l)).
Proof.
  revert n m. induction l as [| r l IH]; intros n m Hnm.
  - now rewrite !firstn_nil.
  - destruct n as [| n]; [simpl; lia |]. destruct m as [| m]; [lia |].
    simpl. specialize (IH n m). lia.
Qed.

Lemma prefix_counts_all (l : list (string * nat)) (n : nat) :
  list_sum (map snd (firstn n l)) <= list_sum (map snd l).
Proof.
  rewrite <- (firstn_all l) at 2.
  destruct (Nat.le_gt_cases n (length l)) as [H | H]; [now apply prefix_counts_le |].
  rewrite firstn_all2 by lia. now rewrite firstn_all.
Qed.

Lemma combine_snoc {A B : Type} (l1 : list A) (l2 : list B) (a : A) (b : B) :
  length l1 = length l2 -> combine (l1 ++ [a]) (l2 ++ [b]) = combine l1 l2 ++ [(a, b)].
Proof.
  revert l2. induction l1 as [| x l1 IH]; intros [| y l2] Hlen; simpl in *;
    try discriminate; [reflexivity |].
  rewrite IH; [reflexivity | lia].
Qed.

Section Cumulative.
Variables (L : list (string * nat)) (total : nat).
Hypothesis total_positive : 1 <= total.
Hypothesis total_is_sum : list_sum (map snd L) = total.

(** A row as [Pareto.rows] computes it from its rank and entry. *)
Let rowAt (ir : nat * (string * nat)) : Pareto.Row :=
  {| Pareto.name := fst (snd ir);
     Pareto.count := snd (snd ir);
     Pareto.pct := Pareto.percent (snd (snd ir)) total;
     Pareto.cumPct :=
       Pareto.percent (fold_left (fun s r => s + snd r) (firstn (fst ir + 1) L) 0) total |}.

Let nondecreasing (a b : Pareto.Row) : Prop :=
  Num.geb (Pareto.cumPct b) (Pareto.cumPct a) = true.

Lemma rowAt_nondecreasing (i j : nat) (e e' : string * nat) :
  i <= j -> nondecreasing (rowAt (i, e)) (rowAt (j, e')).
Proof.
  intros Hij. unfold nondecreasing, rowAt. simpl. rewrite !fold_counts. simpl.
  apply percent_mono; [exact total_positive | apply prefix_counts_le; lia |].
  rewrite <- total_is_sum. apply prefix_counts_all.
Qed.

Lemma rows_sorted_from (s : nat) (l : list (string * nat)) :
  StronglySorted nondecreasing (map rowAt (combine (seq s (length l)) l)).
Proof.
  revert s. induction l as [| e l IH]; intros s; simpl; constructor; [apply IH |].
  apply List.Forall_forall. intros r Hr. apply in_map_iff in Hr as ([j e'] & <- & Hin).
  apply rowAt_nondecreasing. apply in_combine_l in Hin. apply in_seq in Hin. lia.
Qed.

Lemma rows_last :
  L <> [] ->
  exists (front : list Pareto.Row) (r : Pareto.Row),
    map rowAt (combine (seq 0 (length L)) L) = front ++ [r]
    /\ Num.eqb (Pareto.cumPct r) (Fin 100) = true.
Proof.
  intros HL. destruct (exists_last HL) as (L0 & e & HeqL).
  exists (map rowAt (combine (seq 0 (length L0)) L0)), (rowAt (length L0, e)). split.
  - rewrite HeqL at 1 2. rewrite length_app, seq_app. simpl.
    rewrite combine_snoc by now rewrite length_seq. now rewrite map_app.
  - unfold rowAt. simpl. rewrite fold_counts. simpl.
    replace (list_sum (map snd (firstn (length L0 + 1) L))) with total.
    + now apply percent_full.
    + rewrite <- total_is_sum. f_equal. f_equal. rewrite HeqL.
      replace (length L0 + 1) with (length (L0 ++ [e])) by (rewrite length_app; simpl; lia).
      now rewrite firstn_all.
Qed.

End Cumulative.

(** The counters add up to the number of records. *)
Lemma set_increment_sum (o : JS.dict nat) (k : string) :
  list_sum (map snd (JS.set o k (default 0 (JS.get o k) + 1))) = list_sum (map snd o) + 1.
Proof.
  induction o as [| [k' v'] o IH]; simpl; [reflexivity |].
  destruct (String.eqb k k'); simpl; [lia |]. rewrite IH. lia.
Qed.

Lemma fold_countStep_sum (key : Defect -> string) (data : list Defect) (acc : JS.dict nat) :
  list_sum (map snd (fold_left (countStep key) data acc))
  = list_sum (map snd acc) + length data.
Proof.
  revert acc. induction data as [| d data IH]; intros acc; simpl; [lia |].
  rewrite IH. unfold countStep. rewrite set_increment_sum. lia.
Qed.

Lemma ranked_perm (counts : JS.dict nat) : Permutation (ranked counts) counts.
Proof.
  unfold ranked. rewrite Array_sort_perm. apply Object_entries_perm.
Qed.

Lemma ranked_sum (key : Defect -> string) (data : list Defect) :
  plainKeys key data -> list_sum (map snd (ranked (countBy key data))) = length data.
Proof.
  intros Hp.
  rewrite (Permutation_list_sum (Permutation_map snd (ranked_perm (countBy key data)))).
  rewrite (countBy_plain key data Hp), fold_countStep_sum. reflexivity.
Qed.

Lemma pareto_rows_cumulative (key : Defect -> string) (data : list Defect) :
  data <> [] ->
  plainKeys key data ->
  let rows := Pareto.rows (countBy key data) (length data) in
  StronglySorted (fun a b => Num.geb (Pareto.cumPct b) (Pareto.cumPct a) = true) rows
  /\ exists (front : list Pareto.Row) (r : Pareto.Row),
       rows = front ++ [r] /\ Num.eqb (Pareto.cumPct r) (Fin 100) = true.
Proof.
  intros Hd Hp rows. unfold rows. rewrite pareto_rows_ranked.
  assert (Hpos : 1 <= length data) by (destruct data; [congruence | simpl; lia]).
  split.
  - apply (rows_sorted_from (ranked (countBy key data)) (length data) Hpos
             (ranked_sum key data Hp)).
  - apply (rows_last (ranked (countBy key data)) (length data) Hpos (ranked_sum key data Hp)).
    now apply ranked_nonempty.
Qed.

Lemma pareto_nonempty (data : list Defect) :
  data <> [] ->
  Pareto.pareto data
  = {| Pareto.defectsPareto := Pareto.rows (countBy Defect.defectName data) (length data);
       Pareto.partsPareto := Pareto.rows (countBy Defect.partOfCar data) (length data) |}.
Proof.
  intros Hd. rewrite pareto_unfold. destruct data; [congruence | reflexivity].
Qed.

(** C6, as amended: on a non-empty record set, in the defect table when no
    defect name is a property name of [Object.prototype], and in the part
    table when no part is, the cumulative percentage never decreases from
    one rank to any later rank, and the last row's cumulative percentage is
    100. *)
Theorem pareto_cumulative_percentage (data : list Defect) (rows : list Pareto.Row) :
  data <> [] ->
  rows = Pareto.defectsPareto (Pareto.pareto data) /\ plainKeys Defect.defectName data
  \/ rows = Pareto.partsPareto (Pareto.pareto data) /\ plainKeys Defect.partOfCar data ->
  StronglySorted (fun a b => Num.geb (Pareto.cumPct b) (Pareto.cumPct a) = true) rows
  /\ exists (front : list Pareto.Row) (r : Pareto.Row),
       rows = front ++ [r] /\ Num.eqb (Pareto.cumPct r) (Fin 100) = true.
Proof.
  intros Hd Hrows. rewrite (pareto_nonempty data Hd) in Hrows. simpl in Hrows.
  destruct Hrows as [[-> Hp] | [-> Hp]]; now apply pareto_rows_cumulative.
Qed.

Lemma pareto_cumulative_percentage_witness :
  StronglySorted (fun a b => Num.geb (Pareto.cumPct b) (Pareto.cumPct a) = true)
                 (Pareto.defectsPareto (Pareto.pareto Sample.four))
  /\ exists (front : list Pareto.Row) (r : Pareto.Row),
       Pareto.defectsPareto (Pareto.pareto Sample.four) = front ++ [r]
       /\ Num.eqb (Pareto.cumPct r) (Fin 100) = true.
Proof.
  apply (pareto_cumulative_percentage Sample.four).
  - discriminate.
  - left. split; reflexivity.
Defined.

(** C6 as stated fails: of three records, two with the defect name
    [__proto__], the defect table has the one row of the third, and its
    cumulative percentage, the last of the table, is 33.33. *)
Lemma inherited_name_is_not_counted :
  ~ (Sample.inheritedNames <> [] ->
     forall rows : list Pareto.Row,
       rows = Pareto.defectsPareto (Pareto.pareto Sample.inheritedNames)
       \/ rows = Pareto.partsPareto (Pareto.pareto Sample.inheritedNames) ->
       StronglySorted (fun a b => Num.geb (Pareto.cumPct b) (Pareto.cumPct a) = true) rows
       /\ exists (front : list Pareto.Row) (r : Pareto.Row),
            rows = front ++ [r] /\ Num.eqb (Pareto.cumPct r) (Fin 100) = true).
Proof.
  intros H.
  destruct (H ltac:(discriminate) _ (or_introl eq_refl)) as (_ & front & r & Hrows & Hlast).
  assert (Hone : Pareto.defectsPareto (Pareto.pareto Sample.inheritedNames)
                 = [{| Pareto.name := "Misalignment"; Pareto.count := 1;
                       Pareto.pct := Fin 33.33; Pareto.cumPct := Fin 33.33 |}])
    by (vm_compute; reflexivity).
  rewrite Hone in Hrows. destruct front as [| r0 front].
  - injection Hrows as <-. discriminate Hlast.
  - injection Hrows as _ Hrows. now destruct front.
Qed.

(** ** Heatmap *)

Lemma Array_includes_In (l : list string) (s : string) :
  JS.Array_includes l s = true <-> In s l.
Proof.
  unfold JS.Array_includes. rewrite existsb_exists. split.
  - intros (x & Hin & Heq). apply String.eqb_eq in Heq. now subst.
  - intros Hin. exists s. split; [exact Hin | apply String.eqb_refl].
Qed.

Lemma Set_from_aux_In (seen l : list string) (x : string) :
  In x (JS.Set_from_aux seen l) <-> In x l /\ ~ In x seen.
Proof.
  revert seen. induction l as [| y l IH]; intros seen; simpl; [tauto |].
  destruct (JS.Array_includes seen y) eqn:E.
  - apply Array_includes_In in E. rewrite IH. split; [tauto |].
    intros [[-> | H] Hn]; tauto.
  - assert (Hy : ~ In y seen) by (rewrite <- Array_includes_In; congruence).
    simpl. rewrite IH. simpl. split.
    + intros [<- | [H Hn]]; tauto.
    + intros [[<- | H] Hn]; [tauto |].
      destruct (string_dec y x) as [-> | Hne]; tauto.
Qed.

Lemma Set_from_aux_NoDup (seen l : list string) : List.NoDup (JS.Set_from_aux seen l).
Proof.
  revert seen. induction l as [| y l IH]; intros seen; simpl; [constructor |].
  destruct (JS.Array_includes seen y); [apply IH |].
  constructor; [| apply IH]. rewrite Set_from_aux_In. simpl. tauto.
Qed.

Lemma Set_from_In (l : list string) (x : string) : In x (JS.Set_from l) <-> In x l.
Proof. unfold JS.Set_from. rewrite Set_from_aux_In. simpl. tauto. Qed.

Lemma Set_from_NoDup (l : list string) : List.NoDup (JS.Set_from l).
Proof. apply Set_from_aux_NoDup. Qed.

(** The keys of a counter are pairwise different, and so are the top
    defects. *)
Lemma countBy_keys_NoDup (key : Defect -> string) (data : list Defect) :
  List.NoDup (map fst (countBy key data)).
Proof.
  rewrite countBy_fold. generalize (counted key data). intros l.
  assert (H : forall acc : JS.dict nat,
             List.NoDup (map fst acc) ->
             List.NoDup (map fst (fold_left (countStep key) l acc))).
  { induction l as [| d l IH]; intros acc Hacc; simpl; [exact Hacc |].
    apply IH. unfold countStep. now apply keys_set_NoDup. }
  apply H. constructor.
Qed.

Lemma NoDup_firstn {A : Type} (n : nat) (l : list A) : List.NoDup l -> List.NoDup (firstn n l).
Proof.
  revert n. induction l as [| x l IH]; intros [| n] Hnd; simpl; try constructor.
  - inversion_clear Hnd as [| ? ? Hx Hl]. intros Hin. apply Hx.
    rewrite <- (firstn_skipn n l). apply in_or_app. now left.
  - apply IH. now inversion Hnd.
Qed.

Lemma topN_NoDup (data : list Defect) : List.NoDup (Heatmap.topN data).
Proof.
  unfold Heatmap.topN, JS.slice0. fold (ranked (countBy Defect.defectName data)).
  rewrite <- firstn_map. apply NoDup_firstn.
  apply (Permutation_NoDup (l := map fst (countBy Defect.defectName data))).
  - symmetry. apply Permutation_map, ranked_perm.
  - apply countBy_keys_NoDup.
Qed.

Lemma countIf_cons {A : Type} (p : A -> bool) (x : A) (l : list A) :
  countIf p (x :: l) = (if p x then 1 else 0) + countIf p l.
Proof. unfold countIf. simpl. now destruct (p x). Qed.

(** A sum with a single non-zero term. *)
Lemma list_sum_single (f : string -> nat) (l : list string) (a : string) :
  List.NoDup l -> In a l -> (forall x, x <> a -> f x = 0) -> list_sum (map f l) = f a.
Proof.
  intros Hnd Hin Hzero. induction Hnd as [| x l Hx Hnd IH]; [destruct Hin |].
  simpl. destruct Hin as [-> | Hin].
  - replace (list_sum (map f l)) with 0; [lia |].
    clear IH. induction l as [| y l IHl]; [reflexivity |]. simpl.
    rewrite Hzero by (intros ->; apply Hx; now left).
    apply IHl; [intros H; apply Hx; now right | now inversion Hnd].
  - rewrite IH by exact Hin. rewrite (Hzero x); [lia |]. intros ->. contradiction.
Qed.

Lemma list_sum_zero {A : Type} (f : A -> nat) (l : list A) :
  (forall x, In x l -> f x = 0) -> list_sum (map f l) = 0.
Proof.
  induction l as [| x l IH]; intros H; simpl; [reflexivity |].
  rewrite (H x) by now left. apply IH. intros y Hy. apply H. now right.
Qed.

Lemma list_sum_map_add {A : Type} (f g : A -> nat) (l : list A) :
  list_sum (map (fun x => f x + g x) l) = list_sum (map f l) + list_sum (map g l).
Proof.
  induction l as [| x l IH]; simpl; [reflexivity | rewrite IH; lia].
Qed.

(** Splitting a count along a key whose values all lie in [keys]. *)
Lemma countIf_by_key {A : Type} (p : A -> bool) (key : A -> string)
      (keys : list string) (l : list A) :
  List.NoDup keys ->
  (forall r, In r l -> In (key r) keys) ->
  list_sum (map (fun x => countIf (fun r => p r && String.eqb (key r) x) l) keys)
  = countIf p l.
Proof.
  intros Hnd. induction l as [| r l IH]; intros Hkeys.
  - unfold countIf. simpl. now apply list_sum_zero.
  - rewrite countIf_cons. rewrite <- IH by (intros r' Hr'; apply Hkeys; now right).
    assert (Hone : list_sum (map (fun x => if p r && String.eqb (key r) x then 1 else 0) keys)
                   = if p r then 1 else 0).
    { rewrite (list_sum_single _ keys (key r) Hnd).
      - now rewrite String.eqb_refl, andb_true_r.
      - apply Hkeys. now left.
      - intros x Hx. apply not_eq_sym in Hx. apply String.eqb_neq in Hx.
        now rewrite Hx, andb_false_r. }
    rewrite <- Hone, <- list_sum_map_add. apply (f_equal list_sum), map_ext.
    intros x. apply (countIf_cons (fun r0 => p r0 && String.eqb (key r0) x)).
Qed.

Lemma countIf_ext {A : Type} (p q : A -> bool) (l : list A) :
  (forall x, p x = q x) -> countIf p l = countIf q l.
Proof. intros H. unfold countIf. now rewrite (List.filter_ext p q H). Qed.

Section Cube.
Variable topN : list string.

Lemma cell_counted (cube : gmap string (gmap string (gmap string nat))) (d st sh : string) :
  String.eqb sh "__proto__" = false ->
  Heatmap.cell cube d st sh = Heatmap.Counted (cellCount cube d st sh).
Proof.
  intros Hsh. unfold Heatmap.cell, cellCount. rewrite Hsh.
  destruct (cube !! d) as [byStation |]; simpl.
  - destruct (byStation !! st) as [byShift |]; simpl; [reflexivity |].
    now rewrite lookup_empty.
  - now rewrite !lookup_empty.
Qed.

(** The record [r] is counted in the cell [(d, st, sh)]. *)
Let hit (d st sh : string) (r : Defect) : bool :=
  JS.Array_includes topN (Defect.defectName r)
  && String.eqb (Defect.defectName r) d
  && String.eqb (Defect.station r) st
  && String.eqb (Defect.productionShift r) sh.

Lemma cellCount_fill (cube : gmap string (gmap string (gmap string nat))) (r : Defect)
      (d st sh : string) :
  String.eqb sh "__proto__" = false ->
  cellCount (Heatmap.fill topN cube r) d st sh
  = cellCount cube d st sh + (if hit d st sh r then 1 else 0).
Proof.
  intros Hproto. unfold Heatmap.fill, hit, cellCount.
  destruct (JS.Array_includes topN (Defect.defectName r)); simpl; [| lia].
  destruct (String.eqb_spec (Defect.defectName r) d) as [<- | Hd]; simpl.
  - rewrite lookup_insert_eq. simpl.
    destruct (String.eqb_spec (Defect.station r) st) as [<- | Hst]; simpl.
    + rewrite lookup_insert_eq. simpl.
      destruct (String.eqb_spec (Defect.productionShift r) sh) as [<- | Hsh]; simpl.
      * rewrite Hproto. now rewrite lookup_insert_eq.
      * destruct (String.eqb (Defect.productionShift r) "__proto__"); [lia |].
        rewrite lookup_insert_ne by exact Hsh. lia.
    + rewrite lookup_insert_ne by exact Hst. lia.
  - rewrite lookup_insert_ne by exact Hd. lia.
Qed.

Lemma cellCount_fold (data : list Defect) (cube : gmap string (gmap string (gmap string nat)))
      (d st sh : string) :
  String.eqb sh "__proto__" = false ->
  cellCount (fold_left (Heatmap.fill topN) data cube) d st sh
  = cellCount cube d st sh + countIf (hit d st sh) data.
Proof.
  intros Hproto. revert cube. induction data as [| r data IH]; intros cube; simpl.
  - unfold countIf. simpl. lia.
  - rewrite IH, cellCount_fill, countIf_cons by exact Hproto. lia.
Qed.

Lemma cell_count (data : list Defect) (d st sh : string) :
  String.eqb sh "__proto__" = false ->
  In d topN ->
  cellCount (fold_left (Heatmap.fill topN) data ∅) d st sh
  = countIf (fun r => String.eqb (Defect.defectName r) d
                      && String.eqb (Defect.station r) st
                      && String.eqb (Defect.productionShift r) sh) data.
Proof.
  intros Hproto Hd. rewrite cellCount_fold by exact Hproto.
  unfold cellCount at 1. rewrite !lookup_empty. simpl.
  apply countIf_ext. intros r. unfold hit.
  destruct (String.eqb_spec (Defect.defectName r) d) as [-> | Hne].
  - apply Array_includes_In in Hd. now rewrite Hd.
  - now rewrite andb_false_r.
Qed.

End Cube.

Lemma list_sum_flat_map {A B : Type} (w : B -> nat) (f : A -> list B) (l : list A) :
  list_sum (map w (flat_map f l)) = list_sum (map (fun x => list_sum (map w (f x))) l).
Proof.
  induction l as [| x l IH]; simpl; [reflexivity |].
  now rewrite map_app, list_sum_app, IH.
Qed.

Lemma filter_flat_map {A B : Type} (p : B -> bool) (f : A -> list B) (l : list A) :
  List.filter p (flat_map f l) = flat_map (fun x => List.filter p (f x)) l.
Proof.
  induction l as [| x l IH]; simpl; [reflexivity |].
  now rewrite List.filter_app, IH.
Qed.

Lemma heatmap_rows_unfold (data : list Defect) :
  Heatmap.rows (Heatmap.heatmap data)
  = flat_map (fun defect =>
      flat_map (fun st =>
        map (fun sh =>
               {| Heatmap.defectName := defect; Heatmap.station := st; Heatmap.shift := sh;
                  Heatmap.count :=
                    Heatmap.cell (fold_left (Heatmap.fill (Heatmap.topN data)) data ∅)
                                 defect st sh |})
            (JS.Set_from (map Defect.productionShift data)))
        (JS.Set_from (map Defect.station data)))
      (Heatmap.topN data).
Proof. reflexivity. Qed.

Lemma heatmap_row_In (data : list Defect) (r : Heatmap.Row) :
  In r (Heatmap.rows (Heatmap.heatmap data))
  <-> In (Heatmap.defectName r) (Heatmap.topN data)
      /\ In (Heatmap.station r) (JS.Set_from (map Defect.station data))
      /\ In (Heatmap.shift r) (JS.Set_from (map Defect.productionShift data))
      /\ Heatmap.count r
         = Heatmap.cell (fold_left (Heatmap.fill (Heatmap.topN data)) data ∅)
                        (Heatmap.defectName r) (Heatmap.station r) (Heatmap.shift r).
Proof.
  rewrite heatmap_rows_unfold, in_flat_map. split.
  - intros (defect & Hd & Hr). apply in_flat_map in Hr as (st & Hst & Hr).
    apply in_map_iff in Hr as (sh & <- & Hsh). simpl. tauto.
  - intros (Hd & Hst & Hsh & Hc). exists (Heatmap.defectName r). split; [exact Hd |].
    apply in_flat_map. exists (Heatmap.station r). split; [exact Hst |].
    apply in_map_iff. exists (Heatmap.shift r). split; [| exact Hsh].
    destruct r as [dn st sh c]. simpl in *. now rewrite Hc.
Qed.

Lemma plain_shift (data : list Defect) (sh : string) :
  plainKeys Defect.productionShift data ->
  In sh (JS.Set_from (map Defect.productionShift data)) ->
  String.eqb sh "__proto__" = false.
Proof.
  intros Hp Hsh. apply Set_from_In, in_map_iff in Hsh as (d & <- & Hd).
  apply inherited_proto. exact (proj1 (plainKeys_spec _ _) Hp d Hd).
Qed.

Lemma cellSum_counted (f : Heatmap.Row -> nat) (rows : list Heatmap.Row) :
  (forall r, In r rows -> Heatmap.count r = Heatmap.Counted (f r)) ->
  cellSum rows = Some (list_sum (map f rows)).
Proof.
  induction rows as [| r rows IH]; intros H; simpl; [reflexivity |].
  rewrite (H r) by now left. rewrite IH; [reflexivity |].
  intros r' Hr'. apply H. now right.
Qed.

(** With no shift named [__proto__] every cell of the heatmap holds a
    number, the one the cube has for it. *)
Lemma heatmap_rows_counted (data : list Defect) (r : Heatmap.Row) :
  plainKeys Defect.productionShift data ->
  In r (Heatmap.rows (Heatmap.heatmap data)) ->
  Heatmap.count r
  = Heatmap.Counted
      (cellCount (fold_left (Heatmap.fill (Heatmap.topN data)) data ∅)
                 (Heatmap.defectName r) (Heatmap.station r) (Heatmap.shift r)).
Proof.
  intros Hp Hr. apply heatmap_row_In in Hr as (_ & _ & Hsh & ->).
  apply cell_counted. now apply (plain_shift data).
Qed.

(** The rows of one top defect add up to its records. *)
Lemma heatmap_defect_total (data : list Defect) (defect : string) :
  plainKeys Defect.productionShift data ->
  In defect (Heatmap.topN data) ->
  list_sum
    (map (fun r => cellCount (fold_left (Heatmap.fill (Heatmap.topN data)) data ∅)
                             (Heatmap.defectName r) (Heatmap.station r) (Heatmap.shift r))
       (flat_map (fun st =>
          map (fun sh =>
                 {| Heatmap.defectName := defect; Heatmap.station := st; Heatmap.shift := sh;
                    Heatmap.count :=
                      Heatmap.cell (fold_left (Heatmap.fill (Heatmap.topN data)) data ∅)
                                   defect st sh |})
              (JS.Set_from (map Defect.productionShift data)))
          (JS.Set_from (map Defect.station data))))
  = countIf (fun d => String.eqb (Defect.defectName d) defect) data.
Proof.
  intros Hp Htop. rewrite list_sum_flat_map.
  rewrite <- (countIf_by_key (fun d => String.eqb (Defect.defectName d) defect)
                             Defect.station (JS.Set_from (map Defect.station data)) data
                             (Set_from_NoDup _))
    by (intros r Hr; apply Set_from_In, in_map, Hr).
  apply (f_equal list_sum), map_ext. intros st. rewrite map_map. simpl.
  rewrite <- (countIf_by_key
                (fun d => String.eqb (Defect.defectName d) defect
                          && String.eqb (Defect.station d) st)
                Defect.productionShift (JS.Set_from (map Defect.productionShift data)) data
                (Set_from_NoDup _))
    by (intros r Hr; apply Set_from_In, in_map, Hr).
  apply (f_equal list_sum), map_ext_in. intros sh Hsh.
  apply cell_count; [now apply (plain_shift data) | exact Htop].
Qed.

(** C7, as amended: in a record set in which no defect name, station or
    shift is a property name of [Object.prototype], for each of the
    heatmap's top defects the cells of its rows all hold numbers, and these
    add up to the number of records of the whole record set that bear its
    name. *)
Theorem heatmap_cells_sum_to_defect_total (data : list Defect) (defect : string) :
  plainKeys Defect.defectName data ->
  plainKeys Defect.station data ->
  plainKeys Defect.productionShift data ->
  In defect (Heatmap.topDefects (Heatmap.heatmap data)) ->
  cellSum (List.filter (fun r => String.eqb (Heatmap.defectName r) defect)
                       (Heatmap.rows (Heatmap.heatmap data)))
  = Some (length (List.filter (fun d => String.eqb (Defect.defectName d) defect) data)).
Proof.
  intros _ _ Hp Htop.
  change (Heatmap.topDefects (Heatmap.heatmap data)) with (Heatmap.topN data) in Htop.
  set (cube := fold_left (Heatmap.fill (Heatmap.topN data)) data ∅).
  set (number := fun r : Heatmap.Row =>
                   cellCount cube (Heatmap.defectName r) (Heatmap.station r) (Heatmap.shift r)).
  rewrite (cellSum_counted number).
  2:{ intros r Hr. apply List.filter_In in Hr as [Hr _].
      now apply heatmap_rows_counted. }
  f_equal. rewrite heatmap_rows_unfold, filter_flat_map, list_sum_flat_map.
  rewrite (list_sum_single _ (Heatmap.topN data) defect (topN_NoDup data) Htop).
  - rewrite filter_all.
    2:{ intros r Hr. apply in_flat_map in Hr as (st & _ & Hr).
        apply in_map_iff in Hr as (sh & <- & _). apply String.eqb_refl. }
    now apply heatmap_defect_total.
  - intros x Hx. rewrite filter_none; [reflexivity |].
    intros r Hr. apply in_flat_map in Hr as (st & _ & Hr).
    apply in_map_iff in Hr as (sh & <- & _). simpl. now apply String.eqb_neq.
Qed.

Lemma heatmap_cells_sum_to_defect_total_witness :
  cellSum (List.filter (fun r => String.eqb (Heatmap.defectName r) "Paint Defect")
                       (Heatmap.rows (Heatmap.heatmap Sample.four)))
  = Some (length (List.filter (fun d => String.eqb (Defect.defectName d) "Paint Defect")
                              Sample.four)).
Proof.
  apply (heatmap_cells_sum_to_defect_total Sample.four "Paint Defect");
    [reflexivity | reflexivity | reflexivity |].
  vm_compute. tauto.
Defined.

(** C7 as stated fails: the one record of this set has the shift
    [__proto__]; its defect is the heatmap's top defect, and the only cell
    of that defect holds [Object.prototype] instead of the count 1, so that
    the cells have no sum. *)
Lemma inherited_shift_cell_is_no_count :
  ~ (In "Misalignment" (Heatmap.topDefects (Heatmap.heatmap Sample.inheritedShift)) ->
     cellSum (List.filter (fun r => String.eqb (Heatmap.defectName r) "Misalignment")
                          (Heatmap.rows (Heatmap.heatmap Sample.inheritedShift)))
     = Some (length (List.filter (fun d => String.eqb (Defect.defectName d) "Misalignment")
                                 Sample.inheritedShift))).
Proof.
  intros H. assert (Htop : In "Misalignment"
                              (Heatmap.topDefects (Heatmap.heatmap Sample.inheritedShift)))
    by (vm_compute; tauto).
  specialize (H Htop). vm_compute in H. discriminate H.
Qed.

(** * Further properties of the code *)

(** ** Record store: invariants and composition *)

Lemma toggled_sameMeasures (d : Defect) : sameMeasures (Store.toggled d) d.
Proof. unfold sameMeasures. simpl. tauto. Qed.

Lemma withNote_sameMeasures (d : Defect) (note : string) :
  sameMeasures (Store.withNote d note) d.
Proof. unfold sameMeasures. simpl. tauto. Qed.

Lemma sameMeasures_refl (d : Defect) : sameMeasures d d.
Proof. unfold sameMeasures. tauto. Qed.

Lemma toggled_twice (d : Defect) :
  statusFollowsFlag d -> Store.toggled (Store.toggled d) = d.
Proof.
  unfold statusFollowsFlag. destruct d as [? ? ? ? ? ? ? ? ? ? ? ? ? ? ? ? f n st].
  simpl. intros ->. unfold Store.toggled. simpl. now destruct f.
Qed.

(** X1: both mutations keep the flag and the status in step: if in every
    record the status is "Under Review" when flagged and empty otherwise,
    the same holds after [handleFlag] and after [handleNoteUpdate]. *)
Theorem mutations_keep_status_in_step (data : list Defect) (id : number) (note : string) :
  Forall statusFollowsFlag data ->
  Forall statusFollowsFlag (snd (Store.handleFlag id data))
  /\ Forall statusFollowsFlag (snd (Store.handleNoteUpdate id note data)).
Proof.
  intros Hinv. simpl. split; apply List.Forall_map;
    (eapply Forall_impl; [exact Hinv |]); intros d Hd; simpl;
    destruct (Num.eqb (Defect.id d) id); try exact Hd.
  unfold statusFollowsFlag. simpl. now destruct (Defect.flagged d).
Qed.

Lemma sample_status_in_step : Forall statusFollowsFlag Sample.four.
Proof. repeat constructor. Qed.

Lemma mutations_keep_status_in_step_witness :
  Forall statusFollowsFlag (snd (Store.handleFlag (Fin 2) Sample.four))
  /\ Forall statusFollowsFlag (snd (Store.handleNoteUpdate (Fin 2) "checked" Sample.four)).
Proof.
  apply (mutations_keep_status_in_step Sample.four (Fin 2) "checked").
  repeat constructor.
Defined.

(** X2: on a record set whose statuses follow the flags, flagging the same
    identifier twice gives the record set back. *)
Theorem handleFlag_twice_restores (data : list Defect) (id : number) :
  Forall statusFollowsFlag data ->
  snd (Store.handleFlag id (snd (Store.handleFlag id data))) = data.
Proof.
  intros Hinv. simpl. rewrite map_map. apply map_unchanged.
  eapply Forall_impl; [exact Hinv |]. intros d Hd. simpl.
  destruct (Num.eqb (Defect.id d) id) eqn:E; [| now rewrite E].
  change (Defect.id (Store.toggled d)) with (Defect.id d). rewrite E.
  now apply toggled_twice.
Qed.

Lemma handleFlag_twice_restores_witness :
  snd (Store.handleFlag (Fin 2) (snd (Store.handleFlag (Fin 2) Sample.four))) = Sample.four.
Proof.
  apply (handleFlag_twice_restores Sample.four (Fin 2)). repeat constructor.
Defined.

(** X3: a flag toggle and a note update commute, whichever identifiers
    they address, and of two note updates of one identifier the later
    wins. *)
Theorem flag_and_note_compose (data : list Defect) (id1 id2 : number) (n1 n2 : string) :
  snd (Store.handleFlag id1 (snd (Store.handleNoteUpdate id2 n1 data)))
  = snd (Store.handleNoteUpdate id2 n1 (snd (Store.handleFlag id1 data)))
  /\ snd (Store.handleNoteUpdate id2 n2 (snd (Store.handleNoteUpdate id2 n1 data)))
     = snd (Store.handleNoteUpdate id2 n2 data).
Proof.
  simpl. rewrite !map_map. split; apply map_ext; intros d.
  - destruct (Num.eqb (Defect.id d) id2) eqn:E2, (Num.eqb (Defect.id d) id1) eqn:E1;
      simpl; rewrite ?E1, ?E2; reflexivity.
  - destruct (Num.eqb (Defect.id d) id2) eqn:E2; simpl; rewrite E2; reflexivity.
Qed.

(** The analytics read a record set only through the measures. *)
Lemma fold_left_map {A B C : Type} (f : B -> C -> B) (g : A -> C) (l : list A) (b : B) :
  fold_left f (map g l) b = fold_left (fun acc x => f acc (g x)) l b.
Proof.
  revert b. induction l as [| x l IH]; intros b; simpl; [reflexivity | apply IH].
Qed.

Lemma fold_left_ext {A B : Type} (f f' : B -> A -> B) (l : list A) (b : B) :
  (forall acc x, f acc x = f' acc x) -> fold_left f l b = fold_left f' l b.
Proof.
  intros H. revert b. induction l as [| x l IH]; intros b; simpl; [reflexivity |].
  now rewrite H, IH.
Qed.

Section SameMeasures.
Variable g : Defect -> Defect.
Hypothesis g_keeps : forall d, sameMeasures (g d) d.

Lemma countBy_measures (key : Defect -> string) (data : list Defect) :
  (forall d, key (g d) = key d) -> countBy key (map g data) = countBy key data.
Proof.
  intros Hkey. unfold countBy. rewrite fold_left_map. apply fold_left_ext.
  intros acc d. now rewrite Hkey.
Qed.

Lemma pareto_measures (data : list Defect) : Pareto.pareto (map g data) = Pareto.pareto data.
Proof.
  rewrite !pareto_unfold, length_map.
  rewrite !countBy_measures; [reflexivity | |]; intros d; apply (g_keeps d).
Qed.

Lemma heatmap_measures (data : list Defect) :
  Heatmap.heatmap (map g data) = Heatmap.heatmap data.
Proof.
  unfold Heatmap.heatmap, Heatmap.topN.
  rewrite countBy_measures by (intros d; apply (g_keeps d)).
  rewrite !map_map.
  rewrite (map_ext (fun x => Defect.station (g x)) Defect.station)
    by (intros d; apply (g_keeps d)).
  rewrite (map_ext (fun x => Defect.productionShift (g x)) Defect.productionShift)
    by (intros d; apply (g_keeps d)).
  rewrite fold_left_map.
  rewrite (fold_left_ext
             (fun acc x => Heatmap.fill
                (map fst (JS.slice0 6 (JS.Array_sort (byCountDesc snd)
                   (JS.Object_entries (countBy Defect.defectName data))))) acc (g x))
             (Heatmap.fill
                (map fst (JS.slice0 6 (JS.Array_sort (byCountDesc snd)
                   (JS.Object_entries (countBy Defect.defectName data))))))).
  - reflexivity.
  - intros acc d. unfold Heatmap.fill. destruct (g_keeps d) as (_ & _ & _ & Hn & Hs & _).
    destruct (g_keeps d) as (_ & _ & _ & _ & _ & _ & _ & _ & _ & _ & _ & _ & Hsh & _).
    now rewrite Hn, Hs, Hsh.
Qed.

Lemma triads_measures (data : list Defect) : Triads.triads (map g data) = Triads.triads data.
Proof.
  unfold Triads.triads. rewrite fold_left_map.
  rewrite (fold_left_ext (fun acc x => Triads.accumulate acc (g x)) Triads.accumulate);
    [reflexivity |].
  intros acc d. unfold Triads.accumulate, Triads.keyOf.
  destruct (g_keeps d) as (_ & _ & _ & Hn & Hs & Hp & _ & _ & Hsev & _ & _ & _ & _ & Hres & Hrc & _).
  now rewrite Hn, Hs, Hp, Hsev, Hres, Hrc.
Qed.

Lemma calculateOutliers_measures (Math_sqrt : number -> number) (data : list Defect)
      (k : number) :
  Outlier.calculateOutliers Math_sqrt (map g data) k
  = Outlier.calculateOutliers Math_sqrt data k.
Proof.
  unfold Outlier.calculateOutliers. rewrite !map_map.
  rewrite (map_ext (fun x => Defect.resolutionTime (g x)) Defect.resolutionTime)
    by (intros d; apply (g_keeps d)).
  rewrite (map_ext (fun x => Defect.severityRating (g x)) Defect.severityRating)
    by (intros d; apply (g_keeps d)).
  reflexivity.
Qed.

End SameMeasures.



(** ** Outlier table and overview cards *)

Lemma filter_length_le {A : Type} (p q : A -> bool) (l : list A) :
  (forall x, p x = true -> q x = true) ->
  length (List.filter p l) <= length (List.filter q l).
Proof.
  intros Hpq. induction l as [| x l IH]; simpl; [lia |].
  destruct (p x) eqn:Ep.
  - rewrite (Hpq x Ep). simpl. lia.
  - destruct (q x); simpl; lia.
Qed.

Lemma In_slice {A : Type} (n : nat) (l : list A) (x : A) : In x (firstn n l) -> In x l.
Proof.
  intros H. rewrite <- (firstn_skipn n l). apply in_or_app. now left.
Qed.

(** X5: a record is an outlier exactly when the outlier table has a reason
    to show for it; the table lists at most twenty rows, each a record of
    the set with at least one reason. *)
Theorem outliers_have_reasons
        (Math_sqrt : number -> number) (data : list Defect) (k : number) :
  (forall row : Defect,
      Outlier.isOutlier Math_sqrt data k row = true
      <-> View.reasons Math_sqrt data k row <> [])
  /\ length (View.outlierRows Math_sqrt data k) <= 20
  /\ (forall row : Defect,
         In row (View.outlierRows Math_sqrt data k) ->
         In row data /\ View.reasons Math_sqrt data k row <> []).
Proof.
  assert (Hiff : forall row : Defect,
             Outlier.isOutlier Math_sqrt data k row = true
             <-> View.reasons Math_sqrt data k row <> []).
  { intros row. unfold Outlier.isOutlier, View.reasons.
    change (Outlier.staticCritical (Outlier.calculateOutliers Math_sqrt data k)) with (Fin 8).
    destruct (Num.gtb (Defect.resolutionTime row) _); [simpl; split; [discriminate | reflexivity] |].
    destruct (Num.ltb (Defect.resolutionTime row) _); [simpl; split; [discriminate | reflexivity] |].
    destruct (Num.gtb (Defect.severityRating row) _);
      destruct (Num.geb (Defect.severityRating row) (Fin 8)); simpl;
      split; try discriminate; try reflexivity; congruence. }
  split; [exact Hiff |]. split.
  - unfold View.outlierRows, JS.slice0. rewrite length_firstn. lia.
  - intros row Hrow. unfold View.outlierRows, JS.slice0 in Hrow.
    apply In_slice in Hrow. apply List.filter_In in Hrow as [Hin Hout].
    split; [exact Hin | now apply Hiff].
Qed.

Lemma high_reason (Math_sqrt : number -> number) (data : list Defect) (k : number)
      (row : Defect) :
  In "High Res Time" (View.reasons Math_sqrt data k row) ->
  Num.gtb (Defect.resolutionTime row)
          (Outlier.upperBound (Outlier.resolutionTime
                                 (Outlier.calculateOutliers Math_sqrt data k))) = true.
Proof.
  unfold View.reasons.
  destruct (Num.gtb (Defect.resolutionTime row) _); [reflexivity |].
  destruct (Num.ltb (Defect.resolutionTime row) _),
           (Num.geb (Defect.severityRating row) _),
           (Num.gtb (Defect.severityRating row) _); simpl; intuition discriminate.
Qed.

Lemma low_reason (Math_sqrt : number -> number) (data : list Defect) (k : number)
      (row : Defect) :
  In "Low Res Time" (View.reasons Math_sqrt data k row) ->
  Num.ltb (Defect.resolutionTime row)
          (Outlier.lowerBound (Outlier.resolutionTime
                                 (Outlier.calculateOutliers Math_sqrt data k))) = true.
Proof.
  unfold View.reasons.
  destruct (Num.ltb (Defect.resolutionTime row) _); [reflexivity |].
  destruct (Num.gtb (Defect.resolutionTime row) _),
           (Num.geb (Defect.severityRating row) _),
           (Num.gtb (Defect.severityRating row) _); simpl; intuition discriminate.
Qed.

(** X6: with a threshold that is not negative, and a [Math.sqrt] that
    returns no negative number, no row is given both "High Res Time" and
    "Low Res Time". *)
Theorem high_and_low_exclude_each_other
        (Math_sqrt : number -> number) (data : list Defect) (k : Q) (row : Defect) :
  (forall x : number, Num.ltb (Math_sqrt x) Num.zero = false) ->
  (0 <= k)%Q ->
  ~ (In "High Res Time" (View.reasons Math_sqrt data (Fin k) row)
     /\ In "Low Res Time" (View.reasons Math_sqrt data (Fin k) row)).
Proof.
  intros Hsqrt Hk [Hhigh Hlow].
  apply high_reason in Hhigh. apply low_reason in Hlow.
  unfold Outlier.calculateOutliers, Outlier.metricBounds in Hhigh, Hlow.
  cbn [Outlier.resolutionTime Outlier.severityRating Outlier.upperBound Outlier.lowerBound]
    in Hhigh, Hlow.
  set (m := Num.div _ _) in Hhigh, Hlow.
  set (sd := Math_sqrt _) in Hhigh, Hlow.
  unfold Num.gtb in Hhigh.
  destruct (not_negative_cases sd (Hsqrt _)) as [Hsd | [Hsd | (s & Hsd & Hs)]];
    rewrite Hsd in Hhigh, Hlow.
  - destruct m; discriminate Hhigh.
  - unfold Num.mul, Num.signed_inf in Hhigh, Hlow.
    destruct (k ?= 0)%Q eqn:Ek.
    + destruct m; discriminate Hhigh.
    + apply Qlt_alt in Ek. exfalso. exact (Qlt_not_le _ _ Ek Hk).
    + destruct m, (Defect.resolutionTime row); discriminate.
  - destruct m as [a | | |], (Defect.resolutionTime row) as [b | | |]; try discriminate.
    change (Num.ltb (Fin (a + k * s)) (Fin b) = true) in Hhigh.
    change (Num.ltb (Fin b) (Fin (a + - (k * s))) = true) in Hlow.
    apply ltb_Fin in Hhigh, Hlow.
    assert (Hks : (0 <= k * s)%Q) by now apply Qmult_le_0_compat.
    lra.
Qed.

Lemma high_and_low_exclude_each_other_witness :
  ~ (In "High Res Time" (View.reasons Sample.sqrt6 Sample.four (Fin 2) Sample.third)
     /\ In "Low Res Time" (View.reasons Sample.sqrt6 Sample.four (Fin 2) Sample.third)).
Proof.
  apply (high_and_low_exclude_each_other Sample.sqrt6 Sample.four 2 Sample.third).
  - exact sqrt6_not_negative.
  - discriminate.
Defined.

(** X7: at every threshold the Outliers card counts at least as many
    records as the Critical card: a record of severity 8 or more is always
    an outlier. *)
Theorem critical_count_le_outlier_count
        (Math_sqrt : number -> number) (String_localeCompare : string -> string -> number)
        (data : list Defect) (k : number) :
  Analytics.criticalDefects (Analytics.analytics String_localeCompare data)
  <= View.outlierCount Math_sqrt data k.
Proof.
  unfold View.outlierCount. simpl. apply filter_length_le.
  intros d Hd. unfold Outlier.isOutlier.
  change (Outlier.staticCritical (Outlier.calculateOutliers Math_sqrt data k)) with (Fin 8).
  rewrite Hd. apply orb_true_r.
Qed.

(** ** Sorting by a consistent comparator *)

Section SortedFacts.
Context {A : Type}.
Variable cmp : A -> A -> number.

(** [x] must go after [y]. *)
Let after (x y : A) : bool := Num.gtb (cmp x y) Num.zero.

Hypothesis cmp_asym : forall x y, after x y = true -> after y x = false.
Hypothesis cmp_trans : forall x y z, after x y = false -> after y z = false -> after x z = false.

Lemma sort_insert_sorted (x : A) (l : list A) :
  StronglySorted (fun a b => after a b = false) l ->
  StronglySorted (fun a b => after a b = false) (JS.sort_insert cmp x l).
Proof.
  induction 1 as [| y l Hl IH Hy]; simpl.
  - repeat constructor.
  - fold (after x y). destruct (after x y) eqn:E.
    + constructor; [exact IH |].
      apply List.Forall_forall. intros z Hz.
      apply (Permutation_in _ (sort_insert_perm cmp x l)) in Hz.
      destruct Hz as [<- | Hz]; [now apply cmp_asym |].
      rewrite List.Forall_forall in Hy. now apply Hy.
    + constructor; [now constructor |].
      constructor; [exact E |].
      rewrite List.Forall_forall in Hy |- *. intros z Hz.
      apply (cmp_trans x y z E). now apply Hy.
Qed.

Lemma Array_sort_sorted (l : list A) :
  StronglySorted (fun a b => after a b = false) (JS.Array_sort cmp l).
Proof.
  unfold JS.Array_sort. induction l as [| x l IH]; simpl; [constructor |].
  now apply sort_insert_sorted.
Qed.

End SortedFacts.

Lemma byCountDesc_after {A : Type} (count : A -> nat) (a b : A) :
  Num.gtb (byCountDesc count a b) Num.zero = (count a <? count b)%nat.
Proof.
  unfold byCountDesc, Num.gtb, Num.sub, Num.of_nat, Num.neg, Num.add, Num.zero.
  destruct (count a <? count b)%nat eqn:E.
  - apply ltb_Fin. apply Nat.ltb_lt in E.
    unfold Qlt, Qplus, Qopp, inject_Z. simpl. lia.
  - apply Nat.ltb_ge in E. destruct (Num.ltb _ _) eqn:E'; [| reflexivity].
    apply ltb_Fin in E'. unfold Qlt, Qplus, Qopp, inject_Z in E'. simpl in E'. lia.
Qed.

(** Sorting with [(a, b) => b.count - a.count] leaves no smaller count
    before a larger one. *)
Lemma sorted_by_count {A : Type} (count : A -> nat) (l : list A) :
  StronglySorted (fun a b => count b <= count a) (JS.Array_sort (byCountDesc count) l).
Proof.
  assert (H : StronglySorted
                (fun a b => Num.gtb (byCountDesc count a b) Num.zero = false)
                (JS.Array_sort (byCountDesc count) l)).
  { apply Array_sort_sorted.
    - intros x y. rewrite !byCountDesc_after, Nat.ltb_lt, Nat.ltb_ge. lia.
    - intros x y z. rewrite !byCountDesc_after, !Nat.ltb_ge. lia. }
  induction H as [| a l' Hl IH Ha]; constructor; [exact IH |].
  eapply Forall_impl; [exact Ha |]. intros b Hb. simpl in Hb.
  rewrite byCountDesc_after in Hb. now apply Nat.ltb_ge in Hb.
Qed.

(** ** What a counter holds *)

Lemma In_get {V : Type} (o : JS.dict V) (k : string) (v : V) :
  List.NoDup (map fst o) -> (In (k, v) o <-> JS.get o k = Some v).
Proof.
  induction o as [| [k' v'] o IH]; simpl; intros Hnd; [split; [tauto | discriminate] |].
  inversion_clear Hnd as [| ? ? Hk' Hnd']. destruct (String.eqb_spec k k') as [-> | Hne].
  - split.
    + intros [H | H]; [congruence |]. exfalso. apply Hk'.
      change k' with (fst (k', v)). now apply in_map.
    + intros H. left. congruence.
  - rewrite <- (IH Hnd'). split; [| tauto]. intros [H | H]; [congruence | exact H].
Qed.

Lemma get_countStep (key : Defect -> string) (acc : JS.dict nat) (d : Defect) (k : string) :
  JS.get (countStep key acc d) k
  = if String.eqb (key d) k then Some (default 0 (JS.get acc k) + 1) else JS.get acc k.
Proof.
  unfold countStep. destruct (String.eqb_spec (key d) k) as [<- | Hne].
  - apply get_set_eq.
  - now apply get_set_ne.
Qed.

Lemma get_fold_countStep (key : Defect -> string) (data : list Defect) (acc : JS.dict nat)
      (k : string) :
  JS.get (fold_left (countStep key) data acc) k
  = match countIf (fun d => String.eqb (key d) k) data with
    | O => JS.get acc k
    | S n => Some (default 0 (JS.get acc k) + S n)
    end.
Proof.
  revert acc. induction data as [| d data IH]; intros acc; [reflexivity |].
  cbn [fold_left]. rewrite IH, countIf_cons, get_countStep.
  destruct (String.eqb (key d) k); simpl.
  - destruct (countIf _ data); simpl; f_equal; lia.
  - reflexivity.
Qed.

(** The entries of a counter: one per key that occurs, holding the number
    of records with that key. *)
Lemma entries_countBy (key : Defect -> string) (data : list Defect) :
  plainKeys key data ->
  List.NoDup (map fst (JS.Object_entries (countBy key data)))
  /\ forall (k : string) (n : nat),
       In (k, n) (JS.Object_entries (countBy key data))
       <-> n = countIf (fun d => String.eqb (key d) k) data /\ 1 <= n.
Proof.
  intros Hplain. pose proof (countBy_keys_NoDup key data) as Hnd.
  pose proof (Object_entries_perm (countBy key data)) as Hperm. split.
  - apply (Permutation_NoDup (l := map fst (countBy key data))); [| exact Hnd].
    symmetry. now apply Permutation_map.
  - intros k n.
    transitivity (In (k, n) (countBy key data)).
    { split; apply Permutation_in; [exact Hperm | symmetry; exact Hperm]. }
    rewrite (In_get _ _ _ Hnd), (countBy_plain key data Hplain), get_fold_countStep. simpl.
    destruct (countIf _ data) as [| m]; split.
    + discriminate.
    + intros [-> H]. lia.
    + intros H. injection H as <-. lia.
    + intros [-> _]. reflexivity.
Qed.

(** ** Pareto rows and the record counts *)

Lemma map_snd_combine_seq {A : Type} (l : list A) (s : nat) :
  map snd (combine (seq s (length l)) l) = l.
Proof.
  revert s. induction l as [| x l IH]; intros s; simpl; [reflexivity | now rewrite IH].
Qed.

Lemma pareto_rows_entries (counts : JS.dict nat) (total : nat) :
  map (fun r => (Pareto.name r, Pareto.count r)) (Pareto.rows counts total) = ranked counts.
Proof.
  rewrite pareto_rows_ranked, map_map. simpl.
  rewrite <- (map_snd_combine_seq (ranked counts) 0) at 3.
  apply map_ext. now intros [i [k n]].
Qed.

Lemma ranked_In (counts : JS.dict nat) (e : string * nat) :
  In e (ranked counts) <-> In e (JS.Object_entries counts).
Proof. apply Array_sort_In. Qed.

Lemma ranked_keys_NoDup (key : Defect -> string) (data : list Defect) :
  List.NoDup (map fst (ranked (countBy key data))).
Proof.
  apply (Permutation_NoDup (l := map fst (countBy key data))).
  - symmetry. apply Permutation_map, ranked_perm.
  - apply countBy_keys_NoDup.
Qed.

Lemma pareto_rows_count (key : Defect -> string) (data : list Defect) (total : nat) :
  plainKeys key data ->
  let rows := Pareto.rows (countBy key data) total in
  StronglySorted (fun a b => Pareto.count b <= Pareto.count a) rows
  /\ List.NoDup (map Pareto.name rows)
  /\ (forall r : Pareto.Row,
         In r rows ->
         Pareto.count r = countIf (fun d => String.eqb (key d) (Pareto.name r)) data
         /\ 1 <= Pareto.count r)
  /\ (forall d : Defect, In d data -> In (key d) (map Pareto.name rows))
  /\ list_sum (map Pareto.count rows) = length data.
Proof.
  intros Hplain rows. pose proof (pareto_rows_entries (countBy key data) total) as Hent.
  fold rows in Hent.
  assert (Hnames : map Pareto.name rows = map fst (ranked (countBy key data)))
    by (rewrite <- Hent, map_map; reflexivity).
  assert (Hcounts : map Pareto.count rows = map snd (ranked (countBy key data)))
    by (rewrite <- Hent, map_map; reflexivity).
  destruct (entries_countBy key data Hplain) as [_ Hin].
  split; [| split; [| split; [| split]]].
  - assert (Hs : StronglySorted (fun a b : string * nat => snd b <= snd a)
                                (map (fun r => (Pareto.name r, Pareto.count r)) rows)).
    { rewrite Hent. apply sorted_by_count. }
    clear - Hs. induction rows as [| r rows IH]; [constructor |].
    simpl in Hs. inversion_clear Hs as [| ? ? Hs' Hr]. constructor; [now apply IH |].
    rewrite List.Forall_map in Hr. exact Hr.
  - rewrite Hnames. apply ranked_keys_NoDup.
  - intros r Hr. apply Hin, ranked_In. rewrite <- Hent.
    apply (in_map (fun r => (Pareto.name r, Pareto.count r))), Hr.
  - intros d Hd. rewrite Hnames.
    assert (Hpos : 1 <= countIf (fun d' => String.eqb (key d') (key d)) data).
    { clear - Hd. induction data as [| x l IH]; [destruct Hd |].
      rewrite countIf_cons. destruct Hd as [-> | Hd]; [rewrite String.eqb_refl; lia |].
      specialize (IH Hd). lia. }
    change (key d) with (fst (key d, countIf (fun d' => String.eqb (key d') (key d)) data)).
    apply in_map, ranked_In, Hin. split; [reflexivity | exact Hpos].
  - rewrite Hcounts. now apply ranked_sum.
Qed.

(** X8: when no defect name is a property name of [Object.prototype], the
    defect table of the Pareto engine has one row per defect name that
    occurs, holding the number of records with it; the rows are in order of
    non-increasing count and their counts add up to the number of records.
    The same holds of the part table when no part is such a name. *)
Theorem pareto_rows_count_the_records
        (data : list Defect) (key : Defect -> string) (rows : list Pareto.Row) :
  key = Defect.defectName /\ rows = Pareto.defectsPareto (Pareto.pareto data)
  \/ key = Defect.partOfCar /\ rows = Pareto.partsPareto (Pareto.pareto data) ->
  plainKeys key data ->
  StronglySorted (fun a b => Pareto.count b <= Pareto.count a) rows
  /\ List.NoDup (map Pareto.name rows)
  /\ (forall r : Pareto.Row,
         In r rows ->
         Pareto.count r = countIf (fun d => String.eqb (key d) (Pareto.name r)) data
         /\ 1 <= Pareto.count r)
  /\ (forall d : Defect, In d data -> In (key d) (map Pareto.name rows))
  /\ list_sum (map Pareto.count rows) = length data.
Proof.
  rewrite pareto_unfold. cbn [Pareto.defectsPareto Pareto.partsPareto].
  intros [[-> ->] | [-> ->]] Hplain; now apply pareto_rows_count.
Qed.

Lemma pareto_rows_count_the_records_witness :
  list_sum (map Pareto.count (Pareto.partsPareto (Pareto.pareto Sample.four)))
  = length Sample.four.
Proof.
  apply (pareto_rows_count_the_records Sample.four Defect.partOfCar).
  - right. split; reflexivity.
  - reflexivity.
Defined.

(** ** Grouping loops *)

Section GroupLoop.
Context {V : Type}.
Variables (key : Defect -> string) (init : Defect -> V) (upd : V -> Defect -> V).

Lemma get_groupStep (acc : JS.dict V) (d : Defect) (k : string) :
  JS.get (groupStep key init upd acc d) k
  = if String.eqb (key d) k
    then Some (upd (default (init d) (JS.get acc k)) d)
    else JS.get acc k.
Proof.
  unfold groupStep. destruct (String.eqb_spec (key d) k) as [<- | Hne].
  - apply get_set_eq.
  - now apply get_set_ne.
Qed.

(** The group of a key after the loop: the fold of [upd] over the records
    of that key, in order, started from what was there or from [init]. *)
Lemma get_fold_groupStep (data : list Defect) (acc : JS.dict V) (k : string) :
  JS.get (fold_left (groupStep key init upd) data acc) k
  = match matching key k data with
    | [] => JS.get acc k
    | d0 :: l => Some (fold_left upd (d0 :: l) (default (init d0) (JS.get acc k)))
    end.
Proof.
  revert acc. induction data as [| d data IH]; intros acc; [reflexivity |].
  cbn [fold_left]. rewrite IH, get_groupStep. unfold matching. cbn [List.filter].
  destruct (String.eqb (key d) k); [| reflexivity].
  fold (matching key k data). now destruct (matching key k data).
Qed.

Lemma fold_groupStep_keys_NoDup (data : list Defect) (acc : JS.dict V) :
  List.NoDup (map fst acc) ->
  List.NoDup (map fst (fold_left (groupStep key init upd) data acc)).
Proof.
  revert acc. induction data as [| d data IH]; intros acc Hacc; simpl; [exact Hacc |].
  apply IH. unfold groupStep. now apply keys_set_NoDup.
Qed.

Lemma set_weight (w : V -> nat) (o : JS.dict V) (k : string) (v : V) :
  list_sum (map (fun e => w (snd e)) (JS.set o k v))
  + match JS.get o k with Some u => w u | None => 0 end
  = list_sum (map (fun e => w (snd e)) o) + w v.
Proof.
  induction o as [| [k' v'] o IH]; simpl; [lia |].
  destruct (String.eqb k k'); simpl; lia.
Qed.

(** A measure that every update raises by one adds up to the number of
    records. *)
Lemma fold_groupStep_weight (w : V -> nat) (data : list Defect) (acc : JS.dict V) :
  (forall d, w (init d) = 0) -> (forall a d, w (upd a d) = w a + 1) ->
  list_sum (map (fun e => w (snd e)) (fold_left (groupStep key init upd) data acc))
  = list_sum (map (fun e => w (snd e)) acc) + length data.
Proof.
  intros Hinit Hupd. revert acc. induction data as [| d data IH]; intros acc; simpl; [lia |].
  rewrite IH. unfold groupStep.
  pose proof (set_weight w acc (key d) (upd (default (init d) (JS.get acc (key d))) d)) as H.
  rewrite Hupd in H. destruct (JS.get acc (key d)) as [u |].
  - change (default (init d) (Some u)) with u in *. lia.
  - change (default (init d) None) with (init d) in *. rewrite Hinit in H. lia.
Qed.

(** The groups after the loop from the empty dictionary: one per key that
    occurs. *)
Lemma groups_spec (data : list Defect) (k : string) (v : V) :
  In (k, v) (JS.Object_entries (fold_left (groupStep key init upd) data []))
  <-> exists (d0 : Defect) (l : list Defect),
        matching key k data = d0 :: l /\ v = fold_left upd (d0 :: l) (init d0).
Proof.
  pose proof (fold_groupStep_keys_NoDup data [] (List.NoDup_nil _)) as Hnd.
  transitivity (In (k, v) (fold_left (groupStep key init upd) data [])).
  { split; apply Permutation_in; [| symmetry]; apply Object_entries_perm. }
  rewrite (In_get _ _ _ Hnd), get_fold_groupStep. simpl.
  destruct (matching key k data) as [| d0 l]; split.
  - discriminate.
  - intros (d & l' & H & _). discriminate H.
  - intros H. injection H as <-. now exists d0, l.
  - intros (d & l' & H & ->). now injection H as -> ->.
Qed.

Lemma groups_keys_NoDup (data : list Defect) :
  List.NoDup (map fst (JS.Object_entries (fold_left (groupStep key init upd) data []))).
Proof.
  apply (Permutation_NoDup (l := map fst (fold_left (groupStep key init upd) data []))).
  - symmetry. apply Permutation_map, Object_entries_perm.
  - apply fold_groupStep_keys_NoDup. constructor.
Qed.

Lemma groups_weight (w : V -> nat) (data : list Defect) :
  (forall d, w (init d) = 0) -> (forall a d, w (upd a d) = w a + 1) ->
  list_sum (map (fun e => w (snd e))
                (JS.Object_entries (fold_left (groupStep key init upd) data [])))
  = length data.
Proof.
  intros Hinit Hupd.
  rewrite (Permutation_list_sum
             (Permutation_map (fun e => w (snd e))
                (Object_entries_perm (fold_left (groupStep key init upd) data [])))).
  now rewrite fold_groupStep_weight.
Qed.

End GroupLoop.

Lemma matching_In (key : Defect -> string) (k : string) (data : list Defect) (d : Defect) :
  In d (matching key k data) <-> In d data /\ key d = k.
Proof.
  unfold matching. rewrite List.filter_In, String.eqb_eq. tauto.
Qed.

Lemma matching_length (key : Defect -> string) (k : string) (data : list Defect) :
  length (matching key k data) = countIf (fun d => String.eqb (key d) k) data.
Proof. reflexivity. Qed.

Lemma countsBy_entries (key : Defect -> string) (data : list Defect)
      (pairs : list (string * nat)) :
  plainKeys key data ->
  Permutation pairs (JS.Object_entries (countBy key data)) -> countsBy key data pairs.
Proof.
  intros Hplain Hperm. destruct (entries_countBy key data Hplain) as [Hnd Hin].
  split; [| split].
  - apply (Permutation_NoDup (l := map fst (JS.Object_entries (countBy key data))));
      [symmetry; now apply Permutation_map | exact Hnd].
  - intros k n. rewrite <- Hin. split; apply Permutation_in; [| symmetry]; exact Hperm.
  - rewrite (Permutation_list_sum (Permutation_map snd Hperm)).
    rewrite (Permutation_list_sum (Permutation_map snd (Object_entries_perm _))).
    now rewrite (countBy_plain key data Hplain), fold_countStep_sum.
Qed.

(** ** Aggregation engine *)

Lemma indexed_map_values {V W : Type} (h : V -> W) (o : JS.dict V) :
  JS.indexed (map (fun e => (fst e, h (snd e))) o)
  = map (fun ne => (fst ne, (fst (snd ne), h (snd (snd ne))))) (JS.indexed o).
Proof.
  induction o as [| [k v] o IH]; simpl; [reflexivity |].
  destruct (JS.array_index k); simpl; now rewrite IH.
Qed.

Lemma named_map_values {V W : Type} (h : V -> W) (o : JS.dict V) :
  JS.named (map (fun e => (fst e, h (snd e))) o)
  = map (fun e => (fst e, h (snd e))) (JS.named o).
Proof.
  induction o as [| [k v] o IH]; simpl; [reflexivity |].
  destruct (JS.array_index k); simpl; now rewrite IH.
Qed.

Lemma index_insert_map_values {V W : Type} (h : V -> W) (e : N * (string * V))
      (l : list (N * (string * V))) :
  JS.index_insert (fst e, (fst (snd e), h (snd (snd e))))
                  (map (fun ne => (fst ne, (fst (snd ne), h (snd (snd ne))))) l)
  = map (fun ne => (fst ne, (fst (snd ne), h (snd (snd ne))))) (JS.index_insert e l).
Proof.
  induction l as [| e' l IH]; simpl; [reflexivity |].
  destruct (fst e' <? fst e)%N; simpl; [now rewrite IH | reflexivity].
Qed.

(** Rewriting the values of a dictionary in place does not move its
    entries. *)
Lemma Object_entries_map_values {V W : Type} (h : V -> W) (o : JS.dict V) :
  JS.Object_entries (map (fun e => (fst e, h (snd e))) o)
  = map (fun e => (fst e, h (snd e))) (JS.Object_entries o).
Proof.
  unfold JS.Object_entries. rewrite indexed_map_values, named_map_values, map_app.
  f_equal.
  assert (H : fold_right JS.index_insert []
                (map (fun ne : N * (string * V) => (fst ne, (fst (snd ne), h (snd (snd ne)))))
                     (JS.indexed o))
              = map (fun ne => (fst ne, (fst (snd ne), h (snd (snd ne)))))
                    (fold_right JS.index_insert [] (JS.indexed o))).
  { induction (JS.indexed o) as [| e l IH]; simpl; [reflexivity |].
    rewrite IH. apply index_insert_map_values. }
  rewrite H, !map_map. reflexivity.
Qed.

(** A grouping loop that counts the records of a key and collects one of
    their measures. *)
Section Collecting.
Context {V : Type}.
Variables (key : Defect -> string) (measure : Defect -> number).
Variables (init : V) (upd : V -> Defect -> V) (cnt : V -> nat) (vals : V -> list number).
Hypothesis cnt_init : cnt init = 0.
Hypothesis vals_init : vals init = [].
Hypothesis cnt_upd : forall a d, cnt (upd a d) = cnt a + 1.
Hypothesis vals_upd : forall a d, vals (upd a d) = vals a ++ [measure d].

Lemma collected (l : list Defect) (a : V) :
  cnt (fold_left upd l a) = cnt a + length l
  /\ vals (fold_left upd l a) = vals a ++ map measure l.
Proof.
  revert a. induction l as [| d l IH]; intros a; simpl.
  - split; [lia | now rewrite app_nil_r].
  - destruct (IH (upd a d)) as [Hc Hv]. rewrite Hc, Hv, cnt_upd, vals_upd.
    split; [lia | now rewrite <- app_assoc].
Qed.

Lemma collecting_groups (data : list Defect) :
  let groups := JS.Object_entries (fold_left (groupStep key (fun _ => init) upd) data []) in
  List.NoDup (map fst groups)
  /\ (forall d : Defect, In d data -> In (key d) (map fst groups))
  /\ (forall e : string * V,
         In e groups ->
         matching key (fst e) data <> []
         /\ cnt (snd e) = length (matching key (fst e) data)
         /\ vals (snd e) = map measure (matching key (fst e) data))
  /\ list_sum (map (fun e => cnt (snd e)) groups) = length data.
Proof.
  intros groups. split; [apply groups_keys_NoDup |]. split; [| split].
  - intros d Hd.
    assert (Hm : In d (matching key (key d) data)) by now apply matching_In.
    destruct (matching key (key d) data) as [| d0 l] eqn:E; [destruct Hm |].
    change (key d) with (fst (key d, fold_left upd (d0 :: l) init)).
    apply in_map. apply groups_spec. now exists d0, l.
  - intros [k v] He. apply groups_spec in He as (d0 & l & Hm & ->). cbn [fst snd].
    rewrite Hm. destruct (collected (d0 :: l) init) as [Hc Hv].
    rewrite Hc, Hv, cnt_init, vals_init. repeat split. discriminate.
  - apply (groups_weight key (fun _ => init) upd cnt data); [intros _; exact cnt_init |].
    exact cnt_upd.
Qed.

End Collecting.

Lemma countsBy_rows {R : Type} (key : Defect -> string) (data : list Defect)
      (mk : string * nat -> R) (back : R -> string * nat) (entries : list (string * nat)) :
  plainKeys key data ->
  (forall e, back (mk e) = e) ->
  Permutation entries (JS.Object_entries (countBy key data)) ->
  countsBy key data (map back (map mk entries)).
Proof.
  intros Hplain Hback Hperm. apply countsBy_entries; [exact Hplain |].
  rewrite map_map, (map_ext _ id Hback), map_id. exact Hperm.
Qed.

(** X9: in a record set whose reporters and shifts are no property names
    of [Object.prototype] (with one the aggregation throws), each of the
    per-model, per-station and per-day tables of [analytics] whose keys are
    no such names either has one row per value that occurs, holding the
    number of records with that value, and its counts add up to
    [totalDefects], the number of records. *)
Theorem analytics_tables_count_the_records
        (String_localeCompare : string -> string -> number) (data : list Defect) :
  plainKeys Defect.reporter data ->
  plainKeys Defect.productionShift data ->
  let a := Analytics.analytics String_localeCompare data in
  (plainKeys Defect.carModel data ->
   countsBy Defect.carModel data
            (map (fun r => (Analytics.name r, Analytics.value r)) (Analytics.defectsByModel a)))
  /\ (plainKeys Defect.station data ->
      countsBy Defect.station data
               (map (fun r => (Analytics.station r, Analytics.station_count r))
                    (Analytics.stationDefects a)))
  /\ (plainKeys Defect.date data ->
      countsBy Defect.date data
               (map (fun r => (Analytics.date r, Analytics.date_count r))
                    (Analytics.defectsByDate a)))
  /\ Analytics.totalDefects a = length data.
Proof.
  intros _ _ a. unfold a, Analytics.analytics.
  cbn [Analytics.defectsByModel Analytics.stationDefects Analytics.defectsByDate
       Analytics.totalDefects].
  split; [| split; [| split]].
  - intros Hplain.
    apply (countsBy_rows Defect.carModel data
             (fun e => {| Analytics.name := fst e; Analytics.value := snd e |}));
      [exact Hplain | now intros [k n] | reflexivity].
  - intros Hplain.
    apply (countsBy_rows Defect.station data
             (fun e => {| Analytics.station := fst e; Analytics.station_count := snd e |}));
      [exact Hplain | now intros [k n] | reflexivity].
  - intros Hplain.
    apply (countsBy_rows Defect.date data
             (fun e => {| Analytics.date := fst e; Analytics.date_count := snd e |}));
      [exact Hplain | now intros [k n] | apply Array_sort_perm].
  - reflexivity.
Qed.

Lemma analytics_tables_count_the_records_witness :
  countsBy Defect.station Sample.four
           (map (fun r => (Analytics.station r, Analytics.station_count r))
                (Analytics.stationDefects (Analytics.analytics (fun _ _ => Fin 0) Sample.four))).
Proof.
  destruct (analytics_tables_count_the_records (fun _ _ => Fin 0) Sample.four
              eq_refl eq_refl) as (_ & H & _).
  apply H. reflexivity.
Defined.

Lemma reporter_loop (data : list Defect) :
  fold_left Analytics.reporterStep data []
  = fold_left
      (groupStep Defect.reporter
         (fun _ => {| Analytics.total := 0; Analytics.avgTime := Num.zero;
                      Analytics.times := [] |})
         (fun a d => {| Analytics.total := Analytics.total a + 1;
                        Analytics.avgTime := Analytics.avgTime a;
                        Analytics.times := Analytics.times a ++ [Defect.resolutionTime d] |}))
      data [].
Proof. reflexivity. Qed.

Lemma shift_loop (data : list Defect) :
  fold_left Analytics.shiftStep data []
  = fold_left
      (groupStep Defect.productionShift
         (fun _ => {| Analytics.count := 0; Analytics.avgSeverity := Num.zero;
                      Analytics.severities := [] |})
         (fun a d => {| Analytics.count := Analytics.count a + 1;
                        Analytics.avgSeverity := Analytics.avgSeverity a;
                        Analytics.severities :=
                          Analytics.severities a ++ [Defect.severityRating d] |}))
      data [].
Proof. reflexivity. Qed.

(** X10: in a record set whose reporters and shifts are no property names
    of [Object.prototype], [reporterPerformance] has one row per reporter
    that occurs, its [total] is the number of that reporter's records, and
    the totals add up to the number of records. *)
Theorem reporter_performance_rows
        (String_localeCompare : string -> string -> number) (data : list Defect) :
  plainKeys Defect.reporter data ->
  plainKeys Defect.productionShift data ->
  let rows := Analytics.reporterPerformance (Analytics.analytics String_localeCompare data) in
  List.NoDup (map Analytics.reporter_name rows)
  /\ (forall d : Defect, In d data -> In (Defect.reporter d) (map Analytics.reporter_name rows))
  /\ (forall r : Analytics.ReporterRow,
         In r rows ->
         let mine := matching Defect.reporter (Analytics.reporter_name r) data in
         mine <> [] /\ Analytics.reporter_total r = length mine)
  /\ list_sum (map Analytics.reporter_total rows) = length data.
Proof.
  intros _ _ rows. unfold rows, Analytics.analytics. cbn [Analytics.reporterPerformance].
  unfold Analytics.withAvgTime.
  rewrite (Object_entries_map_values
             (fun a => {| Analytics.total := Analytics.total a;
                          Analytics.avgTime := Analytics.average (Analytics.times a);
                          Analytics.times := Analytics.times a |})).
  rewrite reporter_loop, !map_map.
  cbn [fst snd Analytics.reporter_name Analytics.reporter_total Analytics.reporter_avgTime
       Analytics.total Analytics.avgTime Analytics.times].
  destruct (collecting_groups Defect.reporter Defect.resolutionTime
              {| Analytics.total := 0; Analytics.avgTime := Num.zero; Analytics.times := [] |}
              (fun a d => {| Analytics.total := Analytics.total a + 1;
                             Analytics.avgTime := Analytics.avgTime a;
                             Analytics.times :=
                               Analytics.times a ++ [Defect.resolutionTime d] |})
              Analytics.total Analytics.times eq_refl eq_refl
              (fun a d => eq_refl) (fun a d => eq_refl) data)
    as (Hnd & Hcover & Hgroups & Hsum).
  split; [exact Hnd |]. split; [exact Hcover |]. split; [| exact Hsum].
  intros r Hr. apply in_map_iff in Hr as (e & <- & He).
  destruct (Hgroups e He) as (Hne & Hc & Hv). cbn -[matching].
  split; [exact Hne | exact Hc].
Qed.

Lemma reporter_performance_rows_witness :
  list_sum (map Analytics.reporter_total
              (Analytics.reporterPerformance
                 (Analytics.analytics (fun _ _ => Fin 0) Sample.four)))
  = length Sample.four.
Proof.
  apply (reporter_performance_rows (fun _ _ => Fin 0) Sample.four); reflexivity.
Defined.

(** X11: in a record set whose reporters and shifts are no property names
    of [Object.prototype], [shiftAnalysis] has one row per production shift
    that occurs, its [count] is the number of that shift's records, and the
    counts add up to the number of records. *)
Theorem shift_analysis_rows
        (String_localeCompare : string -> string -> number) (data : list Defect) :
  plainKeys Defect.reporter data ->
  plainKeys Defect.productionShift data ->
  let rows := Analytics.shiftAnalysis (Analytics.analytics String_localeCompare data) in
  List.NoDup (map Analytics.shift rows)
  /\ (forall d : Defect, In d data -> In (Defect.productionShift d) (map Analytics.shift rows))
  /\ (forall r : Analytics.ShiftRow,
         In r rows ->
         let mine := matching Defect.productionShift (Analytics.shift r) data in
         mine <> [] /\ Analytics.shift_count r = length mine)
  /\ list_sum (map Analytics.shift_count rows) = length data.
Proof.
  intros _ _ rows. unfold rows, Analytics.analytics. cbn [Analytics.shiftAnalysis].
  unfold Analytics.withAvgSeverity.
  rewrite (Object_entries_map_values
             (fun a => {| Analytics.count := Analytics.count a;
                          Analytics.avgSeverity := Analytics.average (Analytics.severities a);
                          Analytics.severities := Analytics.severities a |})).
  rewrite shift_loop, !map_map.
  cbn [fst snd Analytics.shift Analytics.shift_count Analytics.shift_avgSeverity
       Analytics.count Analytics.avgSeverity Analytics.severities].
  destruct (collecting_groups Defect.productionShift Defect.severityRating
              {| Analytics.count := 0; Analytics.avgSeverity := Num.zero;
                 Analytics.severities := [] |}
              (fun a d => {| Analytics.count := Analytics.count a + 1;
                             Analytics.avgSeverity := Analytics.avgSeverity a;
                             Analytics.severities :=
                               Analytics.severities a ++ [Defect.severityRating d] |})
              Analytics.count Analytics.severities eq_refl eq_refl
              (fun a d => eq_refl) (fun a d => eq_refl) data)
    as (Hnd & Hcover & Hgroups & Hsum).
  split; [exact Hnd |]. split; [exact Hcover |]. split; [| exact Hsum].
  intros r Hr. apply in_map_iff in Hr as (e & <- & He).
  destruct (Hgroups e He) as (Hne & Hc & Hv). cbn -[matching].
  split; [exact Hne | exact Hc].
Qed.

Lemma shift_analysis_rows_witness :
  list_sum (map Analytics.shift_count
              (Analytics.shiftAnalysis (Analytics.analytics (fun _ _ => Fin 0) Sample.four)))
  = length Sample.four.
Proof.
  apply (shift_analysis_rows (fun _ _ => Fin 0) Sample.four); reflexivity.
Defined.

(** X12: the five top defects of [analytics] are the first five rows of the
    defect Pareto table, names and counts, and their names are the first
    five of the heatmap's top defects. *)
Theorem top5_defects_agree
        (String_localeCompare : string -> string -> number) (data : list Defect) :
  let top5 := Analytics.top5Defects (Analytics.analytics String_localeCompare data) in
  top5 = firstn 5 (map (fun r => (Pareto.name r, Pareto.count r))
                       (Pareto.defectsPareto (Pareto.pareto data)))
  /\ map fst top5 = firstn 5 (Heatmap.topDefects (Heatmap.heatmap data))
  /\ length top5 <= 5.
Proof.
  intros top5. unfold top5, Analytics.analytics. cbn [Analytics.top5Defects].
  fold (ranked (countBy Defect.defectName data)). unfold JS.slice0.
  rewrite pareto_unfold. cbn [Pareto.defectsPareto]. rewrite pareto_rows_entries.
  rewrite heatmap_topDefects, firstn_map, firstn_firstn. simpl Nat.min.
  repeat split. apply firstn_le_length.
Qed.

(** ** Heatmap bounds and colours *)

(** The rows of one defect: a cell per station and shift. *)
Lemma running_max (rows : list Heatmap.Row) (m0 : nat) :
  let m := fold_left (fun m r =>
                        match Heatmap.count r with
                        | Heatmap.Counted c => if (m <? c)%nat then c else m
                        | Heatmap.Prototype => m
                        end)
                     rows m0 in
  m0 <= m
  /\ (forall r n, In r rows -> Heatmap.count r = Heatmap.Counted n -> n <= m)
  /\ (m = m0 \/ exists r, In r rows /\ Heatmap.count r = Heatmap.Counted m).
Proof.
  revert m0. induction rows as [| r rows IH]; intros m0; simpl.
  - split; [lia |]. split; [intros r n [] | now left].
  - destruct (Heatmap.count r) as [c |] eqn:Hc.
    + destruct (IH (if (m0 <? c)%nat then c else m0)) as (Hle & Hall & Hex).
      destruct (m0 <? c)%nat eqn:E; [apply Nat.ltb_lt in E | apply Nat.ltb_ge in E].
      * split; [lia |]. split.
        -- intros r' n [<- | Hr'] Hn; [| now apply (Hall r')].
           rewrite Hc in Hn. injection Hn as <-. exact Hle.
        -- right. destruct Hex as [Hex | (r' & Hr' & Hc')].
           ++ exists r. split; [now left |]. now rewrite Hc, Hex.
           ++ exists r'. split; [now right | exact Hc'].
      * split; [exact Hle |]. split.
        -- intros r' n [<- | Hr'] Hn; [| now apply (Hall r')].
           rewrite Hc in Hn. injection Hn as <-. lia.
        -- destruct Hex as [Hex | (r' & Hr' & Hc')]; [now left |].
           right. exists r'. split; [now right | exact Hc'].
    + destruct (IH m0) as (Hle & Hall & Hex). split; [exact Hle |]. split.
      * intros r' n [<- | Hr'] Hn; [| now apply (Hall r')].
        rewrite Hc in Hn. discriminate Hn.
      * destruct Hex as [Hex | (r' & Hr' & Hc')]; [now left |].
        right. exists r'. split; [now right | exact Hc'].
Qed.

Lemma topN_length (data : list Defect) : length (Heatmap.topN data) <= 6.
Proof.
  unfold Heatmap.topN, JS.slice0. rewrite length_map. apply firstn_le_length.
Qed.

Lemma length_cells {A B C : Type} (f : A -> B -> C) (l1 : list A) (l2 : list B) :
  length (flat_map (fun a => map (f a) l2) l1) = length l1 * length l2.
Proof.
  induction l1 as [| a l1 IH]; simpl; [reflexivity |].
  now rewrite length_app, length_map, IH.
Qed.

Lemma length_blocks {A B : Type} (f : A -> list B) (l : list A) (n : nat) :
  (forall x, length (f x) = n) -> length (flat_map f l) = length l * n.
Proof.
  intros H. induction l as [| x l IH]; simpl; [reflexivity |].
  now rewrite length_app, H, IH.
Qed.

(** The largest count, with no shift named [__proto__]. *)
Lemma heatmap_shape_bounds_aux (data : list Defect) :
  plainKeys Defect.productionShift data ->
  let h := Heatmap.heatmap data in
  1 <= Heatmap.maxCount h
  /\ (forall r : Heatmap.Row,
         In r (Heatmap.rows h) ->
         exists n, Heatmap.count r = Heatmap.Counted n /\ n <= Heatmap.maxCount h)
  /\ (Heatmap.maxCount h = 1
      \/ exists r : Heatmap.Row,
           In r (Heatmap.rows h) /\ Heatmap.count r = Heatmap.Counted (Heatmap.maxCount h)).
Proof.
  intros Hplain h. unfold h.
  change (Heatmap.maxCount (Heatmap.heatmap data))
    with (Nat.max
            (fold_left (fun m r =>
                          match Heatmap.count r with
                          | Heatmap.Counted c => if (m <? c)%nat then c else m
                          | Heatmap.Prototype => m
                          end)
                       (Heatmap.rows (Heatmap.heatmap data)) 0) 1).
  destruct (running_max (Heatmap.rows (Heatmap.heatmap data)) 0) as (_ & Hall & Hex).
  split; [lia |]. split.
  - intros r Hr. pose proof (heatmap_rows_counted data r Hplain Hr) as Hc.
    eexists. split; [exact Hc |]. specialize (Hall r _ Hr Hc). lia.
  - destruct Hex as [Hex | (r & Hr & Hc)].
    + left. rewrite Hex. reflexivity.
    + set (m := fold_left _ _ 0) in *.
      destruct (Nat.le_gt_cases 1 m) as [H1 | H1].
      * right. exists r. split; [exact Hr |]. now replace (Nat.max m 1) with m by lia.
      * left. lia.
Qed.

(** X13: in a record set in which no defect name, station or shift is a
    property name of [Object.prototype], the heatmap has a row for each of
    its at most six top defects at each station and shift of the record
    set, every cell holds a number, none above [maxCount], and [maxCount]
    is at least 1 and equals 1 or the count of some row. *)
Theorem heatmap_shape_and_bounds (data : list Defect) :
  plainKeys Defect.defectName data ->
  plainKeys Defect.station data ->
  plainKeys Defect.productionShift data ->
  let h := Heatmap.heatmap data in
  length (Heatmap.topDefects h) <= 6
  /\ length (Heatmap.rows h)
     = length (Heatmap.topDefects h) * (length (Heatmap.stations h) * length (Heatmap.shifts h))
  /\ (forall d : Defect,
         In d data ->
         In (Defect.station d) (Heatmap.stations h)
         /\ In (Defect.productionShift d) (Heatmap.shifts h))
  /\ List.NoDup (Heatmap.stations h) /\ List.NoDup (Heatmap.shifts h)
  /\ 1 <= Heatmap.maxCount h
  /\ (forall r : Heatmap.Row,
         In r (Heatmap.rows h) ->
         exists n, Heatmap.count r = Heatmap.Counted n /\ n <= Heatmap.maxCount h)
  /\ (Heatmap.maxCount h = 1
      \/ exists r : Heatmap.Row,
           In r (Heatmap.rows h) /\ Heatmap.count r = Heatmap.Counted (Heatmap.maxCount h)).
Proof.
  intros _ _ Hplain h.
  destruct (heatmap_shape_bounds_aux data Hplain) as (Hpos & Hall & Hex).
  fold h in Hpos, Hall, Hex. unfold h.
  change (Heatmap.topDefects (Heatmap.heatmap data)) with (Heatmap.topN data).
  change (Heatmap.stations (Heatmap.heatmap data)) with (JS.Set_from (map Defect.station data)).
  change (Heatmap.shifts (Heatmap.heatmap data))
    with (JS.Set_from (map Defect.productionShift data)).
  split; [apply topN_length |]. split.
  { rewrite heatmap_rows_unfold. apply length_blocks. intros x. apply length_cells. }
  split.
  { intros d Hd. split; apply Set_from_In, in_map, Hd. }
  split; [apply Set_from_NoDup |]. split; [apply Set_from_NoDup |].
  split; [exact Hpos |]. split; [exact Hall | exact Hex].
Qed.

Lemma heatmap_shape_and_bounds_witness :
  length (Heatmap.rows (Heatmap.heatmap Sample.four))
  = length (Heatmap.topDefects (Heatmap.heatmap Sample.four))
    * (length (Heatmap.stations (Heatmap.heatmap Sample.four))
       * length (Heatmap.shifts (Heatmap.heatmap Sample.four))).
Proof.
  apply (heatmap_shape_and_bounds Sample.four); reflexivity.
Defined.

Lemma ratio_lt (c M : nat) (p : Z) (q : positive) :
  1 <= M ->
  Num.ltb (Fin (inject_Z (Z.of_nat c) / inject_Z (Z.of_nat M))) (Fin (p # q)) = true
  <-> (Z.of_nat c * Zpos q < p * Z.of_nat M)%Z.
Proof.
  intros HM. rewrite ltb_Fin.
  destruct (Z.of_nat M) as [| pm | pm] eqn:E; [lia | | lia].
  unfold Qlt, Qdiv, Qmult, Qinv, inject_Z. simpl. nia.
Qed.

Lemma ratio_zero (c M : nat) :
  1 <= M ->
  Num.eqb (Fin (inject_Z (Z.of_nat c) / inject_Z (Z.of_nat M))) (Fin 0) = true <-> c = 0.
Proof.
  intros HM. unfold Num.eqb. rewrite Qeq_bool_iff.
  destruct (Z.of_nat M) as [| pm | pm] eqn:E; [lia | | lia].
  unfold Qeq, Qdiv, Qmult, Qinv, inject_Z. simpl. lia.
Qed.

Lemma heat_ratio (c m : nat) :
  Num.div (Num.of_nat c) (Math_max (Num.of_nat m) (Fin 1))
  = Fin (inject_Z (Z.of_nat c) / inject_Z (Z.of_nat (Nat.max m 1))).
Proof.
  destruct m as [| m]; [reflexivity |].
  replace (Nat.max (S m) 1) with (S m) by lia.
  assert (Hmax : Math_max (Num.of_nat (S m)) (Fin 1) = Num.of_nat (S m)).
  { unfold Math_max, Num.of_nat. destruct (Num.ltb _ _) eqn:E; [| reflexivity].
    apply ltb_Fin in E. unfold Qlt, inject_Z in E. simpl in E. lia. }
  rewrite Hmax. unfold Num.div, Num.of_nat.
  destruct (Qeq_bool (inject_Z (Z.of_nat (S m))) 0) eqn:E; [| reflexivity].
  apply Qeq_bool_eq in E. unfold Qeq, inject_Z in E. simpl in E. lia.
Qed.

(** X14: on two counts, the colour scale is decided by whole-number
    comparisons against the larger of the maximum and 1: no colour for 0,
    then below a quarter, below a half, below three quarters, and the rest;
    so a zero maximum never divides by zero. *)
Theorem heatColor_bands (c m : nat) :
  let M := Nat.max m 1 in
  heatColor (Num.of_nat c) (Num.of_nat m)
  = if (c =? 0)%nat then "bg-slate-700"
    else if (4 * c <? M)%nat then "bg-emerald-700"
    else if (2 * c <? M)%nat then "bg-emerald-500"
    else if (4 * c <? 3 * M)%nat then "bg-amber-500"
    else "bg-red-500".
Proof.
  intros M. unfold heatColor. rewrite heat_ratio. fold M.
  assert (HM : 1 <= M) by (unfold M; lia).
  pose proof (ratio_zero c M HM) as H0.
  pose proof (ratio_lt c M 25 100 HM) as H1.
  pose proof (ratio_lt c M 5 10 HM) as H2.
  pose proof (ratio_lt c M 75 100 HM) as H3.
  change (25 # 100) with 0.25%Q in H1. change (5 # 10) with 0.5%Q in H2.
  change (75 # 100) with 0.75%Q in H3.
  destruct (Num.eqb _ (Fin 0)).
  { replace (c =? 0)%nat with true; [reflexivity |].
    symmetry. apply Nat.eqb_eq. now apply H0. }
  replace (c =? 0)%nat with false
    by (symmetry; apply Nat.eqb_neq; intros Hc; apply H0 in Hc; discriminate Hc).
  destruct (Num.ltb _ (Fin 0.25)).
  { replace (4 * c <? M)%nat with true; [reflexivity |].
    symmetry. apply Nat.ltb_lt. assert (H := proj1 H1 eq_refl). lia. }
  replace (4 * c <? M)%nat with false
    by (symmetry; apply Nat.ltb_ge; destruct (Nat.le_gt_cases M (4 * c)) as [H | H];
        [exact H | assert (H' : false = true) by (apply H1; lia); discriminate H']).
  destruct (Num.ltb _ (Fin 0.5)).
  { replace (2 * c <? M)%nat with true; [reflexivity |].
    symmetry. apply Nat.ltb_lt. assert (H := proj1 H2 eq_refl). lia. }
  replace (2 * c <? M)%nat with false
    by (symmetry; apply Nat.ltb_ge; destruct (Nat.le_gt_cases M (2 * c)) as [H | H];
        [exact H | assert (H' : false = true) by (apply H2; lia); discriminate H']).
  destruct (Num.ltb _ (Fin 0.75)).
  { replace (4 * c <? 3 * M)%nat with true; [reflexivity |].
    symmetry. apply Nat.ltb_lt. assert (H := proj1 H3 eq_refl). lia. }
  replace (4 * c <? 3 * M)%nat with false; [reflexivity |].
  symmetry; apply Nat.ltb_ge; destruct (Nat.le_gt_cases (3 * M) (4 * c)) as [H | H];
    [exact H | assert (H' : false = true) by (apply H3; lia); discriminate H'].
Qed.

Lemma countIf_positive {A : Type} (p : A -> bool) (l : list A) :
  1 <= countIf p l <-> exists x, In x l /\ p x = true.
Proof.
  unfold countIf. split.
  - intros H. destruct (List.filter p l) as [| x l'] eqn:E; [simpl in H; lia |].
    exists x. apply List.filter_In. rewrite E. now left.
  - intros (x & Hx & Hp). assert (Hin : In x (List.filter p l)) by now apply List.filter_In.
    destruct (List.filter p l); [destruct Hin | simpl; lia].
Qed.

(** On a non-empty record set some cell of the heatmap is not empty. *)
Lemma heatmap_some_cell (data : list Defect) :
  plainKeys Defect.defectName data ->
  plainKeys Defect.productionShift data ->
  data <> [] ->
  exists (r : Heatmap.Row) (n : nat),
    In r (Heatmap.rows (Heatmap.heatmap data))
    /\ Heatmap.count r = Heatmap.Counted n /\ 1 <= n.
Proof.
  intros Hname Hshift Hd. pose proof (ranked_nonempty Defect.defectName data Hname Hd) as Hne.
  destruct (ranked (countBy Defect.defectName data)) as [| [d0 n] L] eqn:HL; [congruence |].
  assert (Htop : In d0 (Heatmap.topN data)).
  { unfold Heatmap.topN, JS.slice0. fold (ranked (countBy Defect.defectName data)).
    rewrite HL. simpl. now left. }
  assert (Hent : In (d0, n) (JS.Object_entries (countBy Defect.defectName data))).
  { apply ranked_In. rewrite HL. now left. }
  apply (entries_countBy Defect.defectName data Hname) in Hent as [-> Hpos].
  apply countIf_positive in Hpos as (x & Hx & Hname'). apply String.eqb_eq in Hname'.
  assert (Hproto : String.eqb (Defect.productionShift x) "__proto__" = false).
  { apply inherited_proto. exact (proj1 (plainKeys_spec _ _) Hshift x Hx). }
  exists {| Heatmap.defectName := d0; Heatmap.station := Defect.station x;
            Heatmap.shift := Defect.productionShift x;
            Heatmap.count :=
              Heatmap.cell (fold_left (Heatmap.fill (Heatmap.topN data)) data ∅)
                           d0 (Defect.station x) (Defect.productionShift x) |}.
  eexists. split; [| split].
  - apply heatmap_row_In. simpl. repeat split; [exact Htop | |]; apply Set_from_In, in_map, Hx.
  - simpl. now apply cell_counted.
  - rewrite (cell_count _ data d0 _ _ Hproto Htop). apply countIf_positive.
    exists x. split; [exact Hx |]. now rewrite Hname', !String.eqb_refl.
Qed.

(** X15: in a record set in which no defect name, station or shift is a
    property name of [Object.prototype], and with the heatmap's own
    [maxCount] as maximum, a cell is left uncoloured exactly when its count
    is 0, a cell that holds the maximum gets the strongest colour, and on a
    non-empty record set some cell does. *)
Theorem heatmap_cell_colours (data : list Defect) :
  plainKeys Defect.defectName data ->
  plainKeys Defect.station data ->
  plainKeys Defect.productionShift data ->
  let h := Heatmap.heatmap data in
  (forall r : Heatmap.Row,
      In r (Heatmap.rows h) ->
      exists n : nat,
        Heatmap.count r = Heatmap.Counted n
        /\ (heatColor (Num.of_nat n) (Num.of_nat (Heatmap.maxCount h)) = "bg-slate-700"
            <-> n = 0)
        /\ (n = Heatmap.maxCount h ->
            heatColor (Num.of_nat n) (Num.of_nat (Heatmap.maxCount h)) = "bg-red-500"))
  /\ (data <> [] ->
      exists (r : Heatmap.Row) (n : nat),
        In r (Heatmap.rows h)
        /\ Heatmap.count r = Heatmap.Counted n
        /\ heatColor (Num.of_nat n) (Num.of_nat (Heatmap.maxCount h)) = "bg-red-500").
Proof.
  intros Hname _ Hshift h.
  destruct (heatmap_shape_bounds_aux data Hshift) as (Hpos & Hall & Hex).
  fold h in Hpos, Hall, Hex.
  assert (Hred : forall c, c = Heatmap.maxCount h ->
                           heatColor (Num.of_nat c) (Num.of_nat (Heatmap.maxCount h))
                           = "bg-red-500").
  { intros c ->. rewrite heatColor_bands.
    replace (Nat.max (Heatmap.maxCount h) 1) with (Heatmap.maxCount h) by lia.
    destruct (Nat.eqb_spec (Heatmap.maxCount h) 0) as [H0 | _]; [lia |].
    replace (4 * Heatmap.maxCount h <? Heatmap.maxCount h)%nat with false
      by (symmetry; apply Nat.ltb_ge; lia).
    replace (2 * Heatmap.maxCount h <? Heatmap.maxCount h)%nat with false
      by (symmetry; apply Nat.ltb_ge; lia).
    replace (4 * Heatmap.maxCount h <? 3 * Heatmap.maxCount h)%nat with false
      by (symmetry; apply Nat.ltb_ge; lia).
    reflexivity. }
  split.
  - intros r Hr. destruct (Hall r Hr) as (n & Hn & _). exists n.
    split; [exact Hn |]. split; [| now apply Hred].
    rewrite heatColor_bands.
    destruct (Nat.eqb_spec n 0) as [H0 | H0]; [tauto |].
    split; [| intros H; contradiction].
    destruct (_ <? _)%nat; [discriminate |].
    destruct (_ <? _)%nat; [discriminate |].
    destruct (_ <? _)%nat; discriminate.
  - intros Hd. destruct (heatmap_some_cell data Hname Hshift Hd) as (r0 & n0 & Hr0 & Hn0 & Hc0).
    fold h in Hr0. destruct (Hall r0 Hr0) as (n0' & Hn0' & Hle).
    assert (n0' = n0) by congruence. subst n0'.
    destruct Hex as [H1 | (r & Hr & Hc)].
    + exists r0, n0. split; [exact Hr0 |]. split; [exact Hn0 |]. apply Hred. lia.
    + exists r, (Heatmap.maxCount h). split; [exact Hr |]. split; [exact Hc |]. now apply Hred.
Qed.

Lemma heatmap_cell_colours_witness :
  exists (r : Heatmap.Row) (n : nat),
    In r (Heatmap.rows (Heatmap.heatmap Sample.four))
    /\ Heatmap.count r = Heatmap.Counted n
    /\ heatColor (Num.of_nat n) (Num.of_nat (Heatmap.maxCount (Heatmap.heatmap Sample.four)))
       = "bg-red-500".
Proof.
  apply (heatmap_cell_colours Sample.four); [reflexivity | reflexivity | reflexivity |].
  discriminate.
Defined.

Lemma countIf_by_key_within {A : Type} (p : A -> bool) (key : A -> string)
      (keys : list string) (l : list A) :
  List.NoDup keys ->
  (forall r, In r l -> p r = true -> In (key r) keys) ->
  list_sum (map (fun x => countIf (fun r => p r && String.eqb (key r) x) l) keys)
  = countIf p l.
Proof.
  intros Hnd Hkeys.
  assert (H := countIf_by_key (fun _ => true) key keys (List.filter p l) Hnd).
  unfold countIf in *. rewrite (filter_all (fun _ => true)) in H by reflexivity.
  rewrite <- H.
  - apply (f_equal list_sum), map_ext. intros x. rewrite filter_twice.
    apply (f_equal (@length A)), List.filter_ext. intros r. reflexivity.
  - intros r Hr. apply List.filter_In in Hr as [Hr Hp]. now apply Hkeys.
Qed.

(** X16: in a record set in which no defect name, station or shift is a
    property name of [Object.prototype], all the cells of the heatmap hold
    numbers, and together they count exactly the records whose defect is
    one of the top defects; the records of any other defect are in no
    cell. *)
Theorem heatmap_counts_only_top_defects (data : list Defect) :
  plainKeys Defect.defectName data ->
  plainKeys Defect.station data ->
  plainKeys Defect.productionShift data ->
  let h := Heatmap.heatmap data in
  cellSum (Heatmap.rows h)
  = Some (countIf (fun d => JS.Array_includes (Heatmap.topDefects h) (Defect.defectName d))
                  data)
  /\ countIf (fun d => JS.Array_includes (Heatmap.topDefects h) (Defect.defectName d)) data
     <= length data.
Proof.
  intros _ _ Hplain h. split; [| unfold countIf; apply List.filter_length_le].
  set (cube := fold_left (Heatmap.fill (Heatmap.topN data)) data ∅).
  set (number := fun r : Heatmap.Row =>
                   cellCount cube (Heatmap.defectName r) (Heatmap.station r) (Heatmap.shift r)).
  rewrite (cellSum_counted number) by (intros r Hr; now apply heatmap_rows_counted).
  f_equal. unfold h. rewrite heatmap_rows_unfold, list_sum_flat_map.
  change (Heatmap.topDefects (Heatmap.heatmap data)) with (Heatmap.topN data).
  rewrite <- (countIf_by_key_within
                (fun d => JS.Array_includes (Heatmap.topN data) (Defect.defectName d))
                Defect.defectName (Heatmap.topN data) data (topN_NoDup data))
    by (intros r _ Hr; now apply Array_includes_In).
  apply (f_equal list_sum), map_ext_in. intros x Hx.
  unfold number, cube. rewrite (heatmap_defect_total data x Hplain Hx).
  apply countIf_ext. intros d.
  destruct (String.eqb_spec (Defect.defectName d) x) as [-> | Hne].
  - apply Array_includes_In in Hx. now rewrite Hx.
  - now rewrite andb_false_r.
Qed.

Lemma heatmap_counts_only_top_defects_witness :
  cellSum (Heatmap.rows (Heatmap.heatmap Sample.four))
  = Some (countIf (fun d => JS.Array_includes
                              (Heatmap.topDefects (Heatmap.heatmap Sample.four))
                              (Defect.defectName d))
                  Sample.four).
Proof.
  apply (heatmap_counts_only_top_defects Sample.four); reflexivity.
Defined.

(** ** Triads *)

Lemma triads_loop (data : list Defect) :
  fold_left Triads.accumulate data []
  = fold_left (groupStep Triads.keyOf triadInit triadUpd) data [].
Proof. reflexivity. Qed.

Lemma fold_add_from (values : list number) (a : number) :
  fold_left (fun x y => Num.add x y) values (Num.add Num.zero a)
  = fold_left (fun x y => Num.add x y) (a :: values) Num.zero.
Proof. reflexivity. Qed.

Lemma triadUpd_fold (l : list Defect) (g : Triads.Group) :
  let g' := fold_left triadUpd l g in
  Triads.defectName g' = Triads.defectName g
  /\ Triads.station g' = Triads.station g
  /\ Triads.partOfCar g' = Triads.partOfCar g
  /\ Triads.count g' = Triads.count g + length l
  /\ Triads.sumSeverity g'
     = fold_left (fun x y => Num.add x y) (map Defect.severityRating l) (Triads.sumSeverity g)
  /\ Triads.sumResH g'
     = fold_left (fun x y => Num.add x y) (map Defect.resolutionTime l) (Triads.sumResH g)
  /\ Triads.rootCauseNo g'
     = Triads.rootCauseNo g
       + countIf (fun d => match Defect.rootCauseIdentified d with No => true | Yes => false end) l.
Proof.
  revert g. induction l as [| d l IH]; intros g; simpl.
  - unfold countIf. simpl. repeat split; lia.
  - destruct (IH (triadUpd g d)) as (H1 & H2 & H3 & H4 & H5 & H6 & H7).
    rewrite H1, H2, H3, H4, H5, H6, H7, countIf_cons. simpl.
    repeat split; try lia. destruct (Defect.rootCauseIdentified d); lia.
Qed.

(** X17: every triad row stands for the records that share one key
    [defect|||station|||part]: it carries the names of the first of them,
    their number, and the number of them without a root cause, which is at
    most their number. *)
Theorem triad_rows_group_the_records (data : list Defect) (r : Triads.Row) :
  In r (Triads.byCount (Triads.triads data)) \/ In r (Triads.byScore (Triads.triads data)) ->
  exists (d0 : Defect) (rest : list Defect),
    matching Triads.keyOf (Triads.keyOf d0) data = d0 :: rest
    /\ Triads.defectName (Triads.group r) = Defect.defectName d0
    /\ Triads.station (Triads.group r) = Defect.station d0
    /\ Triads.partOfCar (Triads.group r) = Defect.partOfCar d0
    /\ Triads.count (Triads.group r) = length (d0 :: rest)
    /\ Triads.rootCauseNo (Triads.group r)
       = countIf (fun d => match Defect.rootCauseIdentified d with No => true | Yes => false end)
                 (d0 :: rest)
    /\ Triads.rootCauseNo (Triads.group r) <= Triads.count (Triads.group r).
Proof.
  intros Hr.
  assert (Hin : In r (map Triads.withScore
                          (JS.Object_values (fold_left Triads.accumulate data [])))).
  { destruct Hr as [Hr | Hr]; unfold Triads.triads in Hr; simpl in Hr;
      now apply Array_sort_In in Hr. }
  apply in_map_iff in Hin as (g & <- & Hg).
  unfold JS.Object_values in Hg. apply in_map_iff in Hg as ([k g'] & Hk & Hg).
  simpl in Hk. subst g'. rewrite triads_loop in Hg.
  apply groups_spec in Hg as (d0 & rest & Hm & ->).
  assert (Hkey : k = Triads.keyOf d0).
  { assert (H : In d0 (matching Triads.keyOf k data)) by (rewrite Hm; now left).
    apply matching_In in H as [_ H]. now symmetry. }
  subst k. exists d0, rest. split; [exact Hm |].
  destruct (triadUpd_fold (d0 :: rest) (triadInit d0)) as (H1 & H2 & H3 & H4 & H5 & H6 & H7).
  cbn [Triads.group Triads.withScore].
  split; [exact H1 |]. split; [exact H2 |]. split; [exact H3 |].
  split; [exact H4 |]. split; [exact H7 |].
  rewrite H7, H4. cbn [triadInit Triads.count Triads.rootCauseNo].
  unfold countIf. apply List.filter_length_le.
Qed.

Lemma triad_rows_group_the_records_witness :
  exists (r : Triads.Row) (d0 : Defect) (rest : list Defect),
    In r (Triads.byCount (Triads.triads Sample.four))
    /\ matching Triads.keyOf (Triads.keyOf d0) Sample.four = d0 :: rest
    /\ Triads.count (Triads.group r) = length (d0 :: rest).
Proof.
  assert (Hne : exists r, In r (Triads.byCount (Triads.triads Sample.four))).
  { destruct (Triads.byCount (Triads.triads Sample.four)) as [| r l] eqn:E;
      [vm_compute in E; discriminate E |]. exists r. now left. }
  destruct Hne as [r Hin].
  destruct (triad_rows_group_the_records Sample.four r (or_introl Hin))
    as (d0 & rest & Hm & _ & _ & _ & Hc & _).
  exists r, d0, rest. split; [exact Hin |]. split; [exact Hm | exact Hc].
Defined.

(** X18: the two views of the triads hold the same rows; the view by count
    lists them in order of non-increasing count; and the counts of the rows
    add up to the number of records, each record being in exactly one
    triad. *)
Theorem triad_views (data : list Defect) :
  let t := Triads.triads data in
  Permutation (Triads.byCount t) (Triads.byScore t)
  /\ StronglySorted
       (fun a b => Triads.count (Triads.group b) <= Triads.count (Triads.group a))
       (Triads.byCount t)
  /\ list_sum (map (fun r => Triads.count (Triads.group r)) (Triads.byCount t)) = length data
  /\ list_sum (map (fun r => Triads.count (Triads.group r)) (Triads.byScore t)) = length data.
Proof.
  intros t. unfold t, Triads.triads. cbn [Triads.byCount Triads.byScore].
  set (rows := map Triads.withScore (JS.Object_values (fold_left Triads.accumulate data []))).
  assert (Hsum : list_sum (map (fun r => Triads.count (Triads.group r)) rows) = length data).
  { unfold rows, JS.Object_values. rewrite !map_map. cbn [Triads.withScore Triads.group].
    rewrite triads_loop.
    apply (groups_weight Triads.keyOf triadInit triadUpd Triads.count data);
      [reflexivity | reflexivity]. }
  split; [| split; [| split]].
  - rewrite !Array_sort_perm. reflexivity.
  - apply (sorted_by_count (fun r => Triads.count (Triads.group r))).
  - rewrite <- Hsum. apply Permutation_list_sum, Permutation_map, Array_sort_perm.
  - rewrite <- Hsum. apply Permutation_list_sum, Permutation_map, Array_sort_perm.
Qed.

(** ** Recurrence explorer *)

Lemma explorer_loop (rows : list Defect)
      (acc : JS.dict Explorer.Sums * JS.dict Explorer.Sums * JS.dict Explorer.Sums) :
  fold_left (fun (acc : JS.dict Explorer.Sums * JS.dict Explorer.Sums * JS.dict Explorer.Sums) r =>
               let '(byStation, byPart, byShift) := acc in
               (Explorer.bump byStation (Defect.station r) r,
                Explorer.bump byPart (Defect.partOfCar r) r,
                Explorer.bump byShift (Defect.productionShift r) r))
            rows acc
  = (fold_left (groupStep Defect.station (fun _ => Explorer.noSums) explorerUpd) rows
               (fst (fst acc)),
     fold_left (groupStep Defect.partOfCar (fun _ => Explorer.noSums) explorerUpd) rows
               (snd (fst acc)),
     fold_left (groupStep Defect.productionShift (fun _ => Explorer.noSums) explorerUpd) rows
               (snd acc)).
Proof.
  revert acc. induction rows as [| r rows IH]; intros [[a b] c]; simpl; [reflexivity |].
  now rewrite IH.
Qed.

Lemma explore_unfold (data : list Defect) (t : string) :
  Explorer.explore data t
  = let rows := matching Defect.defectName t data in
    let s0 := Explorer.shiftStat (explorerGroups Defect.productionShift rows) "Morning" in
    let s1 := Explorer.shiftStat (explorerGroups Defect.productionShift rows) "Afternoon" in
    let s2 := Explorer.shiftStat (explorerGroups Defect.productionShift rows) "Night" in
    {| Explorer.target := t;
       Explorer.topStations := Explorer.top5 (explorerGroups Defect.station rows);
       Explorer.topParts := Explorer.top5 (explorerGroups Defect.partOfCar rows);
       Explorer.shiftStats := [s0; s1; s2];
       Explorer.deltas :=
         JS.Array_sort
           (fun a b => Num.sub (Num.abs (Explorer.deltaCount b))
                               (Num.abs (Explorer.deltaCount a)))
           [Explorer.pair s0 s1; Explorer.pair s1 s2; Explorer.pair s0 s2;
            Explorer.pair s2 s0; Explorer.pair s1 s0; Explorer.pair s2 s1];
       Explorer.samples := JS.slice0 20 rows |}.
Proof.
  unfold Explorer.explore. fold (matching Defect.defectName t data).
  now rewrite explorer_loop.
Qed.

Lemma recurrenceExplorer_Some (data : list Defect) (sel : option string) (e : Explorer.Result) :
  Explorer.recurrenceExplorer data sel = Some e -> e = Explorer.explore data (Explorer.target e).
Proof.
  unfold Explorer.recurrenceExplorer. intros H.
  destruct (negb (Explorer.truthy sel)).
  - destruct (negb (Explorer.truthy (Explorer.top data))); [discriminate |].
    injection H as <-. now rewrite explore_target.
  - injection H as <-. now rewrite explore_target.
Qed.

Lemma explorerUpd_fold (l : list Defect) (v : Explorer.Sums) :
  Explorer.count (fold_left explorerUpd l v) = Explorer.count v + length l
  /\ Explorer.sumResH (fold_left explorerUpd l v)
     = fold_left (fun x y => Num.add x y) (map Defect.resolutionTime l) (Explorer.sumResH v)
  /\ Explorer.sumSev (fold_left explorerUpd l v)
     = fold_left (fun x y => Num.add x y) (map Defect.severityRating l) (Explorer.sumSev v).
Proof.
  revert v. induction l as [| d l IH]; intros v; simpl; [repeat split; lia |].
  destruct (IH (explorerUpd v d)) as (H1 & H2 & H3). rewrite H1, H2, H3. simpl.
  repeat split. lia.
Qed.

Lemma explorer_group_count (key : Defect -> string) (rows : list Defect) (k : string) :
  Explorer.count (default Explorer.noSums (JS.get (explorerGroups key rows) k))
  = countIf (fun d => String.eqb (key d) k) rows.
Proof.
  unfold explorerGroups. rewrite get_fold_groupStep. rewrite <- matching_length.
  destruct (matching key k rows) as [| d0 l]; [reflexivity |].
  change (Explorer.count (fold_left explorerUpd (d0 :: l) Explorer.noSums)
          = length (d0 :: l)).
  now destruct (explorerUpd_fold (d0 :: l) Explorer.noSums) as (-> & _).
Qed.

Lemma countIf_matching (key key' : Defect -> string) (t k : string) (data : list Defect) :
  countIf (fun d => String.eqb (key' d) k) (matching key t data)
  = countIf (fun d => String.eqb (key d) t && String.eqb (key' d) k) data.
Proof. unfold countIf, matching. now rewrite filter_twice. Qed.

Lemma countIf_keys_le {A : Type} (p : A -> bool) (key : A -> string)
      (keys : list string) (l : list A) :
  List.NoDup keys ->
  list_sum (map (fun x => countIf (fun r => p r && String.eqb (key r) x) l) keys)
  <= countIf p l.
Proof.
  intros Hnd.
  assert (H := countIf_by_key_within
                 (fun r => p r && JS.Array_includes keys (key r)) key keys l Hnd).
  rewrite (map_ext_in
             (fun x => countIf (fun r => p r && String.eqb (key r) x) l)
             (fun x => countIf (fun r => (p r && JS.Array_includes keys (key r))
                                         && String.eqb (key r) x) l)).
  - rewrite H.
    + unfold countIf. apply filter_length_le. intros x Hx.
      now apply andb_true_iff in Hx as [Hx _].
    + intros r _ Hr. apply andb_true_iff in Hr as [_ Hr]. now apply Array_includes_In.
  - intros x Hx. apply countIf_ext. intros r.
    destruct (String.eqb_spec (key r) x) as [-> | Hne]; [| now rewrite !andb_false_r].
    apply Array_includes_In in Hx. now rewrite Hx, !andb_true_r.
Qed.



Lemma StronglySorted_firstn {A : Type} (R : A -> A -> Prop) (n : nat) (l : list A) :
  StronglySorted R l -> StronglySorted R (firstn n l).
Proof.
  intros H. revert n. induction H as [| x l Hl IH Hx]; intros [| n]; simpl; try constructor.
  - apply IH.
  - rewrite List.Forall_forall in Hx |- *. intros y Hy. apply Hx. now apply In_slice in Hy.
Qed.

Lemma explorer_top5 (key : Defect -> string) (rows : list Defect) :
  let tops := Explorer.top5 (explorerGroups key rows) in
  length tops <= 5
  /\ StronglySorted (fun a b => Explorer.top_count b <= Explorer.top_count a) tops
  /\ List.NoDup (map Explorer.name tops)
  /\ forall r : Explorer.Top,
       In r tops ->
       let theirs := matching key (Explorer.name r) rows in
       theirs <> [] /\ Explorer.top_count r = length theirs.
Proof.
  intros tops. unfold tops, Explorer.top5, JS.slice0.
  set (mk := fun e : string * Explorer.Sums =>
               {| Explorer.name := fst e;
                  Explorer.top_count := Explorer.count (snd e);
                  Explorer.avgResH :=
                    Num.toFixed2 (Num.div (Explorer.sumResH (snd e))
                                          (Num.of_nat (Explorer.count (snd e))));
                  Explorer.avgSev :=
                    Num.toFixed2 (Num.div (Explorer.sumSev (snd e))
                                          (Num.of_nat (Explorer.count (snd e)))) |}).
  set (entries := JS.Object_entries (explorerGroups key rows)).
  split; [apply firstn_le_length |]. split; [| split].
  - apply StronglySorted_firstn, sorted_by_count.
  - rewrite <- firstn_map. apply NoDup_firstn.
    apply (Permutation_NoDup (l := map Explorer.name (map mk entries))).
    + symmetry. apply Permutation_map, Array_sort_perm.
    + rewrite map_map. apply groups_keys_NoDup.
  - intros r Hr. apply In_slice, Array_sort_In, in_map_iff in Hr as ([k v] & <- & He).
    apply groups_spec in He as (d0 & l & Hm & ->). cbn -[matching fold_left].
    rewrite Hm. destruct (explorerUpd_fold (d0 :: l) Explorer.noSums) as (Hc & _).
    rewrite Hc. split; [discriminate | reflexivity].
Qed.

(** X20: whenever the explorer has a result, its samples are the first
    twenty records of the target, in record order; and when no station of
    the target's records is a property name of [Object.prototype], its top
    stations are at most five rows with different names, in order of
    non-increasing count, each row counting the target's records at that
    station; likewise its top parts when no part is such a name. *)
Theorem explorer_tops_and_samples (data : list Defect) (sel : option string)
        (e : Explorer.Result) :
  Explorer.recurrenceExplorer data sel = Some e ->
  let mine := matching Defect.defectName (Explorer.target e) data in
  Explorer.samples e = firstn 20 mine
  /\ (forall (tops : list Explorer.Top) (key : Defect -> string),
         (tops = Explorer.topStations e /\ key = Defect.station)
         \/ (tops = Explorer.topParts e /\ key = Defect.partOfCar) ->
         plainKeys key mine ->
         length tops <= 5
         /\ StronglySorted (fun a b => Explorer.top_count b <= Explorer.top_count a) tops
         /\ List.NoDup (map Explorer.name tops)
         /\ forall r : Explorer.Top,
              In r tops ->
              let theirs := matching key (Explorer.name r) mine in
              theirs <> [] /\ Explorer.top_count r = length theirs).
Proof.
  intros He mine. apply recurrenceExplorer_Some in He. unfold mine.
  set (t := Explorer.target e) in *. rewrite He, explore_unfold.
  cbn [Explorer.samples Explorer.topStations Explorer.topParts].
  split; [reflexivity |].
  intros tops key [[-> ->] | [-> ->]] _; apply explorer_top5.
Qed.

Lemma explorer_tops_and_samples_witness :
  exists e : Explorer.Result,
    Explorer.recurrenceExplorer Sample.four (Some "Paint Defect") = Some e
    /\ Explorer.samples e
       = firstn 20 (matching Defect.defectName (Explorer.target e) Sample.four).
Proof.
  eexists. split; [reflexivity |].
  apply (explorer_tops_and_samples Sample.four (Some "Paint Defect") _ eq_refl).
Defined.



(** ** Sorting values that the comparator orders *)

Section SortedOn.
Context {A : Type}.
Variable cmp : A -> A -> number.
Variable P : A -> Prop.

Let after (x y : A) : bool := Num.gtb (cmp x y) Num.zero.

Hypothesis cmp_asym : forall x y, P x -> P y -> after x y = true -> after y x = false.
Hypothesis cmp_trans :
  forall x y z, P x -> P y -> P z -> after x y = false -> after y z = false -> after x z = false.

Lemma sort_insert_sorted_on (x : A) (l : list A) :
  P x -> Forall P l ->
  StronglySorted (fun a b => after a b = false) l ->
  StronglySorted (fun a b => after a b = false) (JS.sort_insert cmp x l).
Proof.
  intros Hx HP H. induction H as [| y l Hl IH Hy]; simpl.
  - repeat constructor.
  - apply List.Forall_cons_iff in HP as [Py HP]. rewrite List.Forall_forall in HP, Hy.
    fold (after x y). destruct (after x y) eqn:E.
    + constructor; [apply IH; now apply List.Forall_forall |].
      apply List.Forall_forall. intros z Hz.
      apply (Permutation_in _ (sort_insert_perm cmp x l)) in Hz.
      destruct Hz as [<- | Hz]; [now apply cmp_asym | now apply Hy].
    + constructor; [constructor; [exact Hl | now apply List.Forall_forall] |].
      constructor; [exact E |].
      apply List.Forall_forall. intros z Hz.
      apply (cmp_trans x y z Hx Py (HP z Hz) E). now apply Hy.
Qed.

Lemma Array_sort_sorted_on (l : list A) :
  Forall P l -> StronglySorted (fun a b => after a b = false) (JS.Array_sort cmp l).
Proof.
  unfold JS.Array_sort. induction l as [| x l IH]; intros HP; simpl; [constructor |].
  apply List.Forall_cons_iff in HP as [Px HP].
  apply sort_insert_sorted_on; [exact Px | | now apply IH].
  apply List.Forall_forall. intros z Hz.
  apply (Permutation_in _ (Array_sort_perm cmp l)) in Hz.
  rewrite List.Forall_forall in HP. now apply HP.
Qed.

End SortedOn.

Lemma gtb_sub_Fin (x y : Q) :
  Num.gtb (Num.sub (Fin x) (Fin y)) Num.zero = Num.ltb (Fin y) (Fin x).
Proof.
  unfold Num.gtb, Num.sub, Num.neg, Num.add, Num.zero.
  destruct (Num.ltb (Fin y) (Fin x)) eqn:E.
  - apply ltb_Fin in E. apply ltb_Fin. lra.
  - destruct (Num.ltb (Fin 0) _) eqn:E'; [| reflexivity].
    apply ltb_Fin in E'. assert (H : (y < x)%Q) by lra.
    apply ltb_Fin in H. congruence.
Qed.

Lemma number_ltb_asym (a b : number) : Num.ltb a b = true -> Num.ltb b a = false.
Proof.
  destruct a as [x | | |], b as [y | | |]; try reflexivity; try discriminate.
  intros H. apply ltb_Fin in H. destruct (Num.ltb (Fin y) (Fin x)) eqn:E; [| reflexivity].
  apply ltb_Fin in E. lra.
Qed.

Lemma number_ltb_total (a b c : number) :
  a <> NaN -> b <> NaN -> c <> NaN ->
  Num.ltb b a = false -> Num.ltb c b = false -> Num.ltb c a = false.
Proof.
  intros Ha Hb Hc.
  destruct a as [x | | |], b as [y | | |], c as [z | | |];
    try congruence; try reflexivity; try discriminate.
  intros H1 H2. destruct (Num.ltb (Fin z) (Fin x)) eqn:E; [| reflexivity].
  apply ltb_Fin in E.
  assert (H1' : ~ (y < x)%Q) by (intros H; apply ltb_Fin in H; congruence).
  assert (H2' : ~ (z < y)%Q) by (intros H; apply ltb_Fin in H; congruence).
  lra.
Qed.

Lemma gtb_sub (a b : number) :
  a <> NaN -> b <> NaN -> Num.gtb (Num.sub b a) Num.zero = Num.ltb a b.
Proof.
  intros Ha Hb. destruct a as [x | | |], b as [y | | |]; try congruence; try reflexivity.
  apply gtb_sub_Fin.
Qed.



(** ** Quick actions *)

Lemma quick_loops (rows : list Defect) :
  QuickActions.ssMap rows
  = fold_left (groupStep stationShiftKey (fun _ => QuickActions.noSums) quickUpd) rows []
  /\ QuickActions.spMap rows
     = fold_left (groupStep stationPartKey (fun _ => QuickActions.noSums) quickUpd) rows [].
Proof. split; reflexivity. Qed.

Lemma quickUpd_fold (l : list Defect) (v : QuickActions.Sums) :
  QuickActions.sums_count (fold_left quickUpd l v) = QuickActions.sums_count v + length l
  /\ QuickActions.sumSev (fold_left quickUpd l v)
     = fold_left (fun x y => Num.add x y) (map Defect.severityRating l) (QuickActions.sumSev v)
  /\ QuickActions.sumResH (fold_left quickUpd l v)
     = fold_left (fun x y => Num.add x y) (map Defect.resolutionTime l) (QuickActions.sumResH v).
Proof.
  revert v. induction l as [| d l IH]; intros v; simpl; [repeat split; lia |].
  destruct (IH (quickUpd v d)) as (H1 & H2 & H3). rewrite H1, H2, H3. simpl.
  repeat split. lia.
Qed.

(** What a candidate built from a group of [rows] by [key] holds. *)
Lemma quick_group_cand (key : Defect -> string) (rows : list Defect) (target : string)
      (c : QuickActions.Cand) :
  In c (map (QuickActions.cand target)
            (JS.Object_entries
               (fold_left (groupStep key (fun _ => QuickActions.noSums) quickUpd) rows []))) ->
  exists (d0 : Defect) (rest : list Defect),
    matching key (key d0) rows = d0 :: rest
    /\ QuickActions.count c = length (d0 :: rest)
    /\ QuickActions.avgSev c
       = Num.toFixed2 (Num.div (total (map Defect.severityRating (d0 :: rest)))
                               (Num.of_nat (length (d0 :: rest))))
    /\ QuickActions.avgResH c
       = Num.toFixed2 (Num.div (total (map Defect.resolutionTime (d0 :: rest)))
                               (Num.of_nat (length (d0 :: rest))))
    /\ QuickActions.score c
       = Num.toFixed2
           (weighted (length (d0 :: rest))
              (Num.div (total (map Defect.severityRating (d0 :: rest)))
                       (Num.of_nat (length (d0 :: rest))))
              (Num.div (total (map Defect.resolutionTime (d0 :: rest)))
                       (Num.of_nat (length (d0 :: rest))))).
Proof.
  intros Hc. apply in_map_iff in Hc as ([k v] & <- & Hkv).
  apply groups_spec in Hkv as (d0 & rest & Hm & ->).
  assert (Hkey : k = key d0).
  { assert (H : In d0 (matching key k rows)) by (rewrite Hm; now left).
    apply matching_In in H as [_ H]. now symmetry. }
  subst k. exists d0, rest. split; [exact Hm |].
  destruct (quickUpd_fold (d0 :: rest) QuickActions.noSums) as (H1 & H2 & H3).
  cbn [QuickActions.noSums QuickActions.sums_count QuickActions.sumSev QuickActions.sumResH
       Nat.add] in H1, H2, H3.
  unfold QuickActions.cand.
  cbn [QuickActions.count QuickActions.avgSev QuickActions.avgResH QuickActions.score].
  rewrite H1, H2, H3. repeat split.
Qed.

Lemma quick_group_counts (key : Defect -> string) (rows : list Defect) (target : string) :
  list_sum (map QuickActions.count
              (map (QuickActions.cand target)
                 (JS.Object_entries
                    (fold_left (groupStep key (fun _ => QuickActions.noSums) quickUpd) rows []))))
  = length rows.
Proof.
  rewrite map_map.
  rewrite <- (groups_weight key (fun _ => QuickActions.noSums) quickUpd
                QuickActions.sums_count rows);
    [| reflexivity | reflexivity].
  apply (f_equal list_sum), map_ext. now intros [k v].
Qed.

Lemma quick_group_nonempty (key : Defect -> string) (rows : list Defect) (target : string) :
  rows <> [] ->
  1 <= length (map (QuickActions.cand target)
                 (JS.Object_entries
                    (fold_left (groupStep key (fun _ => QuickActions.noSums) quickUpd) rows []))).
Proof.
  intros Hrows. destruct rows as [| d rows]; [congruence |].
  rewrite length_map.
  assert (Hm : exists rest, matching key (key d) (d :: rows) = d :: rest).
  { unfold matching. cbn [List.filter]. rewrite String.eqb_refl. eexists. reflexivity. }
  destruct Hm as [rest Hm].
  assert (Hin : In (key d, fold_left quickUpd (d :: rest) QuickActions.noSums)
                   (JS.Object_entries
                      (fold_left (groupStep key (fun _ => QuickActions.noSums) quickUpd)
                                 (d :: rows) []))).
  { apply groups_spec. now exists d, rest. }
  destruct (JS.Object_entries _); [destruct Hin | simpl; lia].
Qed.

(** X23: every quick-action candidate for a target stands for the target's
    records that share one key [station|||shift], or one key
    [station|||part]: its count is their number, which is at least 1 and at
    most the number of the target's records. *)
Theorem quick_action_candidates (data : list Defect) (target : string)
        (c : QuickActions.Cand) :
  In c (QuickActions.cands data target) ->
  exists (key : Defect -> string) (d0 : Defect) (rest : list Defect),
    (key = stationShiftKey \/ key = stationPartKey)
    /\ matching key (key d0) (matching Defect.defectName target data) = d0 :: rest
    /\ QuickActions.count c = length (d0 :: rest)
    /\ 1 <= QuickActions.count c
       <= countIf (fun d => String.eqb (Defect.defectName d) target) data.
Proof.
  intros Hc. unfold QuickActions.cands in Hc.
  fold (matching Defect.defectName target data) in Hc.
  destruct (quick_loops (matching Defect.defectName target data)) as [Hss Hsp].
  rewrite Hss, Hsp in Hc. apply in_app_or in Hc.
  assert (Hgen : forall key,
             In c (map (QuickActions.cand target)
                     (JS.Object_entries
                        (fold_left (groupStep key (fun _ => QuickActions.noSums) quickUpd)
                                   (matching Defect.defectName target data) []))) ->
             exists (d0 : Defect) (rest : list Defect),
               matching key (key d0) (matching Defect.defectName target data) = d0 :: rest
               /\ QuickActions.count c = length (d0 :: rest)
               /\ 1 <= QuickActions.count c
                  <= countIf (fun d => String.eqb (Defect.defectName d) target) data).
  { intros key H. apply quick_group_cand in H as (d0 & rest & Hm & Hn & _).
    exists d0, rest. split; [exact Hm |]. split; [exact Hn |].
    rewrite Hn, <- Hm. split; [rewrite Hm; simpl; lia |].
    unfold matching at 1. change (countIf (fun d => String.eqb (Defect.defectName d) target) data)
      with (length (matching Defect.defectName target data)).
    apply List.filter_length_le. }
  destruct Hc as [Hc | Hc]; apply Hgen in Hc as (d0 & rest & H).
  - exists stationShiftKey, d0, rest. split; [now left | exact H].
  - exists stationPartKey, d0, rest. split; [now right | exact H].
Qed.

Lemma quick_action_candidates_witness :
  exists (c : QuickActions.Cand) (key : Defect -> string) (d0 : Defect) (rest : list Defect),
    In c (QuickActions.cands Sample.four "Paint Defect")
    /\ matching key (key d0) (matching Defect.defectName "Paint Defect" Sample.four) = d0 :: rest
    /\ QuickActions.count c = length (d0 :: rest).
Proof.
  assert (Hne : exists c, In c (QuickActions.cands Sample.four "Paint Defect")).
  { destruct (QuickActions.cands Sample.four "Paint Defect") as [| c l] eqn:E;
      [vm_compute in E; discriminate E |]. exists c. now left. }
  destruct Hne as [c Hin].
  destruct (quick_action_candidates Sample.four "Paint Defect" c Hin)
    as (key & d0 & rest & _ & Hm & Hn & _).
  exists c, key, d0, rest. split; [exact Hin |]. split; [exact Hm | exact Hn].
Defined.

(** The candidates in the order of the final sort: when no score is [NaN],
    no candidate comes before one of larger score. *)
Lemma cands_sorted (cands : list QuickActions.Cand) :
  (forall c, In c cands -> QuickActions.score c <> NaN) ->
  StronglySorted
    (fun a b => Num.ltb (QuickActions.score a) (QuickActions.score b) = false)
    (JS.Array_sort (fun a b => Num.sub (QuickActions.score b) (QuickActions.score a)) cands).
Proof.
  intros Hnum.
  set (cmp := fun a b : QuickActions.Cand =>
                Num.sub (QuickActions.score b) (QuickActions.score a)).
  set (numeric := fun c : QuickActions.Cand => QuickActions.score c <> NaN).
  assert (Hafter : forall a b, numeric a -> numeric b ->
             Num.gtb (cmp a b) Num.zero
             = Num.ltb (QuickActions.score a) (QuickActions.score b)).
  { intros a b Ha Hb. now apply gtb_sub. }
  assert (Hsorted : StronglySorted (fun a b => Num.gtb (cmp a b) Num.zero = false)
                                   (JS.Array_sort cmp cands)).
  { apply (Array_sort_sorted_on cmp numeric).
    - intros x y Hx Hy. rewrite !Hafter by assumption. apply number_ltb_asym.
    - intros x y z Hx Hy Hz. rewrite !Hafter by assumption. intros H1 H2.
      now apply (number_ltb_total (QuickActions.score z) (QuickActions.score y)
                                  (QuickActions.score x)).
    - apply List.Forall_forall. exact Hnum. }
  assert (Hall : Forall numeric (JS.Array_sort cmp cands)).
  { apply List.Forall_forall. intros c Hc. apply Hnum. now apply Array_sort_In in Hc. }
  clear - Hsorted Hall Hafter.
  induction Hsorted as [| a l Hl IH Ha]; constructor.
  - apply IH. now apply List.Forall_cons_iff in Hall as [_ Hall].
  - apply List.Forall_cons_iff in Hall as [Pa Hall].
    rewrite List.Forall_forall in Ha, Hall |- *. intros b Hb.
    rewrite <- Hafter; [now apply Ha | exact Pa | now apply Hall].
Qed.

(** X24: without an explorer result there are no quick actions.  With one,
    and when no candidate's score is [NaN], the quick actions are the
    first three at most of the candidates arranged so that none comes
    before one of larger score; the counts of the station-and-shift
    candidates add up to the number of the target's records and so do those
    of the station-and-part candidates; and a target with a record has at
    least two quick actions. *)
Theorem quick_actions_shortlist (data : list Defect) (e : Explorer.Result) :
  let rows := matching Defect.defectName (Explorer.target e) data in
  let cands := QuickActions.cands data (Explorer.target e) in
  let q := QuickActions.quickActions data (Some e) in
  (forall c, In c cands -> QuickActions.score c <> NaN) ->
  QuickActions.quickActions data None = []
  /\ (exists rest : list QuickActions.Cand,
        Permutation (q ++ rest) cands
        /\ StronglySorted
             (fun a b => Num.ltb (QuickActions.score a) (QuickActions.score b) = false)
             (q ++ rest))
  /\ length q = Nat.min 3 (length cands)
  /\ list_sum (map QuickActions.count
                  (map (QuickActions.cand (Explorer.target e))
                       (JS.Object_entries (QuickActions.ssMap rows))))
     = length rows
  /\ list_sum (map QuickActions.count
                  (map (QuickActions.cand (Explorer.target e))
                       (JS.Object_entries (QuickActions.spMap rows))))
     = length rows
  /\ list_sum (map QuickActions.count cands) = 2 * length rows
  /\ (rows <> [] -> 2 <= length q <= 3)
  /\ (rows = [] -> q = []).
Proof.
  intros rows cands q Hnum. split; [reflexivity |].
  destruct (quick_loops rows) as [Hss Hsp].
  assert (Hcands : cands
                   = map (QuickActions.cand (Explorer.target e))
                         (JS.Object_entries (QuickActions.ssMap rows))
                     ++ map (QuickActions.cand (Explorer.target e))
                            (JS.Object_entries (QuickActions.spMap rows))) by reflexivity.
  assert (Hlen : length q = Nat.min 3 (length cands)).
  { unfold q, QuickActions.quickActions, JS.slice0.
    now rewrite length_firstn, Array_sort_length. }
  assert (H1 : list_sum (map QuickActions.count
                 (map (QuickActions.cand (Explorer.target e))
                      (JS.Object_entries (QuickActions.ssMap rows)))) = length rows).
  { rewrite Hss. apply quick_group_counts. }
  assert (H2 : list_sum (map QuickActions.count
                 (map (QuickActions.cand (Explorer.target e))
                      (JS.Object_entries (QuickActions.spMap rows)))) = length rows).
  { rewrite Hsp. apply quick_group_counts. }
  split.
  { exists (skipn 3 (JS.Array_sort
                       (fun a b => Num.sub (QuickActions.score b) (QuickActions.score a))
                       cands)).
    unfold q, QuickActions.quickActions, JS.slice0. fold cands.
    rewrite firstn_skipn. split; [apply Array_sort_perm | now apply cands_sorted]. }
  split; [exact Hlen |]. split; [exact H1 |]. split; [exact H2 |]. split.
  { rewrite Hcands, map_app, list_sum_app, H1, H2. lia. }
  split.
  - intros Hrows. rewrite Hlen, Hcands, length_app.
    pose proof (quick_group_nonempty stationShiftKey rows (Explorer.target e) Hrows) as Ha.
    pose proof (quick_group_nonempty stationPartKey rows (Explorer.target e) Hrows) as Hb.
    rewrite <- Hss in Ha. rewrite <- Hsp in Hb. lia.
  - intros Hrows. unfold q, QuickActions.quickActions. fold cands.
    rewrite Hcands, Hrows. reflexivity.
Qed.

Lemma quick_actions_shortlist_witness :
  length (QuickActions.quickActions Sample.four
            (Some (Explorer.explore Sample.four "Paint Defect")))
  = Nat.min 3 (length (QuickActions.cands Sample.four "Paint Defect")).
Proof.
  apply (quick_actions_shortlist Sample.four (Explorer.explore Sample.four "Paint Defect")).
  intros c Hc. vm_compute in Hc.
  repeat (destruct Hc as [<- | Hc]; [discriminate |]). destruct Hc.
Defined.

(** ** The filtered and sorted view *)

Lemma includes_empty (s : string) : JS.String_includes s "" = true.
Proof. destruct s; reflexivity. Qed.

Lemma matches_empty (Number_toString : number -> string) (d : Defect) :
  FilterSort.matches Number_toString "" d = true.
Proof.
  unfold FilterSort.matches, FilterSort.values, FilterSort.keys.
  cbn [map JS.Array_some existsb JS.toLowerCase]. now rewrite includes_empty.
Qed.

Lemma filter_sublist {A : Type} (p : A -> bool) (l : list A) : sublist (List.filter p l) l.
Proof.
  induction l as [| x l IH]; simpl; [constructor |].
  destruct (p x); now constructor.
Qed.

Lemma String_ltb_asym (a b : string) : JS.String_ltb a b = true -> JS.String_ltb b a = false.
Proof.
  unfold JS.String_ltb. rewrite (String.compare_antisym a b).
  now destruct (String.compare b a).
Qed.

Lemma String_ltb_total (a b c : string) :
  JS.String_ltb b a = false -> JS.String_ltb c b = false -> JS.String_ltb c a = false.
Proof.
  unfold JS.String_ltb. intros H1 H2.
  destruct (String.compare c a) eqn:Eca; try reflexivity.
  destruct (String.compare b a) eqn:Eba; [| discriminate |].
  - apply String.compare_eq_iff in Eba. subst b. now rewrite Eca in H2.
  - assert (Hab : String.compare a b = Lt)
      by (rewrite String.compare_antisym, Eba; reflexivity).
    apply OrderedTypeEx.String_as_OT.cmp_lt in Eca, Hab.
    pose proof (OrderedTypeEx.String_as_OT.lt_trans _ _ _ Eca Hab) as Hcb.
    apply OrderedTypeEx.String_as_OT.cmp_lt in Hcb.
    change (String.compare c b = Lt) in Hcb. now rewrite Hcb in H2.
Qed.

Lemma value_ltb_asym (a b : FilterSort.value) :
  FilterSort.value_ltb a b = true -> FilterSort.value_ltb b a = false.
Proof.
  destruct a as [x | x | x], b as [y | y | y]; simpl; try reflexivity; try discriminate.
  - apply number_ltb_asym.
  - apply String_ltb_asym.
  - now destruct x, y.
Qed.

Lemma value_ltb_total (k : FilterSort.Key) (x y z : Defect) :
  comparable k x -> comparable k y -> comparable k z ->
  FilterSort.value_ltb (FilterSort.prop y k) (FilterSort.prop x k) = false ->
  FilterSort.value_ltb (FilterSort.prop z k) (FilterSort.prop y k) = false ->
  FilterSort.value_ltb (FilterSort.prop z k) (FilterSort.prop x k) = false.
Proof.
  unfold comparable.
  destruct k; cbn [FilterSort.prop FilterSort.value_ltb];
    intros Hx Hy Hz;
    first [ now apply number_ltb_total
          | apply String_ltb_total
          | destruct (Defect.flagged x), (Defect.flagged y), (Defect.flagged z);
            simpl; congruence ].
Qed.

Lemma after_comparator (k : FilterSort.Key) (dir : FilterSort.Direction) (x y : Defect) :
  Num.gtb (FilterSort.comparator k dir x y) Num.zero
  = match dir with
    | FilterSort.asc => FilterSort.value_ltb (FilterSort.prop y k) (FilterSort.prop x k)
    | FilterSort.desc => FilterSort.value_ltb (FilterSort.prop x k) (FilterSort.prop y k)
    end.
Proof.
  unfold FilterSort.comparator.
  destruct (FilterSort.value_ltb (FilterSort.prop x k) (FilterSort.prop y k)) eqn:E1.
  - rewrite (value_ltb_asym _ _ E1). now destruct dir.
  - destruct (FilterSort.value_ltb (FilterSort.prop y k) (FilterSort.prop x k));
      now destruct dir.
Qed.

(** X25: the view without a sort key is a subsequence of the record set, in
    the order of the set; a sort key only permutes it; the view never holds
    more records than the set; and with an empty search term and the
    outliers-only toggle off the unsorted view is the record set itself. *)
Theorem view_keeps_the_records
        (Math_sqrt : number -> number) (Number_toString : number -> string)
        (data : list Defect) (term : string) (outliersOnly : bool)
        (cfg : FilterSort.SortConfig) (k : number) :
  let view := FilterSort.filtered Math_sqrt Number_toString data term outliersOnly cfg k in
  let plain :=
    FilterSort.filtered Math_sqrt Number_toString data term outliersOnly
      {| FilterSort.key := None; FilterSort.direction := FilterSort.direction cfg |} k in
  sublist plain data
  /\ Permutation view plain
  /\ (FilterSort.key cfg = None -> view = plain)
  /\ length view <= length data
  /\ FilterSort.filtered Math_sqrt Number_toString data "" false
       {| FilterSort.key := None; FilterSort.direction := FilterSort.direction cfg |} k
     = data.
Proof.
  intros view plain.
  assert (Hsub : sublist plain data).
  { unfold plain, FilterSort.filtered. cbn [FilterSort.key].
    destruct outliersOnly; [| apply filter_sublist].
    etransitivity; apply filter_sublist. }
  assert (Hperm : Permutation view plain).
  { unfold view, plain, FilterSort.filtered. cbn [FilterSort.key].
    destruct (FilterSort.key cfg); [apply Array_sort_perm | reflexivity]. }
  split; [exact Hsub |]. split; [exact Hperm |]. split; [| split].
  - intros Hk. unfold view, plain, FilterSort.filtered. cbn [FilterSort.key].
    now rewrite Hk.
  - rewrite (Permutation_length Hperm). now apply sublist_length.
  - unfold FilterSort.filtered. cbn [FilterSort.key].
    apply filter_all. intros d _. apply matches_empty.
Qed.

(** X26: when no record of the set has, as the value of the sort key,
    [NaN] or a string with a character outside ASCII, the sorted view is in
    order: going down it the value of the key never decreases when the
    direction is ascending and never increases when it is descending. *)
Theorem sorted_view_is_ordered
        (Math_sqrt : number -> number) (Number_toString : number -> string)
        (data : list Defect) (term : string) (outliersOnly : bool)
        (key : FilterSort.Key) (dir : FilterSort.Direction) (k : number) :
  (forall d, In d data -> comparable key d) ->
  StronglySorted (inOrder key dir)
    (FilterSort.filtered Math_sqrt Number_toString data term outliersOnly
       {| FilterSort.key := Some key; FilterSort.direction := dir |} k).
Proof.
  intros Hcmp. unfold FilterSort.filtered. cbn [FilterSort.key FilterSort.direction].
  set (result := if outliersOnly then _ else _).
  assert (Hres : Forall (comparable key) result).
  { apply List.Forall_forall. intros d Hd. apply Hcmp.
    unfold result in Hd. destruct outliersOnly.
    - apply List.filter_In in Hd as [Hd _]. now apply List.filter_In in Hd as [Hd _].
    - now apply List.filter_In in Hd as [Hd _]. }
  assert (Hs := Array_sort_sorted_on (FilterSort.comparator key dir) (comparable key)).
  assert (Hsorted :
    StronglySorted
      (fun a b => Num.gtb (FilterSort.comparator key dir a b) Num.zero = false)
      (JS.Array_sort (FilterSort.comparator key dir) result)).
  { apply Hs; [| | exact Hres].
    - intros x y _ _. rewrite !after_comparator. destruct dir; apply value_ltb_asym.
    - intros x y z Hx Hy Hz. rewrite !after_comparator. destruct dir.
      + now apply value_ltb_total.
      + intros H1 H2. now apply (value_ltb_total key z y x). }
  clear - Hsorted. induction Hsorted as [| a l Hl IH Ha]; constructor; [exact IH |].
  rewrite List.Forall_forall in Ha |- *. intros b Hb.
  unfold inOrder. rewrite <- after_comparator. now apply Ha.
Qed.

Lemma sorted_view_is_ordered_witness :
  StronglySorted (inOrder FilterSort.reporter FilterSort.asc)
    (FilterSort.filtered Sample.sqrt6 Sample.print Sample.four "" false
       {| FilterSort.key := Some FilterSort.reporter;
          FilterSort.direction := FilterSort.asc |} (Fin 2)).
Proof.
  apply sorted_view_is_ordered. intros d Hd.
  repeat (destruct Hd as [<- | Hd]; [reflexivity |]). destruct Hd.
Defined.

(** ** Column headers and the flagged list *)

Lemma sameKey_spec (k k' : FilterSort.Key) : View.sameKey (Some k) k' = true <-> k = k'.
Proof.
  split.
  - destruct k, k'; intros H; try reflexivity; discriminate H.
  - intros <-. unfold View.sameKey. apply String.eqb_refl.
Qed.

(** X27: a click on a column header makes that column the sort key; the
    direction is ascending, unless the column was already the key in
    ascending direction, which makes it descending; so repeated clicks on
    one header alternate between the two directions, starting with
    ascending for a header that was not the key. *)
Theorem handleSort_alternates (key : FilterSort.Key) (cfg : FilterSort.SortConfig) :
  let once := View.handleSort key cfg in
  let twice := View.handleSort key once in
  FilterSort.key once = Some key
  /\ (FilterSort.direction once = FilterSort.desc
      <-> FilterSort.key cfg = Some key /\ FilterSort.direction cfg = FilterSort.asc)
  /\ (FilterSort.key cfg <> Some key -> FilterSort.direction once = FilterSort.asc)
  /\ FilterSort.direction twice
     = match FilterSort.direction once with
       | FilterSort.asc => FilterSort.desc
       | FilterSort.desc => FilterSort.asc
       end
  /\ View.handleSort key twice = once.
Proof.
  intros once twice.
  assert (Hdir : FilterSort.direction once = FilterSort.desc
                 <-> FilterSort.key cfg = Some key /\ FilterSort.direction cfg = FilterSort.asc).
  { unfold once, View.handleSort. cbn [FilterSort.direction].
    destruct (FilterSort.key cfg) as [k0 |]; cbn [View.sameKey andb].
    - destruct (String.eqb (View.keyName k0) (View.keyName key)) eqn:E.
      + apply (sameKey_spec k0 key) in E. subst k0.
        destruct (FilterSort.direction cfg); cbn [andb]; split; try tauto; try discriminate.
        intros [_ H]. discriminate H.
      + cbn [andb]. split; [discriminate |]. intros [H _]. injection H as ->.
        unfold View.keyName in E. rewrite String.eqb_refl in E. discriminate E.
    - split; [discriminate |]. intros [H _]. discriminate H. }
  assert (Htwice : FilterSort.direction twice
                   = match FilterSort.direction once with
                     | FilterSort.asc => FilterSort.desc
                     | FilterSort.desc => FilterSort.asc
                     end).
  { unfold twice, View.handleSort at 1. cbn [FilterSort.direction].
    change (FilterSort.key once) with (Some key).
    rewrite (proj2 (sameKey_spec key key) eq_refl).
    now destruct (FilterSort.direction once). }
  split; [reflexivity |]. split; [exact Hdir |]. split; [| split; [exact Htwice |]].
  - intros Hk. destruct (FilterSort.direction once) eqn:E; [reflexivity |].
    destruct (proj1 Hdir eq_refl) as [Hk' _]. contradiction.
  - assert (H3 : FilterSort.direction (View.handleSort key twice) = FilterSort.direction once).
    { unfold View.handleSort at 1. cbn [FilterSort.direction].
      change (FilterSort.key twice) with (Some key).
      rewrite (proj2 (sameKey_spec key key) eq_refl), Htwice.
      now destruct (FilterSort.direction once). }
    change (View.handleSort key twice)
      with {| FilterSort.key := Some key;
              FilterSort.direction := FilterSort.direction (View.handleSort key twice) |}.
    rewrite H3. reflexivity.
Qed.

Lemma filter_map_length {A B : Type} (p : B -> bool) (f : A -> B) (l : list A) :
  length (List.filter p (map f l)) = length (List.filter (fun x => p (f x)) l).
Proof.
  induction l as [| x l IH]; simpl; [reflexivity |].
  destruct (p (f x)); simpl; now rewrite IH.
Qed.

(** X28: after flagging an identifier, the flagged list holds the toggled
    copy of a record with that identifier exactly when the record was not
    flagged before, it holds a record with another identifier exactly when
    it held it before, and its length is the number of records whose flag
    differs from whether they bear the identifier. *)
Theorem flagged_list_follows_the_flag (data : list Defect) (id : number) :
  let data' := snd (Store.handleFlag id data) in
  (forall d, In d data -> Num.eqb (Defect.id d) id = true ->
             (In (Store.toggled d) (View.flaggedData data') <-> Defect.flagged d = false))
  /\ (forall d, Num.eqb (Defect.id d) id = false ->
                (In d (View.flaggedData data') <-> In d (View.flaggedData data)))
  /\ length (View.flaggedData data')
     = countIf (fun d => xorb (Defect.flagged d) (Num.eqb (Defect.id d) id)) data.
Proof.
  intros data'. unfold data', View.flaggedData, Store.handleFlag. cbn [snd].
  split; [| split].
  - intros d Hd Hid. rewrite List.filter_In.
    change (Defect.flagged (Store.toggled d)) with (negb (Defect.flagged d)).
    rewrite negb_true_iff. split; [tauto |]. intros Hf. split; [| exact Hf].
    apply in_map_iff. exists d. now rewrite Hid.
  - intros d Hid. rewrite !List.filter_In, in_map_iff. split.
    + intros [(d0 & Hd0 & Hin) Hf]. split; [| exact Hf].
      destruct (Num.eqb (Defect.id d0) id) eqn:E; [| now subst d0].
      subst d. change (Defect.id (Store.toggled d0)) with (Defect.id d0) in Hid. congruence.
    + intros [Hin Hf]. split; [| exact Hf]. exists d. now rewrite Hid.
  - rewrite filter_map_length. unfold countIf. apply (f_equal (@length Defect)).
    apply List.filter_ext. intros d.
    destruct (Num.eqb (Defect.id d) id); [| now rewrite xorb_false_r].
    now rewrite xorb_true_r.
Qed.

(** ** The generator of the initial record set *)

Lemma scaled_range (r : Q) (n : Z) :
  (0 <= r)%Q -> (r < 1)%Q -> (0 < n)%Z -> (0 <= Generator.scaled r n < n)%Z.
Proof.
  intros H0 H1 Hn. unfold Generator.scaled.
  assert (Hq : (0 < inject_Z n)%Q) by (change 0%Q with (inject_Z 0); rewrite <- Zlt_Qlt; exact Hn).
  split.
  - rewrite <- (Qfloor_Z 0). apply Qfloor_resp_le. change (inject_Z 0) with 0%Q. nra.
  - rewrite Zlt_Qlt. apply (Qle_lt_trans _ (r * inject_Z n)); [apply Qfloor_le | nra].
Qed.

Lemma pick_In (arr : list string) (r : Q) :
  (0 <= r)%Q -> (r < 1)%Q -> arr <> [] -> In (Generator.pick arr r) arr.
Proof.
  intros H0 H1 Harr. unfold Generator.pick. apply nth_In.
  assert (Hlen : (0 < Z.of_nat (length arr))%Z).
  { destruct arr; [congruence | simpl; lia]. }
  pose proof (scaled_range r _ H0 H1 Hlen). lia.
Qed.

Lemma length_append (s t : string) :
  String.length (s ++ t) = String.length s + String.length t.
Proof.
  induction s as [| c s IH]; [now rewrite append_nil |].
  rewrite append_cons. simpl. now rewrite IH.
Qed.

Lemma two_digits (h : Z) :
  (0 <= h < 60)%Z -> String.length (Generator.padStart2 (Generator.String_of_int h)) = 2.
Proof.
  intros Hh.
  assert (Hall : forallb (fun n => Nat.eqb (String.length
                                    (Generator.padStart2
                                       (Generator.String_of_int (Z.of_nat n)))) 2)
                         (seq 0 60) = true) by (vm_compute; reflexivity).
  rewrite forallb_forall in Hall. specialize (Hall (Z.to_nat h)).
  rewrite Z2Nat.id in Hall by lia. apply Nat.eqb_eq, Hall, in_seq. lia.
Qed.

Lemma toFixed2_within (q : Q) (a b : Z) :
  (0 <= a)%Z -> (b < 10 ^ 20)%Z ->
  (inject_Z a <= q * 100)%Q -> (q * 100 <= inject_Z b)%Q ->
  exists h : Z, Num.toFixed2 (Fin q) = Fin (inject_Z h / 100) /\ (a <= h <= b)%Z.
Proof.
  intros Ha Hb Hlo Hhi.
  assert (Ha' : (0 <= inject_Z a)%Q) by (change 0%Q with (inject_Z 0); rewrite <- Zle_Qle; exact Ha).
  assert (Hb' : (inject_Z b < inject_Z (10 ^ 20))%Q) by (rewrite <- Zlt_Qlt; exact Hb).
  assert (Hbig : (inject_Z (10 ^ 21) == 10 * inject_Z (10 ^ 20))%Q) by reflexivity.
  assert (Hq : (0 <= q)%Q) by lra.
  exists (Num.hundredths q). split.
  - unfold Num.toFixed2.
    destruct (Qle_bool (inject_Z (10 ^ 21)) (Qabs q)) eqn:E.
    + apply Qle_bool_iff in E. rewrite (Qabs_pos q Hq) in E. exfalso.
      generalize dependent (inject_Z (10 ^ 21)). generalize dependent (inject_Z (10 ^ 20)).
      intros x Hx y Hy Hle. lra.
    + destruct (Qle_bool 0 q) eqn:E'; [reflexivity |].
      apply Qle_bool_iff in Hq. congruence.
  - unfold Num.hundredths. split.
    + rewrite <- (Qfloor_Z a). apply Qfloor_resp_le. lra.
    + apply Z.lt_succ_r. unfold Z.succ. rewrite Zlt_Qlt.
      apply (Qle_lt_trans _ (q * 100 + (1 # 2))); [apply Qfloor_le |].
      rewrite inject_Z_plus. change (inject_Z 1) with 1%Q. lra.
Qed.

Lemma geb_eight (s : Z) : Num.geb (Fin (inject_Z s)) (Fin 8) = (7 <? s)%Z.
Proof.
  unfold Num.geb, Num.ltb, Num.eqb.
  destruct (Z.ltb_spec 7 s) as [H | H].
  - destruct (Qle_bool (inject_Z s) 8) eqn:E; [| reflexivity]. cbn [negb orb].
    apply Qeq_bool_iff. apply Qle_bool_iff in E.
    assert (H8 : (inject_Z 8 <= inject_Z s)%Q) by (rewrite <- Zle_Qle; lia).
    change (inject_Z 8) with 8%Q in H8. lra.
  - assert (Hlt : (inject_Z s < inject_Z 8)%Q) by (rewrite <- Zlt_Qlt; lia).
    change (inject_Z 8) with 8%Q in Hlt.
    destruct (Qle_bool (inject_Z s) 8) eqn:E.
    + cbn [negb orb]. destruct (Qeq_bool (inject_Z s) 8) eqn:E'; [| reflexivity].
      apply Qeq_bool_iff in E'. lra.
    + exfalso. assert (Hle : (inject_Z s <= 8)%Q) by lra.
      apply Qle_bool_iff in Hle. congruence.
Qed.

Lemma draws_range (n : nat) : (0 <= Sample.draws n)%Q /\ (Sample.draws n < 1)%Q.
Proof.
  unfold Sample.draws.
  assert (H : (0 <= Z.of_nat ((7 * n) mod 100) < 100)%Z).
  { pose proof (Nat.mod_upper_bound (7 * n) 100). lia. }
  generalize dependent (Z.of_nat ((7 * n) mod 100)). intros z Hz.
  assert (H0 : (inject_Z 0 <= inject_Z z)%Q) by (rewrite <- Zle_Qle; lia).
  assert (H1 : (inject_Z z < inject_Z 100)%Q) by (rewrite <- Zlt_Qlt; lia).
  change (inject_Z 0) with 0%Q in H0. change (inject_Z 100) with 100%Q in H1.
  split.
  - apply Qle_shift_div_l; lra.
  - apply Qlt_shift_div_r; lra.
Qed.

(** X29: whatever [Math.random] draws between 0 (included) and 1
    (excluded), the generator returns 500 records with the identifiers 1 to
    500 in order; every record takes its defect name, station, part,
    reporter, model, motor type, design package and shift from the fixed
    lists (the shift being one of the three the explorer reports on), has a
    time of five characters, and starts unflagged with an empty note and an
    empty status. *)
Theorem generated_records_are_well_formed (Math_random : nat -> Q) (isoDate : Z -> string) :
  (forall n, (0 <= Math_random n)%Q /\ (Math_random n < 1)%Q) ->
  let data := Generator.generateSyntheticData Math_random isoDate in
  length data = 500
  /\ map Defect.id data = map (fun i => Fin (inject_Z (Z.of_nat i + 1))) (seq 0 500)
  /\ forall d, In d data ->
       In (Defect.defectName d) Generator.defectNames
       /\ In (Defect.station d) Generator.stations
       /\ In (Defect.partOfCar d) Generator.parts
       /\ In (Defect.reporter d) Generator.reporters
       /\ In (Defect.carModel d) Generator.models
       /\ In (Defect.motorType d) Generator.motorTypes
       /\ In (Defect.designPackage d) Generator.designPackages
       /\ In (Defect.productionShift d) explorerShifts
       /\ String.length (Defect.time d) = 5
       /\ Defect.flagged d = false /\ Defect.note d = "" /\ Defect.status d = "".
Proof.
  intros Hrand data. unfold data, Generator.generateSyntheticData.
  split; [now rewrite length_map, length_seq |]. split.
  { rewrite map_map. apply map_ext. reflexivity. }
  intros d Hd. apply in_map_iff in Hd as (i & <- & _).
  unfold Generator.generated.
  cbn [Defect.defectName Defect.station Defect.partOfCar Defect.reporter Defect.carModel
       Defect.motorType Defect.designPackage Defect.productionShift Defect.time
       Defect.flagged Defect.note Defect.status].
  assert (Hpick : forall arr j, arr <> [] ->
                    In (Generator.pick arr (Math_random (15 * i + j))) arr).
  { intros arr j Harr. destruct (Hrand (15 * i + j)). now apply pick_In. }
  split; [now apply Hpick |]. split; [now apply Hpick |]. split; [now apply Hpick |].
  split; [now apply Hpick |]. split; [now apply Hpick |]. split; [now apply Hpick |].
  split; [now apply Hpick |]. split; [now apply (Hpick Generator.shifts) |].
  split; [| repeat split].
  rewrite !length_append.
  destruct (Hrand (15 * i + 3)) as [Ha Hb], (Hrand (15 * i + 4)) as [Hc He].
  rewrite !two_digits.
  - reflexivity.
  - pose proof (scaled_range _ 60 Hc He). lia.
  - pose proof (scaled_range _ 24 Ha Hb). lia.
Qed.

Lemma generated_records_are_well_formed_witness :
  length (Generator.generateSyntheticData Sample.draws Sample.dayOfYear) = 500.
Proof.
  apply (generated_records_are_well_formed Sample.draws Sample.dayOfYear draws_range).
Defined.

(** X30: whatever [Math.random] draws between 0 (included) and 1
    (excluded), every generated record has a whole severity from 1 to 10
    and a resolution time that is a number of hundredths from 0.50 to
    17.00; its category is Critical exactly for a severity of 8 or more,
    Functional for 5 to 7 and Cosmetic for 4 or less; and a Critical record
    has a resolution time of at least 5.00 and is an outlier in every
    record set at every threshold. *)
Theorem generated_measures (Math_random : nat -> Q) (isoDate : Z -> string) (d : Defect) :
  (forall n, (0 <= Math_random n)%Q /\ (Math_random n < 1)%Q) ->
  In d (Generator.generateSyntheticData Math_random isoDate) ->
  exists s h : Z,
    Defect.severityRating d = Fin (inject_Z s) /\ (1 <= s <= 10)%Z
    /\ Defect.resolutionTime d = Fin (inject_Z h / 100) /\ (50 <= h <= 1700)%Z
    /\ (Defect.defectCategory d = Critical <-> (8 <= s)%Z)
    /\ (Defect.defectCategory d = Functional <-> (5 <= s <= 7)%Z)
    /\ (Defect.defectCategory d = Cosmetic <-> (s <= 4)%Z)
    /\ (Defect.defectCategory d = Critical -> (500 <= h)%Z)
    /\ (Defect.defectCategory d = Critical ->
        forall (Math_sqrt : number -> number) (records : list Defect) (k : number),
          Outlier.isOutlier Math_sqrt records k d = true).
Proof.
  intros Hrand Hd. unfold Generator.generateSyntheticData in Hd.
  apply in_map_iff in Hd as (i & <- & _).
  destruct (Hrand (15 * i + 1)) as [Hs0 Hs1], (Hrand (15 * i + 2)) as [Hr0 Hr1].
  pose proof (scaled_range _ 10 Hs0 Hs1 eq_refl) as Hsev.
  set (s := (Generator.scaled (Math_random (15 * i + 1)%nat) 10 + 1)%Z).
  assert (Hs : (1 <= s <= 10)%Z) by (unfold s; lia).
  set (r := Math_random (15 * i + 2)) in *.
  set (x := (r * 12 + (if (7 <? s)%Z then 5 else 0))%Q).
  assert (Hx : (0 <= x)%Q /\ (x < 17)%Q /\ ((7 < s)%Z -> (5 <= x)%Q)).
  { unfold x. destruct (Z.ltb_spec 7 s) as [H | H].
    - split; [lra |]. split; [lra |]. intros _. lra.
    - split; [lra |]. split; [lra |]. intros H'. lia. }
  destruct Hx as (Hx0 & Hx1 & Hx5).
  assert (Hres : exists h : Z,
             Num.toFixed2 (Math_max (Fin 0.5) (Fin x)) = Fin (inject_Z h / 100)
             /\ (50 <= h <= 1700)%Z /\ ((7 < s)%Z -> (500 <= h)%Z)).
  { unfold Math_max. destruct (Num.ltb (Fin 0.5) (Fin x)) eqn:E.
    - apply ltb_Fin in E. destruct (Z.ltb_spec 7 s) as [H | H].
      + destruct (toFixed2_within x 500 1700) as (h & Hh & Hrange);
          [lia | reflexivity
           | specialize (Hx5 H); change (inject_Z 500) with 500%Q; lra
           | change (inject_Z 1700) with 1700%Q; lra |].
        exists h. split; [exact Hh |]. split; [lia |]. intros _. lia.
      + destruct (toFixed2_within x 50 1700) as (h & Hh & Hrange);
          [lia | reflexivity
           | change (inject_Z 50) with 50%Q; lra
           | change (inject_Z 1700) with 1700%Q; lra |].
        exists h. split; [exact Hh |]. split; [lia |]. intros H'. lia.
    - assert (Hle : ~ (0.5 < x)%Q) by (intros H; apply ltb_Fin in H; congruence).
      exists 50%Z. split; [reflexivity |]. split; [lia |]. intros H.
      specialize (Hx5 H). lra. }
  destruct Hres as (h & Hh & Hrange & Hcrit).
  exists s, h.
  assert (Hcat : Defect.defectCategory (Generator.generated Math_random isoDate i)
                 = if (7 <? s)%Z then Critical
                   else if (4 <? s)%Z then Functional else Cosmetic) by reflexivity.
  assert (Hsevd : Defect.severityRating (Generator.generated Math_random isoDate i)
                  = Fin (inject_Z s)) by reflexivity.
  assert (Hresd : Defect.resolutionTime (Generator.generated Math_random isoDate i)
                  = Num.toFixed2 (Math_max (Fin 0.5) (Fin x))) by reflexivity.
  rewrite Hcat, Hsevd, Hresd.
  split; [reflexivity |]. split; [exact Hs |]. split; [exact Hh |]. split; [exact Hrange |].
  assert (C1 : (if (7 <? s)%Z then Critical
                else if (4 <? s)%Z then Functional else Cosmetic) = Critical <-> (8 <= s)%Z).
  { destruct (Z.ltb_spec 7 s); [split; [lia | reflexivity] |].
    destruct (Z.ltb_spec 4 s); split; try discriminate; lia. }
  split; [exact C1 |]. split; [| split; [| split]].
  - destruct (Z.ltb_spec 7 s); [split; [discriminate | lia] |].
    destruct (Z.ltb_spec 4 s); split; try discriminate; try lia; reflexivity.
  - destruct (Z.ltb_spec 7 s); [split; [discriminate | lia] |].
    destruct (Z.ltb_spec 4 s); split; try discriminate; try lia; reflexivity.
  - intros Hc. apply C1 in Hc. apply Hcrit. lia.
  - intros Hc Math_sqrt records k. apply C1 in Hc. unfold Outlier.isOutlier.
    change (Outlier.staticCritical (Outlier.calculateOutliers Math_sqrt records k))
      with (Fin 8).
    rewrite Hsevd, geb_eight. destruct (Z.ltb_spec 7 s); [apply orb_true_r | lia].
Qed.

Lemma generated_measures_witness :
  exists s h : Z,
    Defect.severityRating (Generator.generated Sample.draws Sample.dayOfYear 0)
    = Fin (inject_Z s)
    /\ (1 <= s <= 10)%Z
    /\ Defect.resolutionTime (Generator.generated Sample.draws Sample.dayOfYear 0)
       = Fin (inject_Z h / 100)
    /\ (50 <= h <= 1700)%Z.
Proof.
  destruct (generated_measures Sample.draws Sample.dayOfYear
              (Generator.generated Sample.draws Sample.dayOfYear 0) draws_range)
    as (s & h & H1 & H2 & H3 & H4 & _).
  - unfold Generator.generateSyntheticData. apply in_map. apply in_seq. lia.
  - exists s, h. split; [exact H1 |]. split; [exact H2 |]. split; [exact H3 | exact H4].
Defined.
